(** * Order-book reconstruction (reconstruction.cpp): model and properties

    A shallow embedding of the MBO -> MBP-10 reconstruction engine:
    the per-(instrument, publisher) [Book], the [Market] that owns the
    books and aggregates them, and the driver loop of [main] with its
    Trade/Fill/Cancel rewriting.  The decoding of a CSV line into an
    [MboSingle], the formatting of a row and the conversion of prices
    to decimals stay outside: the loop is run on decoded events and
    yields the data of each row.

    Conventions.
    - Unsigned C++ integers ([uint8_t] .. [uint64_t], [size_t]) are [N];
      every addition the code performs on a [uint32_t] is written with
      [wrap32].  Subtractions are only executed by the code under a guard
      that makes them exact.  [int64_t] prices are [Z].
    - [std::map<int64_t, _>] is a [gmap Z _] together with its in-order
      traversal ([begin_to_end], [rbegin_to_rend]); [std::unordered_map]
      is a [gmap]; [std::list<MboSingle>] is a [list], iterators into it
      are positions.
    - Text written to [std::cerr] is a list of [warn] values; a C++
      exception is the [Threw] outcome, which keeps the state reached at
      the [throw].
    - [Book::Cancel] reads [psIt->second] after [ordsById_.erase] has
      invalidated [psIt].  The language does not say what that read
      yields, so the model takes the record it yields as an input,
      [stale], of [Book.Cancel] and of everything that can call it. *)

From stdpp Require Import sorting strings numbers gmap list.

Open Scope Z_scope.

(** ** Enumerations *)

Module Act.
(** [enum Type : char], as a closed enumeration: values outside the
    enumerators are not modelled, so the [default:] arm of
    [Book::Apply] has no counterpart here. *)
Inductive type := Add | Cancel | Modify | Clear | Trade | Fill | None.

#[global] Instance eq_dec : EqDecision type.
Proof. solve_decision. Defined.
End Act.

Module Sd.
(** [enum Type : char], closed in the same way. *)
Inductive type := Ask | Bid | None.

#[global] Instance eq_dec : EqDecision type.
Proof. solve_decision. Defined.
End Sd.

(** ** Scalars *)

Definition UNDEFINED_PRICE : Z := -9223372036854775807.

(** Arithmetic on [uint32_t] is modulo 2^32. *)
Definition wrap32 (n : N) : N := (n mod 2 ^ 32)%N.

Definition INT_MAX : Z := 2147483647.
Definition INT_MIN : Z := -2147483648.

(** [i++] on an [int].  At [INT_MAX] the increment overflows, which the
    language leaves undefined; the model wraps there, and statements
    about row indexes are made for runs that stay below [INT_MAX]. *)
Definition int_incr (i : Z) : Z :=
  if bool_decide (i < INT_MAX) then i + 1 else INT_MIN.

(** ** Messages and price levels *)

Module MboSingle.
Record t := mk {
  tsRecv : string;
  tsEvent : string;
  rtype : N;
  pubId : N;
  instrId : N;
  action : Act.type;
  side : Sd.type;
  price : Z;
  size : N;
  chanId : N;
  orderId : N;
  flags : N;
  tsInDelta : Z;
  sequence : N;
  symbol : string
}.

(** [ord.size = sz] on an element of a level queue. *)
Definition set_size (sz : N) (m : t) : t :=
  mk (tsRecv m) (tsEvent m) (rtype m) (pubId m) (instrId m) (action m)
     (side m) (price m) sz (chanId m) (orderId m) (flags m)
     (tsInDelta m) (sequence m) (symbol m).
End MboSingle.

Module PriceLvl.
Record t := mk { price : Z; size : N; count : N }.

(** [PriceLvl{}]: the default member initialisers. *)
Definition empty : t := mk UNDEFINED_PRICE 0 0.

Definition IsEmpty (l : t) : bool := bool_decide (price l = UNDEFINED_PRICE).

#[global] Instance eq_dec : EqDecision t.
Proof. solve_decision. Defined.
End PriceLvl.

(** ** Exceptions, diagnostics, outcomes *)

Inductive exn :=
| InvalidSide                        (* invalid_argument{"Invalid side."} *)
| DupeID (id : N)                    (* invalid_argument{"Dupe ID .. for Add"} *)
| ChangedSide (id : N)               (* logic_error{"ID .. changed side."} *)
| AccessUnkLvl (s : Sd.type) (px : Z). (* invalid_argument{"Access unk lvl .."} *)

Inductive warn :=
| WarnSynthNoLvl (s : Sd.type) (px : Z) (sz : N) (* "Warn: Synth trade at non-existent lvl" *)
| WarnCancelUnkID (id : N)           (* "Warn: Cancel unk ID" *)
| IntErrNotInList (id : N)           (* "IntErr: ID .. in map but not in list." *)
| WarnCancelCap (id : N)             (* "Warn: Partial cancel > existing sz." *)
| IntErrNotInPrevList (id : N)       (* "IntErr: ID .. in map but not in prev list." *)
| ErrSynthNoInstr (instr : N)        (* "Err: Synth trade for non-existent instr" *)
| ErrSynthNoBook (instr pub : N)     (* "Err: Synth trade for non-existent book" *)
| WarnTFSideNone (id : N)            (* "Warn: T/F in TFC for ID .. Side::None." *)
| ErrSynthTrade (id : N) (e : exn).  (* "Err synth trade ID ..: what()" *)

(** The result of running a mutating member function on a state [S]:
    it returns ([Done]) or throws ([Threw]); either way the state it
    reached and the lines it wrote to [std::cerr] are kept. *)
Inductive outcome (S : Type) :=
| Done (s : S) (log : list warn)
| Threw (e : exn) (s : S) (log : list warn).
Arguments Done {S} s log.
Arguments Threw {S} e s log.

Definition state_of {S} (o : outcome S) : S :=
  match o with Done s _ | Threw _ s _ => s end.

Definition log_of {S} (o : outcome S) : list warn :=
  match o with Done _ l | Threw _ _ l => l end.

(** ** In-order traversal of a [std::map<int64_t, _>] *)

Definition key_le {A} (x y : Z * A) : Prop := x.1 ≤ y.1.

#[global] Instance key_le_dec {A} : RelDecision (@key_le A).
Proof. intros x y. unfold key_le. apply _. Defined.

(** [begin() .. end()]: ascending keys. *)
Definition begin_to_end {A} (m : gmap Z A) : list (Z * A) :=
  merge_sort key_le (map_to_list m).

(** [rbegin() .. rend()]: descending keys. *)
Definition rbegin_to_rend {A} (m : gmap Z A) : list (Z * A) :=
  reverse (begin_to_end m).

(** [lower_bound(px)] as a position in [begin_to_end]: the first element
    whose key is not less than [px]; the length of the list is [end()]. *)
Fixpoint lower_bound {A} (px : Z) (its : list (Z * A)) : nat :=
  match its with
  | [] => 0%nat
  | it :: rest => if bool_decide (it.1 < px) then S (lower_bound px rest) else 0%nat
  end.

(** ** Book *)

Module Book.
(** [LvlOrdsInQ], [PxAndSd], [OrdsById], [LvlOrds]. *)
Abbreviation LvlOrdsInQ := (list MboSingle.t).
Record PxAndSd := mkPxAndSd { price : Z; side : Sd.type }.
Abbreviation OrdsById := (gmap N PxAndSd).
Abbreviation LvlOrds := (gmap Z (list MboSingle.t)).

Record t := mk {
  ordsById_ : OrdsById;
  offers_ : LvlOrds;
  bids_ : LvlOrds
}.

(** A default-constructed [Book]. *)
Definition init : t := mk ∅ ∅ ∅.

Definition set_ordsById (ids : OrdsById) (b : t) : t :=
  mk ids (offers_ b) (bids_ b).

(** *** Private helpers *)

Definition CalcPriceLvl (px : Z) (lvl : LvlOrdsInQ) : PriceLvl.t :=
  foldl (λ res ord,
           PriceLvl.mk (PriceLvl.price res)
                       (wrap32 (PriceLvl.size res + MboSingle.size ord))
                       (wrap32 (PriceLvl.count res + 1)))
        (PriceLvl.mk px 0 0) lvl.

(** [std::find_if] over the queue: the position and the element of the
    first order with this id; [None] is [lvl.end()]. *)
Fixpoint GetLvlOrd (lvl : LvlOrdsInQ) (ordId : N) : option (nat * MboSingle.t) :=
  match lvl with
  | [] => None
  | o :: rest =>
      if bool_decide (MboSingle.orderId o = ordId) then Some (0%nat, o)
      else prod_map S id <$> GetLvlOrd rest ordId
  end.

Definition Clear (b : t) : t := mk ∅ ∅ ∅.

Definition GetSdOrds (s : Sd.type) (b : t) : exn + LvlOrds :=
  match s with
  | Sd.Ask => inr (offers_ b)
  | Sd.Bid => inr (bids_ b)
  | Sd.None => inl InvalidSide
  end.

(** Assignment through the reference that [GetSdOrds] returned. *)
Definition SetSdOrds (s : Sd.type) (lvls : LvlOrds) (b : t) : t :=
  match s with
  | Sd.Ask => mk (ordsById_ b) lvls (bids_ b)
  | Sd.Bid => mk (ordsById_ b) (offers_ b) lvls
  | Sd.None => b
  end.

Definition GetLvl (s : Sd.type) (px : Z) (b : t) : exn + LvlOrdsInQ :=
  match GetSdOrds s b with
  | inl e => inl e
  | inr lvls =>
      match lvls !! px with
      | None => inl (AccessUnkLvl s px)
      | Some lvl => inr lvl
      end
  end.

(** [GetSdOrds(s)[px]]: [operator[]] creates an empty queue when the
    key is absent, so the book is returned along with the queue. *)
Definition GetOrInsLvl (s : Sd.type) (px : Z) (b : t) : exn + (LvlOrdsInQ * t) :=
  match GetSdOrds s b with
  | inl e => inl e
  | inr lvls =>
      match lvls !! px with
      | Some lvl => inr (lvl, b)
      | None => inr ([], SetSdOrds s (<[px := []]> lvls) b)
      end
  end.

(** Assignment through a queue reference obtained from [GetLvl] or
    [GetOrInsLvl]; the level is present whenever this is used. *)
Definition SetLvl (s : Sd.type) (px : Z) (lvl : LvlOrdsInQ) (b : t) : t :=
  match GetSdOrds s b with
  | inl _ => b
  | inr lvls => SetSdOrds s (<[px := lvl]> lvls) b
  end.

Definition RemLvl (s : Sd.type) (px : Z) (b : t) : exn + t :=
  match GetSdOrds s b with
  | inl e => inl e
  | inr lvls => inr (SetSdOrds s (delete px lvls) b)
  end.

(** [if (lvl.empty()) RemLvl(s, px);] as the tail of a member function
    that has written [log] so far. *)
Definition RemLvlIfEmpty (lvl : LvlOrdsInQ) (s : Sd.type) (px : Z)
    (b : t) (log : list warn) : outcome t :=
  match lvl with
  | [] =>
      match RemLvl s px b with
      | inl e => Threw e b log
      | inr b' => Done b' log
      end
  | _ :: _ => Done b log
  end.

Definition Add (m : MboSingle.t) (b : t) : outcome t :=
  match GetOrInsLvl (MboSingle.side m) (MboSingle.price m) b with
  | inl e => Threw e b []
  | inr (lvl, b1) =>
      let b2 := SetLvl (MboSingle.side m) (MboSingle.price m) (lvl ++ [m]) b1 in
      match ordsById_ b2 !! MboSingle.orderId m with
      | Some _ => Threw (DupeID (MboSingle.orderId m)) b2 []
      | None =>
          Done (set_ordsById
                  (<[MboSingle.orderId m :=
                       mkPxAndSd (MboSingle.price m) (MboSingle.side m)]>
                     (ordsById_ b2)) b2) []
      end
  end.

(** [stale] is what [psIt->second] yields when it is read for [RemLvl]:
    by then [ordsById_.erase] has destroyed the element [psIt] points
    to.  The read happens only when the queue has become empty. *)
Definition Cancel (stale : PxAndSd) (m : MboSingle.t) (b : t) : outcome t :=
  let ordId := MboSingle.orderId m in
  match ordsById_ b !! ordId with
  | None => Done b [WarnCancelUnkID ordId]
  | Some ps =>
      match GetLvl (side ps) (price ps) b with
      | inl e => Threw e b []
      | inr lvl =>
          match GetLvlOrd lvl ordId with
          | None => Done b [IntErrNotInList ordId]
          | Some (i, ord) =>
              let '(sz, log) :=
                if bool_decide (MboSingle.size ord < MboSingle.size m)%N
                then (0%N, [WarnCancelCap ordId])
                else ((MboSingle.size ord - MboSingle.size m)%N, []) in
              let b1 := SetLvl (side ps) (price ps)
                          (<[i := MboSingle.set_size sz ord]> lvl) b in
              if bool_decide (sz = 0%N) then
                let b2 := set_ordsById (delete ordId (ordsById_ b1)) b1 in
                let lvl' := delete i lvl in
                let b3 := SetLvl (side ps) (price ps) lvl' b2 in
                RemLvlIfEmpty lvl' (side stale) (price stale) b3 log
              else Done b1 log
          end
      end
  end.

Definition Modify (m : MboSingle.t) (b : t) : outcome t :=
  let ordId := MboSingle.orderId m in
  match ordsById_ b !! ordId with
  | None => Add m b
  | Some ps =>
      if bool_decide (side ps ≠ MboSingle.side m) then
        Threw (ChangedSide ordId) b []
      else
        let prevPx := price ps in
        match GetLvl (MboSingle.side m) prevPx b with
        | inl e => Threw e b []
        | inr prevLvl =>
            match GetLvlOrd prevLvl ordId with
            | None => Done b [IntErrNotInPrevList ordId]
            | Some (i, ord) =>
                if bool_decide (prevPx ≠ MboSingle.price m) then
                  let b1 := set_ordsById
                              (<[ordId := mkPxAndSd (MboSingle.price m) (side ps)]>
                                 (ordsById_ b)) b in
                  let prevLvl' := delete i prevLvl in
                  let b2 := SetLvl (MboSingle.side m) prevPx prevLvl' b1 in
                  match RemLvlIfEmpty prevLvl' (MboSingle.side m) prevPx b2 [] with
                  | Threw e b3 log => Threw e b3 log
                  | Done b3 log =>
                      match GetOrInsLvl (MboSingle.side m) (MboSingle.price m) b3 with
                      | inl e => Threw e b3 log
                      | inr (newLvl, b4) =>
                          Done (SetLvl (MboSingle.side m) (MboSingle.price m)
                                       (newLvl ++ [m]) b4) log
                      end
                  end
                else if bool_decide (MboSingle.size ord < MboSingle.size m)%N then
                  Done (SetLvl (MboSingle.side m) prevPx
                               (delete i prevLvl ++ [m]) b) []
                else
                  Done (SetLvl (MboSingle.side m) prevPx
                               (<[i := MboSingle.set_size (MboSingle.size m) ord]> prevLvl)
                               b) []
            end
        end
  end.

(** *** Public interface *)

Definition GetBidLvl (idx : nat) (b : t) : PriceLvl.t :=
  if bool_decide (idx < size (bids_ b))%nat then
    from_option (λ it, CalcPriceLvl it.1 it.2) PriceLvl.empty
                (rbegin_to_rend (bids_ b) !! idx)
  else PriceLvl.empty.

Definition GetAskLvl (idx : nat) (b : t) : PriceLvl.t :=
  if bool_decide (idx < size (offers_ b))%nat then
    from_option (λ it, CalcPriceLvl it.1 it.2) PriceLvl.empty
                (begin_to_end (offers_ b) !! idx)
  else PriceLvl.empty.

Definition Bbo (b : t) : PriceLvl.t * PriceLvl.t :=
  (GetBidLvl 0 b, GetAskLvl 0 b).

Definition GetBidLvls (numLvls : nat) (b : t) : list PriceLvl.t :=
  (λ it, CalcPriceLvl it.1 it.2) <$> take numLvls (rbegin_to_rend (bids_ b)).

Definition GetAskLvls (numLvls : nat) (b : t) : list PriceLvl.t :=
  (λ it, CalcPriceLvl it.1 it.2) <$> take numLvls (begin_to_end (offers_ b)).

(** The loop of [GetBidLevelDepth] from the iterator position [its]
    with the counter at [depth]. *)
Fixpoint bid_depth_loop (px : Z) (depth : N) (its : list (Z * LvlOrdsInQ)) : N :=
  match its with
  | [] => 0%N
  | it :: rest =>
      if bool_decide (it.1 = px) then depth
      else if bool_decide (it.1 < px) then 0%N
      else bid_depth_loop px (wrap32 (depth + 1)) rest
  end.

Definition GetBidLevelDepth (px : Z) (b : t) : N :=
  bid_depth_loop px 0 (rbegin_to_rend (bids_ b)).

(** [std::distance(offers_.begin(), it)] is converted to [uint32_t]. *)
Definition GetAskLevelDepth (px : Z) (b : t) : N :=
  let its := begin_to_end (offers_ b) in
  let it := lower_bound px its in
  match its !! it with
  | None => 0%N
  | Some (k, _) =>
      if bool_decide (k ≠ px) then 0%N else wrap32 (N.of_nat it)
  end.

Definition Apply (stale : PxAndSd) (m : MboSingle.t) (b : t) : outcome t :=
  match MboSingle.action m with
  | Act.Clear => Done (Clear b) []
  | Act.Add => Add m b
  | Act.Cancel => Cancel stale m b
  | Act.Modify => Modify m b
  | Act.Trade | Act.Fill | Act.None => Done b []
  end.

(** The [while] loop of [ProcSynthTrade]: [curOrd] is always the head
    of what is left of the queue, [remSz] the size still to consume. *)
Fixpoint synth_loop (ords : LvlOrdsInQ) (remSz : N) (ids : OrdsById)
    : LvlOrdsInQ * OrdsById :=
  match ords with
  | [] => ([], ids)
  | curOrd :: rest =>
      if bool_decide (0 < remSz)%N then
        if bool_decide (MboSingle.size curOrd ≤ remSz)%N then
          synth_loop rest (remSz - MboSingle.size curOrd)
                     (delete (MboSingle.orderId curOrd) ids)
        else
          (MboSingle.set_size (MboSingle.size curOrd - remSz) curOrd :: rest, ids)
      else (ords, ids)
  end.

Definition ProcSynthTrade (px : Z) (sz : N) (sideAff : Sd.type) (b : t) : outcome t :=
  match GetSdOrds sideAff b with
  | inl e => Threw e b []
  | inr affLvls =>
      match affLvls !! px with
      | None => Done b [WarnSynthNoLvl sideAff px sz]
      | Some ordsAtLvl =>
          let '(ords', ids') := synth_loop ordsAtLvl sz (ordsById_ b) in
          let b1 := SetLvl sideAff px ords' (set_ordsById ids' b) in
          RemLvlIfEmpty ords' sideAff px b1 []
      end
  end.
End Book.

(** ** Market *)

Module Market.
Record t := mk { books_ : gmap N (gmap N Book.t) }.

Definition init : t := mk ∅.

(** [agg[px].field = ...]: [operator[]] default-constructs the entry
    when the price is new, then the field is updated in place. *)
Definition upd_at (px : Z) (f : PriceLvl.t → PriceLvl.t)
    (agg : gmap Z PriceLvl.t) : gmap Z PriceLvl.t :=
  <[px := f (default PriceLvl.empty (agg !! px))]> agg.

(** The body of the inner [for] loop of [GetAggBidLvls] and
    [GetAggAskLvls]. *)
Definition agg_lvl (agg : gmap Z PriceLvl.t) (lvl : PriceLvl.t) : gmap Z PriceLvl.t :=
  if PriceLvl.IsEmpty lvl then agg
  else
    let px := PriceLvl.price lvl in
    let agg1 :=
      upd_at px (λ a, PriceLvl.mk (PriceLvl.price a)
                        (wrap32 (PriceLvl.size a + PriceLvl.size lvl))
                        (PriceLvl.count a)) agg in
    let agg2 :=
      upd_at px (λ a, PriceLvl.mk (PriceLvl.price a) (PriceLvl.size a)
                        (wrap32 (PriceLvl.count a + PriceLvl.count lvl))) agg1 in
    upd_at px (λ a, PriceLvl.mk px (PriceLvl.size a) (PriceLvl.count a)) agg2.

(** The outer [for] loop: the publishers of one instrument, in the
    order the container enumerates them. *)
Definition agg_books (lvls_of : Book.t → list PriceLvl.t)
    (pubs : list (N * Book.t)) : gmap Z PriceLvl.t :=
  foldl (λ agg pair, foldl agg_lvl agg (lvls_of pair.2)) ∅ pubs.

Definition GetAggBidLvls (instrId : N) (numLvls : nat) (mk : t) : list PriceLvl.t :=
  let aggBids :=
    match books_ mk !! instrId with
    | Some pubs => agg_books (Book.GetBidLvls numLvls) (map_to_list pubs)
    | None => ∅
    end in
  snd <$> take numLvls (rbegin_to_rend aggBids).

Definition GetAggAskLvls (instrId : N) (numLvls : nat) (mk : t) : list PriceLvl.t :=
  let aggAsks :=
    match books_ mk !! instrId with
    | Some pubs => agg_books (Book.GetAskLvls numLvls) (map_to_list pubs)
    | None => ∅
    end in
  snd <$> take numLvls (begin_to_end aggAsks).

Definition GetLevelDepth (instrId pubId : N) (price : Z) (side : Sd.type) (mk : t) : N :=
  match books_ mk !! instrId with
  | None => 0%N
  | Some pubs =>
      match pubs !! pubId with
      | Some book =>
          match side with
          | Sd.Bid => Book.GetBidLevelDepth price book
          | Sd.Ask => Book.GetAskLevelDepth price book
          | Sd.None => 0%N
          end
      | None => 0%N
      end
  end.

(** Assignment through [books_[instrId][pubId]]. *)
Definition set_book (instrId pubId : N) (book : Book.t) (mk : t) : t :=
  Market.mk (<[instrId := <[pubId := book]> (default ∅ (books_ mk !! instrId))]>
               (books_ mk)).

(** [books_[m.instrId][m.pubId].Apply(m)]: both [operator[]] calls
    create what is missing before [Book::Apply] runs. *)
Definition Apply (stale : Book.PxAndSd) (m : MboSingle.t) (mk : t) : outcome t :=
  let instrId := MboSingle.instrId m in
  let pubId := MboSingle.pubId m in
  let book := default Book.init (default ∅ (books_ mk !! instrId) !! pubId) in
  match Book.Apply stale m book with
  | Done book' log => Done (set_book instrId pubId book' mk) log
  | Threw e book' log => Threw e (set_book instrId pubId book' mk) log
  end.

Definition ProcSynthTrade (instrId pubId : N) (px : Z) (sz : N)
    (sideAff : Sd.type) (mk : t) : outcome t :=
  match books_ mk !! instrId with
  | None => Done mk [ErrSynthNoInstr instrId]
  | Some pubs =>
      match pubs !! pubId with
      | None => Done mk [ErrSynthNoBook instrId pubId]
      | Some book =>
          match Book.ProcSynthTrade px sz sideAff book with
          | Done book' log => Done (set_book instrId pubId book' mk) log
          | Threw e book' log => Threw e (set_book instrId pubId book' mk) log
          end
      end
  end.
End Market.

(** ** The driver loop of [main] *)

Module Main.
(** What [WriteMbpRow] is handed for one output row. *)
Record row := mkRow {
  rIdx : Z;
  mi : MboSingle.t;
  depth_val : N;
  bl : list PriceLvl.t;
  al : list PriceLvl.t
}.

(** The locals of [main] that live across iterations; [mbpOs] is the
    sequence of rows written so far.  [mbpRowIdx] is an [int]. *)
Record state := mkState {
  market : Market.t;
  pendingTFs : gmap N MboSingle.t;
  mbpRowIdx : Z;
  mbpOs : list row
}.

Definition init : state := mkState Market.init ∅ 0 [].

(** The tail of the loop body: aggregate the top ten levels of the
    event's instrument and write the row. *)
Definition write_row (m : MboSingle.t) (current_depth : N)
    (mk : Market.t) (pend : gmap N MboSingle.t) (st : state) : state :=
  let bl := Market.GetAggBidLvls (MboSingle.instrId m) 10 mk in
  let al := Market.GetAggAskLvls (MboSingle.instrId m) 10 mk in
  mkState mk pend (int_incr (mbpRowIdx st))
          (mbpOs st ++ [mkRow (mbpRowIdx st) m current_depth bl al]).

(** One iteration of [while (std::getline(mboIs, line))] on the decoded
    event [m].  [Threw] is an exception that leaves [main].  [stale] is
    the read a [Book::Cancel] of this iteration makes through its
    erased iterator. *)
Definition loop_body (stale : Book.PxAndSd) (m : MboSingle.t) (st : state)
    : outcome state :=
  let mk := market st in
  let pend := pendingTFs st in
  if bool_decide (MboSingle.action m = Act.Trade ∧ MboSingle.side m = Sd.None) then
    Done (write_row m 0 mk pend st) []
  else if bool_decide (MboSingle.action m = Act.Trade ∨ MboSingle.action m = Act.Fill) then
    Done (write_row m 0 mk (<[MboSingle.orderId m := m]> pend) st) []
  else if bool_decide (MboSingle.action m = Act.Cancel) then
    match pend !! MboSingle.orderId m with
    | Some origTFM =>
        let pend' := delete (MboSingle.orderId m) pend in
        let synth sideAff :=
          let '(mk', log) :=
            match Market.ProcSynthTrade (MboSingle.instrId m) (MboSingle.pubId m)
                    (MboSingle.price origTFM) (MboSingle.size origTFM) sideAff mk with
            | Done mk' log => (mk', log)
            | Threw e mk' log => (mk', log ++ [ErrSynthTrade (MboSingle.orderId m) e])
            end in
          let current_depth :=
            Market.GetLevelDepth (MboSingle.instrId m) (MboSingle.pubId m)
              (MboSingle.price origTFM) sideAff mk' in
          Done (write_row m current_depth mk' pend' st) log in
        match MboSingle.side origTFM with
        | Sd.Ask => synth Sd.Bid
        | Sd.Bid => synth Sd.Ask
        | Sd.None =>
            Done (write_row m 0 mk pend' st) [WarnTFSideNone (MboSingle.orderId m)]
        end
    | None =>
        match Market.Apply stale m mk with
        | Threw e mk' log => Threw e (mkState mk' pend (mbpRowIdx st) (mbpOs st)) log
        | Done mk' log =>
            let current_depth :=
              Market.GetLevelDepth (MboSingle.instrId m) (MboSingle.pubId m)
                (MboSingle.price m) (MboSingle.side m) mk' in
            Done (write_row m current_depth mk' pend st) log
        end
    end
  else
    match Market.Apply stale m mk with
    | Threw e mk' log => Threw e (mkState mk' pend (mbpRowIdx st) (mbpOs st)) log
    | Done mk' log =>
        let current_depth :=
          if bool_decide (MboSingle.action m = Act.Add ∨ MboSingle.action m = Act.Modify)
          then Market.GetLevelDepth (MboSingle.instrId m) (MboSingle.pubId m)
                 (MboSingle.price m) (MboSingle.side m) mk'
          else 0%N in
        Done (write_row m current_depth mk' pend st) log
    end.

(** The whole loop over the decoded input; it stops at the first
    exception, which nothing in [main] catches.  [stale k] is the read
    of iteration [k], counted from the current one. *)
Fixpoint loop (stale : nat → Book.PxAndSd) (ms : list MboSingle.t) (st : state)
    : outcome state :=
  match ms with
  | [] => Done st []
  | m :: rest =>
      match loop_body (stale 0%nat) m st with
      | Threw e st' log => Threw e st' log
      | Done st' log =>
          match loop (λ k, stale (S k)) rest st' with
          | Done st'' log' => Done st'' (log ++ log')
          | Threw e st'' log' => Threw e st'' (log ++ log')
          end
      end
  end.
End Main.

(** * Vocabulary of the statements *)

(** ** Sides, queues and levels *)

(** The price map of one side; [Sd.None] names no side. *)
Definition lvls (s : Sd.type) (b : Book.t) : gmap Z (list MboSingle.t) :=
  match s with
  | Sd.Ask => Book.offers_ b
  | Sd.Bid => Book.bids_ b
  | Sd.None => ∅
  end.

Definition ids_of (q : list MboSingle.t) : list N := MboSingle.orderId <$> q.

(** The sum of the sizes of the orders in a queue, as a number. *)
Definition total_size (q : list MboSingle.t) : N :=
  foldr (λ o acc, MboSingle.size o + acc)%N 0%N q.

(** The price map after the queue at [px] has become [q]: an empty
    queue takes the level away. *)
Definition put_level (px : Z) (q : list MboSingle.t)
    (L : gmap Z (list MboSingle.t)) : gmap Z (list MboSingle.t) :=
  match q with [] => delete px L | _ :: _ => <[px := q]> L end.

(** The prices of one side of a book in best-first order: the order in
    which the code walks the side. *)
Definition bid_prices (b : Book.t) : list Z := (rbegin_to_rend (Book.bids_ b)).*1.
Definition ask_prices (b : Book.t) : list Z := (begin_to_end (Book.offers_ b)).*1.

(** ** Consistency of a book *)

(** The consistency of the id index with the level queues:
    every indexed id has an entry in the queue the index names; every
    queued entry is indexed under the side and price of its queue; no
    queue holds an id twice; no level is empty. *)
Record Inv (b : Book.t) : Prop := {
  inv_indexed : ∀ id ps, Book.ordsById_ b !! id = Some ps →
    ∃ q, lvls (Book.side ps) b !! Book.price ps = Some q ∧ id ∈ ids_of q;
  inv_queued : ∀ s px q id, lvls s b !! px = Some q → id ∈ ids_of q →
    Book.ordsById_ b !! id = Some (Book.mkPxAndSd px s);
  inv_nodup : ∀ s px q, lvls s b !! px = Some q → NoDup (ids_of q);
  inv_nonempty : ∀ s px, lvls s b !! px ≠ Some []
}.

(** The part of it that holds whatever a [Cancel] reads through its
    erased iterator: every queued entry is indexed under the side and
    price of its queue, and no queue holds an id twice.  A level may be
    empty, and an indexed id may have lost its level. *)
Record Tracked (b : Book.t) : Prop := {
  trk_queued : ∀ s px q id, lvls s b !! px = Some q → id ∈ ids_of q →
    Book.ordsById_ b !! id = Some (Book.mkPxAndSd px s);
  trk_nodup : ∀ s px q, lvls s b !! px = Some q → NoDup (ids_of q)
}.


(** ** Mutations *)

(** The mutations a book receives: an event through [Apply], together
    with what a [Cancel] reads through its erased iterator, or a
    synthetic trade. *)
Inductive mutation :=
| MEvent (stale : Book.PxAndSd) (m : MboSingle.t)
| MSynth (px : Z) (sz : N) (sideAff : Sd.type).

Definition mutate (mu : mutation) (b : Book.t) : outcome Book.t :=
  match mu with
  | MEvent stale m => Book.Apply stale m b
  | MSynth px sz sideAff => Book.ProcSynthTrade px sz sideAff b
  end.

(** A sequence of mutations, up to the first exception. *)
Fixpoint mutate_all (mus : list mutation) (b : Book.t) : outcome Book.t :=
  match mus with
  | [] => Done b []
  | mu :: rest =>
      match mutate mu b with
      | Threw e b' log => Threw e b' log
      | Done b' log =>
          match mutate_all rest b' with
          | Done b'' log' => Done b'' (log ++ log')
          | Threw e b'' log' => Threw e b'' (log ++ log')
          end
      end
  end.

(** The read a [Cancel] makes through its erased iterator yields the
    record that was erased. *)
Definition reads_back (mu : mutation) (b : Book.t) : Prop :=
  match mu with
  | MEvent stale m =>
      MboSingle.action m = Act.Cancel →
      ∀ ps, Book.ordsById_ b !! MboSingle.orderId m = Some ps → stale = ps
  | MSynth _ _ _ => True
  end.


(** The shape of a mutation that changes one level and nothing else:
    the queue at [(s, px)] goes from [q] (empty when the level is
    absent) to [q'] (the level is absent afterwards when [q'] is
    empty), ids that are new at the level were not indexed, and the
    index records exactly this change.  Every mutation has this shape,
    except a [Cancel] that empties a level and reads something else
    than the record it erased. *)
Record level_change (b b' : Book.t) (s : Sd.type) (px : Z) (q' : list MboSingle.t) : Prop := {
  lc_side : s ≠ Sd.None;
  lc_frame : ∀ s' px', (s', px') ≠ (s, px) → lvls s' b' !! px' = lvls s' b !! px';
  lc_level : lvls s b' !! px = (match q' with [] => None | _ => Some q' end);
  lc_nodup : NoDup (ids_of q');
  lc_fresh : ∀ id, id ∈ ids_of q' →
    id ∈ ids_of (default [] (lvls s b !! px)) ∨ Book.ordsById_ b !! id = None;
  lc_index : ∀ id, Book.ordsById_ b' !! id =
    if decide (id ∈ ids_of q') then Some (Book.mkPxAndSd px s)
    else if decide (id ∈ ids_of (default [] (lvls s b !! px))) then None
    else Book.ordsById_ b !! id
}.

(** ** Aggregation across publishers *)

(** The price-level view of the level at price [p] of a price map: the
    sum of the queued sizes and the number of queued orders, each as a
    [uint32_t]. *)
Definition level_view (L : gmap Z (list MboSingle.t)) (p : Z) : PriceLvl.t :=
  PriceLvl.mk p (wrap32 (total_size (default [] (L !! p))))
                (wrap32 (N.of_nat (length (default [] (L !! p))))).

(** The levels the publishers of one instrument hand to the aggregation:
    for each book of the instrument, in the order the container lists
    them, what [lvls_of] returns for it. *)
Definition levels_of_instrument (lvls_of : Book.t → list PriceLvl.t)
    (instrId : N) (mk : Market.t) : list PriceLvl.t :=
  concat ((λ pair : N * Book.t, lvls_of pair.2) <$>
            map_to_list (default ∅ (Market.books_ mk !! instrId))).

(** Those of them whose price is not the undefined price. *)
Definition contributions (lvls_of : Book.t → list PriceLvl.t)
    (instrId : N) (mk : Market.t) : list PriceLvl.t :=
  filter (λ l, PriceLvl.price l ≠ UNDEFINED_PRICE)
         (levels_of_instrument lvls_of instrId mk).

(** The sum of a field over the levels at price [p], as a number. *)
Definition sum_at (f : PriceLvl.t → N) (p : Z) (ls : list PriceLvl.t) : N :=
  foldr (λ l acc, if decide (PriceLvl.price l = p) then f l + acc else acc)%N 0%N ls.

(** What the aggregate map holds at price [p] once the levels [ls] have
    gone through the loop body: nothing when no level with a defined
    price sits at [p], else the sums of the sizes and of the counts at
    [p], each modulo 2^32. *)
Definition agg_of (ls : list PriceLvl.t) (p : Z) : option PriceLvl.t :=
  let cs := filter (λ l, PriceLvl.price l ≠ UNDEFINED_PRICE) ls in
  if decide (p ∈ PriceLvl.price <$> cs)
  then Some (PriceLvl.mk p (wrap32 (sum_at PriceLvl.size p cs))
                           (wrap32 (sum_at PriceLvl.count p cs)))
  else None.

(** [agg] aggregates the contributions [cs]: its prices are the prices
    that occur in [cs], and each of its levels carries the sum of the
    sizes and the sum of the counts contributed at its price, modulo
    2^32. *)
Definition aggregates (agg cs : list PriceLvl.t) : Prop :=
  (∀ p, p ∈ PriceLvl.price <$> agg ↔ p ∈ PriceLvl.price <$> cs) ∧
  (∀ l, l ∈ agg →
     PriceLvl.size l = wrap32 (sum_at PriceLvl.size (PriceLvl.price l) cs) ∧
     PriceLvl.count l = wrap32 (sum_at PriceLvl.count (PriceLvl.price l) cs)).

(** The aggregation in the words of its description: take the levels of
    every publisher, and for every distinct price encountered sum the
    sizes and the order counts; list the best [n] prices, best first. *)
Definition described_agg (ps : list Z) (all : list PriceLvl.t) : list PriceLvl.t :=
  (λ p, PriceLvl.mk p (sum_at PriceLvl.size p all) (sum_at PriceLvl.count p all)) <$> ps.

Definition described_agg_bid_levels (instrId : N) (n : nat) (mk : Market.t)
    : list PriceLvl.t :=
  let all := levels_of_instrument (Book.GetBidLvls n) instrId mk in
  take n (described_agg (reverse (merge_sort Z.le (remove_dups (PriceLvl.price <$> all)))) all).

Definition described_agg_ask_levels (instrId : N) (n : nat) (mk : Market.t)
    : list PriceLvl.t :=
  let all := levels_of_instrument (Book.GetAskLvls n) instrId mk in
  take n (described_agg (merge_sort Z.le (remove_dups (PriceLvl.price <$> all))) all).

(** ** The driver *)

(** The book [books_[m.instrId][m.pubId]] that [Market::Apply] routes an
    event to; it is a fresh book when the market has none there yet. *)
Definition target_book (m : MboSingle.t) (mk : Market.t) : Book.t :=
  default Book.init
    (default ∅ (Market.books_ mk !! MboSingle.instrId m) !! MboSingle.pubId m).

(** The side a trade reported on side [s] takes liquidity from. *)
Definition opposite (s : Sd.type) : Sd.type :=
  match s with Sd.Ask => Sd.Bid | Sd.Bid => Sd.Ask | Sd.None => Sd.None end.

(** ** Example data *)

(** A record that no order of the examples has: a read through the
    erased iterator that finds other data there. *)
Definition other_data : Book.PxAndSd := Book.mkPxAndSd 0 Sd.None.

(** The events used in examples: only the fields the engine reads vary. *)
Definition ev (a : Act.type) (s : Sd.type) (px : Z) (sz id : N) : MboSingle.t :=
  MboSingle.mk "" "" 160 1 42 a s px sz 0 id 0 0 0 "".

(** Example events of publisher [pub]. *)
Definition ev_from (pub : N) (a : Act.type) (s : Sd.type) (px : Z) (sz id : N)
    : MboSingle.t :=
  MboSingle.mk "" "" 160 pub 42 a s px sz 0 id 0 0 0 "".

(** A small book with three bid levels and two ask levels. *)
Definition book_3x2 : Book.t :=
  Book.mk (list_to_map [(1%N, Book.mkPxAndSd 99 Sd.Bid); (2%N, Book.mkPxAndSd 98 Sd.Bid);
                        (3%N, Book.mkPxAndSd 97 Sd.Bid); (4%N, Book.mkPxAndSd 101 Sd.Ask);
                        (5%N, Book.mkPxAndSd 102 Sd.Ask)])
          (list_to_map [(101, [ev Act.Add Sd.Ask 101 7 4]); (102, [ev Act.Add Sd.Ask 102 1 5])])
          (list_to_map [(99, [ev Act.Add Sd.Bid 99 4 1]); (98, [ev Act.Add Sd.Bid 98 2 2]);
                        (97, [ev Act.Add Sd.Bid 97 3 3])]).

(** A book with a bid level at each of the 2^32 + 1 prices 0 .. 2^32:
    one order of size 1 at each, its id the price. *)
Definition many_levels : list (Z * list MboSingle.t) :=
  (λ k, (k, [ev Act.Add Sd.Bid k 1 (Z.to_N k)])) <$> seqZ 0 (2 ^ 32 + 1).

Definition book_many_bids : Book.t :=
  Book.mk (list_to_map ((λ k, (Z.to_N k, Book.mkPxAndSd k Sd.Bid)) <$> seqZ 0 (2 ^ 32 + 1)))
          ∅ (list_to_map many_levels).

(** A bid of size 5 and an ask of size 3 added to the empty book. *)
Definition book_two : Book.t :=
  state_of (mutate_all [MEvent other_data (ev Act.Add Sd.Bid 100 5 1);
                        MEvent other_data (ev Act.Add Sd.Ask 101 3 2)] Book.init).

(** Two bids at different prices added to the empty book. *)
Definition book_two_bids : Book.t :=
  state_of (mutate_all [MEvent other_data (ev Act.Add Sd.Bid 100 5 1);
                        MEvent other_data (ev Act.Add Sd.Bid 99 3 2)] Book.init).

(** Three bids queued at one price, in the order of their ids. *)
Definition book_queue3 : Book.t :=
  state_of (mutate_all [MEvent other_data (ev Act.Add Sd.Bid 100 5 1);
                        MEvent other_data (ev Act.Add Sd.Bid 100 6 2);
                        MEvent other_data (ev Act.Add Sd.Bid 100 7 3)] Book.init).

(** A driver state: one resting bid, and a pending Trade on the ask side
    for order id 77. *)
Definition state_pending : Main.state :=
  state_of (Main.loop (λ _, other_data)
              [ev Act.Add Sd.Bid 995 4 10; ev Act.Trade Sd.Ask 995 4 77] Main.init).

(** A market whose only order is an ask without a price. *)
Definition market_undefined_ask : Market.t :=
  state_of (Market.Apply other_data (ev Act.Add Sd.Ask UNDEFINED_PRICE 1 1) Market.init).

(** A market in which two publishers each hold a bid of 2^31 at one
    price. *)
Definition market_two_large_bids : Market.t :=
  state_of (Market.Apply other_data (ev_from 2 Act.Add Sd.Bid 100 (2 ^ 31) 2)
              (state_of (Market.Apply other_data (ev_from 1 Act.Add Sd.Bid 100 (2 ^ 31) 1)
                           Market.init))).

(** ** Books of a market, pending events *)

(** The book of a market for an instrument and a publisher, when it
    has one. *)
Definition book_at (instrId pubId : N) (mk : Market.t) : option Book.t :=
  Market.books_ mk !! instrId ≫= (λ pubs, pubs !! pubId).

(** In every book of the market the queued entries are indexed under
    their queue and no queue holds an id twice. *)
Definition books_tracked (mk : Market.t) : Prop :=
  ∀ instrId pubId b, book_at instrId pubId mk = Some b → Tracked b.

(** Every pending event is a Trade or a Fill, stored under its own
    order id, and is not a Trade without a side. *)
Definition pend_ok (pend : gmap N MboSingle.t) : Prop :=
  ∀ id e, pend !! id = Some e →
    MboSingle.orderId e = id ∧
    (MboSingle.action e = Act.Trade ∨ MboSingle.action e = Act.Fill) ∧
    ¬ (MboSingle.action e = Act.Trade ∧ MboSingle.side e = Sd.None).

(** A driver state with a pending Fill that has no side. *)
Definition state_pending_none : Main.state :=
  state_of (Main.loop (λ _, other_data)
              [ev Act.Add Sd.Bid 995 4 10; ev Act.Fill Sd.None 995 4 77] Main.init).

(** * Properties *)

(** ** The in-order traversal *)

Section traversal.
Context {A : Type}.
Implicit Types (m : gmap Z A) (its : list (Z * A)).

#[local] Instance key_le_total : Total (@key_le A).
Proof. intros x y. unfold key_le. lia. Qed.

#[local] Instance key_le_trans : Transitive (@key_le A).
Proof. intros x y z. unfold key_le. lia. Qed.

Lemma begin_to_end_perm m : begin_to_end m ≡ₚ map_to_list m.
Proof. apply merge_sort_Permutation. Qed.

Lemma elem_of_begin_to_end m k v : (k, v) ∈ begin_to_end m ↔ m !! k = Some v.
Proof. rewrite begin_to_end_perm. apply elem_of_map_to_list. Qed.

Lemma elem_of_rbegin_to_rend m k v : (k, v) ∈ rbegin_to_rend m ↔ m !! k = Some v.
Proof. unfold rbegin_to_rend. rewrite elem_of_reverse. apply elem_of_begin_to_end. Qed.

Lemma begin_to_end_length m : length (begin_to_end m) = size m.
Proof. rewrite begin_to_end_perm. apply length_map_to_list. Qed.

Lemma begin_to_end_keys_NoDup m : NoDup (begin_to_end m).*1.
Proof. rewrite begin_to_end_perm. apply NoDup_fst_map_to_list. Qed.

(** A list sorted by [≤] on keys that has no repeated key is strictly
    ascending. *)
Lemma sorted_le_NoDup_lt its :
  StronglySorted key_le its → NoDup its.*1 →
  StronglySorted Z.lt its.*1.
Proof.
  induction 1 as [|it its Hs IH Hall]; intros Hnd.
  - constructor.
  - rewrite fmap_cons in Hnd |- *.
    apply list.NoDup_cons in Hnd as [Hnotin Hnd].
    constructor; [by apply IH|].
    apply Forall_fmap, list.Forall_forall. intros it' Hin.
    rewrite list.Forall_forall in Hall. specialize (Hall _ Hin).
    unfold key_le in Hall. unfold compose.
    assert (it.1 ≠ it'.1); [|lia].
    intros Heq. apply Hnotin. rewrite Heq.
    apply list_elem_of_fmap. by exists it'.
Qed.

Lemma begin_to_end_sorted m : StronglySorted Z.lt (begin_to_end m).*1.
Proof.
  apply sorted_le_NoDup_lt.
  - apply (StronglySorted_merge_sort _).
  - apply begin_to_end_keys_NoDup.
Qed.

Lemma StronglySorted_reverse_lt (l : list Z) :
  StronglySorted Z.lt l → StronglySorted Z.gt (reverse l).
Proof.
  induction 1 as [|x l Hs IH Hall]; [constructor|].
  rewrite reverse_cons. apply StronglySorted_app_2; [|done|repeat constructor].
  intros y z Hy Hz. rewrite elem_of_reverse in Hy. rewrite list_elem_of_singleton in Hz.
  subst z. rewrite list.Forall_forall in Hall. specialize (Hall _ Hy). lia.
Qed.

Lemma rbegin_to_rend_sorted m : StronglySorted Z.gt (rbegin_to_rend m).*1.
Proof.
  unfold rbegin_to_rend. rewrite fmap_reverse.
  apply StronglySorted_reverse_lt, begin_to_end_sorted.
Qed.

Lemma elem_of_begin_to_end_keys m k : k ∈ (begin_to_end m).*1 ↔ is_Some (m !! k).
Proof.
  rewrite list_elem_of_fmap. split.
  - intros [[k' v] [-> Hin]]. apply elem_of_begin_to_end in Hin. by eexists.
  - intros [v Hv]. exists (k, v). split; [done|]. by apply elem_of_begin_to_end.
Qed.

Lemma elem_of_rbegin_to_rend_keys m k : k ∈ (rbegin_to_rend m).*1 ↔ is_Some (m !! k).
Proof.
  unfold rbegin_to_rend. rewrite fmap_reverse, elem_of_reverse.
  apply elem_of_begin_to_end_keys.
Qed.
End traversal.

(** ** Depth queries *)

Lemma wrap32_small n : (n < 2 ^ 32)%N → wrap32 n = n.
Proof. intros. unfold wrap32. by apply N.mod_small. Qed.

Lemma wrap32_add_l a b : wrap32 (wrap32 a + b) = wrap32 (a + b).
Proof. unfold wrap32. apply N.Div0.add_mod_idemp_l. Qed.

(** The counter of [GetBidLevelDepth] is the position modulo 2^32. *)
Lemma bid_depth_loop_found px d (its : list (Z * list MboSingle.t)) i :
  StronglySorted Z.gt its.*1 → its.*1 !! i = Some px →
  Book.bid_depth_loop px (wrap32 d) its = wrap32 (d + N.of_nat i).
Proof.
  revert d i. induction its as [|it its IH]; intros d i Hs Hi; [done|].
  rewrite fmap_cons in Hs, Hi. apply StronglySorted_inv in Hs as [Hs Hall].
  destruct i as [|i]; simpl in *.
  - simplify_eq. rewrite bool_decide_eq_true_2 by done. by rewrite N.add_0_r.
  - assert (it.1 > px).
    { rewrite list.Forall_forall in Hall. apply Hall. by eapply list_elem_of_lookup_2. }
    rewrite bool_decide_eq_false_2 by lia. rewrite bool_decide_eq_false_2 by lia.
    rewrite wrap32_add_l, (IH _ i) by done. f_equal. lia.
Qed.

Lemma bid_depth_loop_absent px d (its : list (Z * list MboSingle.t)) :
  px ∉ its.*1 → Book.bid_depth_loop px d its = 0%N.
Proof.
  revert d. induction its as [|it its IH]; intros d Hpx; [done|].
  rewrite fmap_cons, not_elem_of_cons in Hpx. destruct Hpx as [Hne Hpx]. simpl.
  rewrite bool_decide_eq_false_2 by done. case_bool_decide; [done|]. by apply IH.
Qed.

Lemma lower_bound_found {A} px (its : list (Z * A)) i :
  StronglySorted Z.lt its.*1 → its.*1 !! i = Some px → lower_bound px its = i.
Proof.
  revert i. induction its as [|it its IH]; intros i Hs Hi; [done|].
  rewrite fmap_cons in Hs, Hi. apply StronglySorted_inv in Hs as [Hs Hall].
  destruct i as [|i]; simpl in *.
  - simplify_eq. by rewrite bool_decide_eq_false_2 by lia.
  - assert (it.1 < px).
    { rewrite list.Forall_forall in Hall. apply Hall. by eapply list_elem_of_lookup_2. }
    rewrite bool_decide_eq_true_2 by done. f_equal. by apply IH.
Qed.

Lemma GetAskLevelDepth_absent px b :
  Book.offers_ b !! px = None → Book.GetAskLevelDepth px b = 0%N.
Proof.
  intros Hnone. unfold Book.GetAskLevelDepth.
  destruct (begin_to_end (Book.offers_ b) !! _) as [[k q]|] eqn:Hit; [|done].
  apply list_elem_of_lookup_2, elem_of_begin_to_end in Hit.
  rewrite bool_decide_eq_true_2; [done|]. congruence.
Qed.

(** Without a bound on the number of levels, the depth of a price that
    has a level is its best-first position modulo 2^32. *)
Lemma depth_modulo (b : Book.t) (px : Z) (i : nat) :
  (bid_prices b !! i = Some px → Book.GetBidLevelDepth px b = wrap32 (N.of_nat i)) ∧
  (ask_prices b !! i = Some px → Book.GetAskLevelDepth px b = wrap32 (N.of_nat i)).
Proof.
  split; intros Hi.
  - unfold Book.GetBidLevelDepth. change 0%N with (wrap32 0) at 1.
    by rewrite (bid_depth_loop_found px 0 _ i); [|apply rbegin_to_rend_sorted|].
  - unfold Book.GetAskLevelDepth.
    rewrite (lower_bound_found px _ i); [|apply begin_to_end_sorted|done].
    unfold ask_prices in Hi. rewrite list_lookup_fmap in Hi.
    destruct (begin_to_end (Book.offers_ b) !! i) as [[k q]|]; simplify_eq/=.
    by rewrite bool_decide_eq_false_2 by (by intros ?).
Qed.

Lemma many_levels_keys : many_levels.*1 = seqZ 0 (2 ^ 32 + 1).
Proof.
  unfold many_levels. rewrite <-list_fmap_compose. apply list_fmap_id.
Qed.

Lemma sorted_gt_after (l : list Z) i j x y :
  StronglySorted Z.gt l → l !! i = Some x → l !! j = Some y → (i < j)%nat → y < x.
Proof.
  intros Hs Hi Hj Hlt. rewrite <-(take_drop_middle l i x Hi) in Hs, Hj.
  apply StronglySorted_app_1_r, StronglySorted_inv in Hs as [_ Hall].
  rewrite lookup_app_r in Hj by (rewrite length_take; lia).
  rewrite length_take_le in Hj by (apply lookup_lt_Some in Hi; lia).
  destruct (j - i)%nat as [|d] eqn:Hd; [lia|]. simpl in Hj.
  rewrite list.Forall_forall in Hall. apply list_elem_of_lookup_2, Hall in Hj. lia.
Qed.

Lemma book_many_bids_prices k :
  k ∈ bid_prices book_many_bids ↔ 0 ≤ k < 2 ^ 32 + 1.
Proof.
  unfold bid_prices. rewrite elem_of_rbegin_to_rend_keys.
  unfold book_many_bids. cbn [Book.bids_].
  rewrite <-elem_of_dom, dom_list_to_map_L, elem_of_list_to_set, many_levels_keys.
  rewrite elem_of_seqZ. lia.
Qed.

Lemma book_many_bids_length :
  length (bid_prices book_many_bids) = Z.to_nat (2 ^ 32 + 1).
Proof.
  unfold bid_prices, rbegin_to_rend.
  rewrite length_fmap, length_reverse, begin_to_end_length.
  unfold book_many_bids. cbn [Book.bids_].
  rewrite map_size_list_to_map.
  - unfold many_levels. by rewrite length_fmap, length_seqZ.
  - rewrite many_levels_keys. apply NoDup_seqZ.
Qed.

(** C5, the claim as stated fails: in the book with a bid level at each
    of the prices 0 .. 2^32, the level at price 0 is the last of the
    2^32 + 1 levels, at best-first index 2^32, and [GetBidLevelDepth]
    returns 0 for it: the [uint32_t] counter has wrapped. *)
Lemma depth_wraps_beyond_uint32 :
  bid_prices book_many_bids !! Z.to_nat (2 ^ 32) = Some 0 ∧
  Book.GetBidLevelDepth 0 book_many_bids = 0%N.
Proof.
  assert (Hat : bid_prices book_many_bids !! Z.to_nat (2 ^ 32) = Some 0).
  { assert (Hin : 0 ∈ bid_prices book_many_bids) by (apply book_many_bids_prices; lia).
    apply list_elem_of_lookup in Hin as [j Hj].
    pose proof (lookup_lt_Some _ _ _ Hj) as Hjlt. rewrite book_many_bids_length in Hjlt.
    destruct (decide (j = Z.to_nat (2 ^ 32))) as [->|Hne]; [exact Hj|]. exfalso.
    destruct (lookup_lt_is_Some_2 (bid_prices book_many_bids) (S j)) as [y Hy].
    { rewrite book_many_bids_length. lia. }
    pose proof (sorted_gt_after _ _ _ _ _ (rbegin_to_rend_sorted _) Hj Hy).
    assert (0 ≤ y < 2 ^ 32 + 1)
      by (by apply book_many_bids_prices, list_elem_of_lookup_2 with (S j)).
    lia. }
  split; [exact Hat|].
  rewrite (proj1 (depth_modulo book_many_bids 0 (Z.to_nat (2 ^ 32))) Hat).
  rewrite Z_nat_N. reflexivity.
Qed.

(** C5, amended.  [GetBidLevelDepth px] is, modulo 2^32 (it is a
    [uint32_t]), the zero-based position of [px] in the bid prices
    listed best first -- a strictly descending list of exactly the
    prices that have a bid level -- hence that position itself when the
    bid side has at most 2^32 levels; it is 0 when no bid level has
    price [px].  [GetAskLevelDepth] is the same on the strictly
    ascending list of ask prices, with the number of ask levels. *)
Theorem depth_is_best_first_index (b : Book.t) (px : Z) :
  (StronglySorted Z.gt (bid_prices b) ∧
   (∀ k, k ∈ bid_prices b ↔ is_Some (Book.bids_ b !! k)) ∧
   (∀ i, bid_prices b !! i = Some px →
      Book.GetBidLevelDepth px b = (N.of_nat i mod 2 ^ 32)%N) ∧
   ((N.of_nat (size (Book.bids_ b)) ≤ 2 ^ 32)%N →
    ∀ i, bid_prices b !! i = Some px → Book.GetBidLevelDepth px b = N.of_nat i) ∧
   (Book.bids_ b !! px = None → Book.GetBidLevelDepth px b = 0%N)) ∧
  (StronglySorted Z.lt (ask_prices b) ∧
   (∀ k, k ∈ ask_prices b ↔ is_Some (Book.offers_ b !! k)) ∧
   (∀ i, ask_prices b !! i = Some px →
      Book.GetAskLevelDepth px b = (N.of_nat i mod 2 ^ 32)%N) ∧
   ((N.of_nat (size (Book.offers_ b)) ≤ 2 ^ 32)%N →
    ∀ i, ask_prices b !! i = Some px → Book.GetAskLevelDepth px b = N.of_nat i) ∧
   (Book.offers_ b !! px = None → Book.GetAskLevelDepth px b = 0%N)).
Proof.
  split.
  - split_and!.
    + apply rbegin_to_rend_sorted.
    + apply elem_of_rbegin_to_rend_keys.
    + intros i Hi. exact (proj1 (depth_modulo b px i) Hi).
    + intros Hbids i Hi.
      assert (i < size (Book.bids_ b))%nat.
      { apply lookup_lt_Some in Hi. unfold bid_prices, rbegin_to_rend in Hi.
        by rewrite length_fmap, length_reverse, begin_to_end_length in Hi. }
      rewrite (proj1 (depth_modulo b px i) Hi). apply wrap32_small. lia.
    + intros Hnone. apply bid_depth_loop_absent.
      rewrite elem_of_rbegin_to_rend_keys, Hnone. by intros [??].
  - split_and!.
    + apply begin_to_end_sorted.
    + apply elem_of_begin_to_end_keys.
    + intros i Hi. exact (proj2 (depth_modulo b px i) Hi).
    + intros Hasks i Hi.
      assert (i < size (Book.offers_ b))%nat.
      { apply lookup_lt_Some in Hi. unfold ask_prices in Hi.
        by rewrite length_fmap, begin_to_end_length in Hi. }
      rewrite (proj2 (depth_modulo b px i) Hi). apply wrap32_small. lia.
    + apply GetAskLevelDepth_absent.
Qed.

Lemma depth_is_best_first_index_witness :
  (N.of_nat (size (Book.bids_ book_3x2)) ≤ 2 ^ 32)%N ∧
  (N.of_nat (size (Book.offers_ book_3x2)) ≤ 2 ^ 32)%N ∧
  bid_prices book_3x2 = [99; 98; 97] ∧
  ask_prices book_3x2 = [101; 102] ∧
  Book.GetBidLevelDepth 98 book_3x2 = 1%N ∧
  Book.GetBidLevelDepth 100 book_3x2 = 0%N ∧
  Book.GetAskLevelDepth 102 book_3x2 = 1%N.
Proof.
  assert (H1 : (N.of_nat (size (Book.bids_ book_3x2)) ≤ 2 ^ 32)%N) by (by vm_compute).
  assert (H2 : (N.of_nat (size (Book.offers_ book_3x2)) ≤ 2 ^ 32)%N) by (by vm_compute).
  split_and!; [done|done|by vm_compute|by vm_compute| | |].
  - destruct (depth_is_best_first_index book_3x2 98) as [(_ & _ & _ & Hb & _) _].
    by apply (Hb H1 1%nat).
  - destruct (depth_is_best_first_index book_3x2 100) as [(_ & _ & _ & _ & Hb) _].
    by apply Hb.
  - destruct (depth_is_best_first_index book_3x2 102) as [_ (_ & _ & _ & Ha & _)].
    by apply (Ha H2 1%nat).
Defined.

(** ** The private helpers of [Book] on a proper side *)

Section helpers.
Implicit Types (b : Book.t) (s : Sd.type) (px : Z) (q : list MboSingle.t).

Lemma GetSdOrds_lvls s b : s ≠ Sd.None → Book.GetSdOrds s b = inr (lvls s b).
Proof. by destruct s. Qed.

Lemma lvls_SetSdOrds s s' L b :
  s ≠ Sd.None →
  lvls s' (Book.SetSdOrds s L b) = if decide (s' = s) then L else lvls s' b.
Proof. by destruct s, s'. Qed.

Lemma ordsById_SetSdOrds s L b :
  Book.ordsById_ (Book.SetSdOrds s L b) = Book.ordsById_ b.
Proof. by destruct s. Qed.

Lemma lvls_set_ordsById s ids b : lvls s (Book.set_ordsById ids b) = lvls s b.
Proof. by destruct s. Qed.

Lemma SetLvl_eq s px q b :
  s ≠ Sd.None → Book.SetLvl s px q b = Book.SetSdOrds s (<[px := q]> (lvls s b)) b.
Proof. by destruct s. Qed.

Lemma GetLvl_eq s px b :
  s ≠ Sd.None →
  Book.GetLvl s px b =
    match lvls s b !! px with Some q => inr q | None => inl (AccessUnkLvl s px) end.
Proof. by destruct s. Qed.

Lemma RemLvlIfEmpty_eq q s px b log :
  s ≠ Sd.None →
  Book.RemLvlIfEmpty q s px b log =
    Done (match q with
          | [] => Book.SetSdOrds s (delete px (lvls s b)) b
          | _ :: _ => b
          end) log.
Proof. by destruct s, q. Qed.

(** A book is determined by its index and the price maps of its two
    sides. *)
Lemma book_eq b b' :
  Book.ordsById_ b = Book.ordsById_ b' → (∀ s, lvls s b = lvls s b') → b = b'.
Proof.
  destruct b, b'; simpl. intros -> H.
  pose proof (H Sd.Ask) as Ha. pose proof (H Sd.Bid) as Hb. simpl in *.
  by subst.
Qed.

Lemma GetLvlOrd_Some q ordId i o :
  Book.GetLvlOrd q ordId = Some (i, o) →
  q !! i = Some o ∧ MboSingle.orderId o = ordId ∧ ordId ∉ ids_of (take i q).
Proof.
  revert i. induction q as [|o' q IH]; intros i; [done|]. simpl.
  case_bool_decide as Hid.
  - intros [= <- <-]. split_and!; [done..|]. rewrite take_0. apply not_elem_of_nil.
  - destruct (Book.GetLvlOrd q ordId) as [[j o'']|]; [|done].
    intros [= <- <-]. destruct (IH j eq_refl) as (? & ? & ?).
    split_and!; [done..|]. rewrite firstn_cons. unfold ids_of in *.
    rewrite fmap_cons. by apply not_elem_of_cons.
Qed.

Lemma GetLvlOrd_None q ordId :
  Book.GetLvlOrd q ordId = None ↔ ordId ∉ ids_of q.
Proof.
  unfold ids_of. induction q as [|o q IH]; simpl.
  - split; [intros _; apply not_elem_of_nil|done].
  - rewrite not_elem_of_cons. case_bool_decide as Hid.
    + split; [done|]. by intros [? _].
    + destruct (Book.GetLvlOrd q ordId) as [[j o']|]; simpl.
      * split; [done|]. intros [_ Hn]. by apply IH in Hn.
      * split; [|done]. intros _. split; [done|]. by apply IH.
Qed.

End helpers.
(** ** One level changes, the index follows *)

Lemma ids_of_app q1 q2 : ids_of (q1 ++ q2) = ids_of q1 ++ ids_of q2.
Proof. apply fmap_app. Qed.

Lemma level_change_Inv b b' s px q' : Inv b → level_change b b' s px q' → Inv b'.
Proof.
  intros [I1 I2 I3 I4] [Hs Hframe Hlvl Hnd Hfresh Hidx].
  set (q := default [] (lvls s b !! px)) in *.
  assert (Hq : ∀ id, id ∈ ids_of q → Book.ordsById_ b !! id = Some (Book.mkPxAndSd px s)).
  { intros id Hin. subst q. destruct (lvls s b !! px) as [q0|] eqn:Hq0; simpl in Hin.
    - by eapply I2.
    - by apply elem_of_nil in Hin. }
  assert (Hother : ∀ s' px' q0 id, (s', px') ≠ (s, px) → lvls s' b !! px' = Some q0 →
            id ∈ ids_of q0 → (id ∉ ids_of q') ∧ (id ∉ ids_of q)).
  { intros s' px' q0 id Hne Hq0 Hin. pose proof (I2 _ _ _ _ Hq0 Hin) as Hid.
    split.
    - intros Hin'. destruct (Hfresh _ Hin') as [Hin''|Hnone]; [|congruence].
      apply Hq in Hin''. naive_solver.
    - intros Hin'. apply Hq in Hin'. naive_solver. }
  split.
  - intros id ps. rewrite Hidx. case_decide as Hin'; [|case_decide as Hin].
    + intros [= <-]. simpl. rewrite Hlvl. destruct q'; [by apply elem_of_nil in Hin'|].
      by eexists.
    + done.
    + intros Hps. destruct (I1 _ _ Hps) as (q0 & Hq0 & Hin0).
      destruct (decide ((Book.side ps, Book.price ps) = (s, px))) as [[= Hs' Hpx']|Hne].
      * exfalso. apply Hin. subst q. rewrite <-Hs', <-Hpx', Hq0. done.
      * exists q0. by rewrite Hframe.
  - intros s' px' q0 id. destruct (decide ((s', px') = (s, px))) as [[= -> ->]|Hne].
    + rewrite Hlvl. destruct q'; [done|]. intros [= <-] Hin. rewrite Hidx.
      by rewrite decide_True.
    + rewrite Hframe by done. intros Hq0 Hin.
      destruct (Hother _ _ _ _ Hne Hq0 Hin). rewrite Hidx.
      rewrite !decide_False by done. by eapply I2.
  - intros s' px' q0. destruct (decide ((s', px') = (s, px))) as [[= -> ->]|Hne].
    + rewrite Hlvl. destruct q'; [done|]. by intros [= <-].
    + rewrite Hframe by done. apply I3.
  - intros s' px'. destruct (decide ((s', px') = (s, px))) as [[= -> ->]|Hne].
    + rewrite Hlvl. by destruct q'.
    + rewrite Hframe by done. apply I4.
Qed.

Lemma Inv_Tracked b : Inv b → Tracked b.
Proof. intros [_ I2 I3 _]. by split. Qed.

Lemma level_change_Tracked b b' s px q' :
  Tracked b → level_change b b' s px q' → Tracked b'.
Proof.
  intros [I2 I3] [Hs Hframe Hlvl Hnd Hfresh Hidx].
  set (q := default [] (lvls s b !! px)) in *.
  assert (Hq : ∀ id, id ∈ ids_of q → Book.ordsById_ b !! id = Some (Book.mkPxAndSd px s)).
  { intros id Hin. subst q. destruct (lvls s b !! px) as [q0|] eqn:Hq0; simpl in Hin.
    - by eapply I2.
    - by apply elem_of_nil in Hin. }
  split.
  - intros s' px' q0 id. destruct (decide ((s', px') = (s, px))) as [[= -> ->]|Hne].
    + rewrite Hlvl. destruct q'; [done|]. intros [= <-] Hin. rewrite Hidx.
      by rewrite decide_True.
    + rewrite Hframe by done. intros Hq0 Hin.
      pose proof (I2 _ _ _ _ Hq0 Hin) as Hid. rewrite Hidx.
      rewrite decide_False.
      * rewrite decide_False; [done|]. intros Hin'. apply Hq in Hin'. naive_solver.
      * intros Hin'. destruct (Hfresh _ Hin') as [Hin''|Hnone]; [|congruence].
        apply Hq in Hin''. naive_solver.
  - intros s' px' q0. destruct (decide ((s', px') = (s, px))) as [[= -> ->]|Hne].
    + rewrite Hlvl. destruct q'; [done|]. by intros [= <-].
    + rewrite Hframe by done. apply I3.
Qed.

(** ** What each mutation does to the index and the price maps *)

Section setters.
Implicit Types (b : Book.t) (s : Sd.type) (px : Z) (q : list MboSingle.t)
  (m : MboSingle.t).

Lemma SetSdOrds_twice s L1 L2 b :
  Book.SetSdOrds s L2 (Book.SetSdOrds s L1 b) = Book.SetSdOrds s L2 b.
Proof. by destruct s. Qed.

Lemma SetSdOrds_set_ordsById s L ids b :
  Book.SetSdOrds s L (Book.set_ordsById ids b) =
  Book.set_ordsById ids (Book.SetSdOrds s L b).
Proof. by destruct s. Qed.

Lemma set_ordsById_twice ids1 ids2 b :
  Book.set_ordsById ids2 (Book.set_ordsById ids1 b) = Book.set_ordsById ids2 b.
Proof. done. Qed.

Lemma ordsById_set_ordsById ids b : Book.ordsById_ (Book.set_ordsById ids b) = ids.
Proof. done. Qed.


Lemma lvls_Some_side s b px q : lvls s b !! px = Some q → s ≠ Sd.None.
Proof. by intros ? ->. Qed.

End setters.

(** Bring a chain of helper calls on a proper side to the form
    [set_ordsById ids (SetSdOrds s L b)]. *)
Ltac book_norm :=
  repeat first
    [ rewrite SetLvl_eq by done
    | rewrite RemLvlIfEmpty_eq by done
    | rewrite GetSdOrds_lvls by done
    | rewrite GetLvl_eq by done
    | rewrite lvls_set_ordsById
    | rewrite lvls_SetSdOrds by done
    | rewrite decide_True by done
    | rewrite ordsById_SetSdOrds
    | rewrite ordsById_set_ordsById
    | rewrite SetSdOrds_twice
    | rewrite SetSdOrds_set_ordsById
    | rewrite set_ordsById_twice
    | rewrite insert_insert_eq
    | rewrite delete_insert_eq ].

Section mutations.
Implicit Types (b : Book.t) (s : Sd.type) (px : Z) (q : list MboSingle.t)
  (m : MboSingle.t).

Lemma Add_eq m b :
  MboSingle.side m ≠ Sd.None →
  Book.ordsById_ b !! MboSingle.orderId m = None →
  Book.Add m b =
    Done (Book.set_ordsById
            (<[MboSingle.orderId m :=
                 Book.mkPxAndSd (MboSingle.price m) (MboSingle.side m)]>
               (Book.ordsById_ b))
            (Book.SetSdOrds (MboSingle.side m)
               (<[MboSingle.price m :=
                    default [] (lvls (MboSingle.side m) b !! MboSingle.price m) ++ [m]]>
                  (lvls (MboSingle.side m) b)) b)) [].
Proof.
  intros Hs Hfresh. unfold Book.Add, Book.GetOrInsLvl.
  rewrite GetSdOrds_lvls by done.
  destruct (lvls _ b !! _) as [q|] eqn:Hq; simpl.
  - rewrite SetLvl_eq, ordsById_SetSdOrds, Hfresh by done. done.
  - rewrite SetLvl_eq, lvls_SetSdOrds, decide_True by done.
    rewrite SetSdOrds_twice, insert_insert_eq, ordsById_SetSdOrds, Hfresh. done.
Qed.

Lemma Add_side_None m b :
  MboSingle.side m = Sd.None → Book.Add m b = Threw InvalidSide b [].
Proof. intros Hs. unfold Book.Add, Book.GetOrInsLvl. by rewrite Hs. Qed.

Lemma Add_dupe_exn m b :
  is_Some (Book.ordsById_ b !! MboSingle.orderId m) →
  ∃ e b', Book.Add m b = Threw e b' [] ∧
    (e = DupeID (MboSingle.orderId m) ∨ e = InvalidSide).
Proof.
  intros [ps Hps]. destruct (decide (MboSingle.side m = Sd.None)) as [Hs|Hs].
  { rewrite Add_side_None by done. eauto. }
  unfold Book.Add, Book.GetOrInsLvl. rewrite GetSdOrds_lvls by done.
  destruct (lvls _ b !! _) as [q|]; simpl.
  - rewrite SetLvl_eq, ordsById_SetSdOrds, Hps by done. eauto.
  - rewrite SetLvl_eq, !ordsById_SetSdOrds, Hps by done. eauto.
Qed.

Lemma Cancel_unknown stale m b :
  Book.ordsById_ b !! MboSingle.orderId m = None →
  Book.Cancel stale m b = Done b [WarnCancelUnkID (MboSingle.orderId m)].
Proof. intros H. unfold Book.Cancel. by rewrite H. Qed.

(** [Cancel] on an entry it finds: a request for at least the remaining
    size takes the entry out of the queue and of the index and ends on
    [RemLvl] at what [stale] names; a smaller request reduces the size
    in place. *)
Lemma Cancel_eq stale m b ps q i ord :
  Book.ordsById_ b !! MboSingle.orderId m = Some ps →
  lvls (Book.side ps) b !! Book.price ps = Some q →
  Book.GetLvlOrd q (MboSingle.orderId m) = Some (i, ord) →
  Book.Cancel stale m b =
    if bool_decide (MboSingle.size ord ≤ MboSingle.size m)%N then
      Book.RemLvlIfEmpty (delete i q) (Book.side stale) (Book.price stale)
        (Book.set_ordsById (delete (MboSingle.orderId m) (Book.ordsById_ b))
           (Book.SetSdOrds (Book.side ps)
              (<[Book.price ps := delete i q]> (lvls (Book.side ps) b)) b))
        (if bool_decide (MboSingle.size ord < MboSingle.size m)%N
         then [WarnCancelCap (MboSingle.orderId m)] else [])
    else
      Done (Book.SetSdOrds (Book.side ps)
              (<[Book.price ps :=
                   <[i := MboSingle.set_size (MboSingle.size ord - MboSingle.size m) ord]> q]>
                 (lvls (Book.side ps) b)) b) [].
Proof.
  intros Hps Hq Hord. pose proof (lvls_Some_side _ _ _ _ Hq) as Hs.
  unfold Book.Cancel. rewrite Hps, GetLvl_eq, Hq, Hord by done.
  assert (Hnorm : ∀ sz,
    Book.SetLvl (Book.side ps) (Book.price ps) (delete i q)
      (Book.set_ordsById
         (delete (MboSingle.orderId m)
            (Book.ordsById_ (Book.SetLvl (Book.side ps) (Book.price ps)
               (<[i := MboSingle.set_size sz ord]> q) b)))
         (Book.SetLvl (Book.side ps) (Book.price ps)
            (<[i := MboSingle.set_size sz ord]> q) b)) =
    Book.set_ordsById (delete (MboSingle.orderId m) (Book.ordsById_ b))
      (Book.SetSdOrds (Book.side ps)
         (<[Book.price ps := delete i q]> (lvls (Book.side ps) b)) b)).
  { intros sz.
    rewrite !SetLvl_eq, ?lvls_set_ordsById, ?lvls_SetSdOrds, ?decide_True by done.
    rewrite !ordsById_SetSdOrds, !SetSdOrds_set_ordsById, !SetSdOrds_twice.
    by rewrite insert_insert_eq. }
  case_bool_decide as Hlt.
  - rewrite bool_decide_eq_true_2 by done.
    rewrite (bool_decide_eq_true_2 (_ ≤ _)%N) by lia. by rewrite Hnorm.
  - case_bool_decide as Hz.
    + rewrite bool_decide_eq_true_2 by lia. by rewrite Hz, Hnorm.
    + rewrite bool_decide_eq_false_2 by lia. by rewrite SetLvl_eq.
Qed.

(** When the read through the erased iterator does not happen, or
    yields the record that was erased, the level is the one [put_level]
    describes. *)
Lemma Cancel_put_level stale m b ps q i ord :
  Book.ordsById_ b !! MboSingle.orderId m = Some ps →
  lvls (Book.side ps) b !! Book.price ps = Some q →
  Book.GetLvlOrd q (MboSingle.orderId m) = Some (i, ord) →
  ((MboSingle.size ord ≤ MboSingle.size m)%N → delete i q = [] → stale = ps) →
  Book.Cancel stale m b =
    if bool_decide (MboSingle.size ord ≤ MboSingle.size m)%N then
      Done (Book.set_ordsById (delete (MboSingle.orderId m) (Book.ordsById_ b))
              (Book.SetSdOrds (Book.side ps)
                 (put_level (Book.price ps) (delete i q) (lvls (Book.side ps) b)) b))
           (if bool_decide (MboSingle.size ord < MboSingle.size m)%N
            then [WarnCancelCap (MboSingle.orderId m)] else [])
    else
      Done (Book.SetSdOrds (Book.side ps)
              (<[Book.price ps :=
                   <[i := MboSingle.set_size (MboSingle.size ord - MboSingle.size m) ord]> q]>
                 (lvls (Book.side ps) b)) b) [].
Proof.
  intros Hps Hq Hord Hstale. pose proof (lvls_Some_side _ _ _ _ Hq) as Hs.
  rewrite (Cancel_eq _ _ _ _ _ _ _ Hps Hq Hord). case_bool_decide; [|done].
  unfold put_level. destruct (delete i q) as [|o q'] eqn:Hdel; [|done].
  rewrite Hstale by done. by book_norm.
Qed.

Lemma Modify_unknown m b :
  Book.ordsById_ b !! MboSingle.orderId m = None → Book.Modify m b = Book.Add m b.
Proof. intros H. unfold Book.Modify. by rewrite H. Qed.

Lemma Modify_changed_side m b ps :
  Book.ordsById_ b !! MboSingle.orderId m = Some ps →
  Book.side ps ≠ MboSingle.side m →
  Book.Modify m b = Threw (ChangedSide (MboSingle.orderId m)) b [].
Proof. intros H Hs. unfold Book.Modify. by rewrite H, bool_decide_eq_true_2. Qed.

Lemma Modify_eq m b ps q i ord :
  Book.ordsById_ b !! MboSingle.orderId m = Some ps →
  Book.side ps = MboSingle.side m →
  lvls (Book.side ps) b !! Book.price ps = Some q →
  Book.GetLvlOrd q (MboSingle.orderId m) = Some (i, ord) →
  Book.Modify m b =
    let s := Book.side ps in
    if bool_decide (Book.price ps ≠ MboSingle.price m) then
      let L1 := put_level (Book.price ps) (delete i q) (lvls s b) in
      Done (Book.set_ordsById
              (<[MboSingle.orderId m := Book.mkPxAndSd (MboSingle.price m) s]>
                 (Book.ordsById_ b))
              (Book.SetSdOrds s
                 (<[MboSingle.price m := default [] (L1 !! MboSingle.price m) ++ [m]]> L1)
                 b)) []
    else if bool_decide (MboSingle.size ord < MboSingle.size m)%N then
      Done (Book.SetSdOrds s (<[Book.price ps := delete i q ++ [m]]> (lvls s b)) b) []
    else
      Done (Book.SetSdOrds s
              (<[Book.price ps := <[i := MboSingle.set_size (MboSingle.size m) ord]> q]>
                 (lvls s b)) b) [].
Proof.
  intros Hps Hside Hq Hord. pose proof (lvls_Some_side _ _ _ _ Hq) as Hs.
  unfold Book.Modify. rewrite Hps, bool_decide_eq_false_2 by naive_solver.
  rewrite <-Hside. rewrite GetLvl_eq, Hq, Hord by done. cbv zeta.
  case_bool_decide as Hpx; [|case_bool_decide; by rewrite SetLvl_eq].
  rewrite RemLvlIfEmpty_eq by done. unfold Book.GetOrInsLvl.
  set (L1 := put_level (Book.price ps) (delete i q) (lvls (Book.side ps) b)).
  set (ids := <[_ := _]> (Book.ordsById_ b)).
  assert (Hb3 : match delete i q with
                | [] => Book.SetSdOrds (Book.side ps)
                          (delete (Book.price ps)
                             (lvls (Book.side ps)
                                (Book.SetLvl (Book.side ps) (Book.price ps) (delete i q)
                                   (Book.set_ordsById ids b))))
                          (Book.SetLvl (Book.side ps) (Book.price ps) (delete i q)
                             (Book.set_ordsById ids b))
                | _ :: _ => Book.SetLvl (Book.side ps) (Book.price ps) (delete i q)
                              (Book.set_ordsById ids b)
                end = Book.set_ordsById ids (Book.SetSdOrds (Book.side ps) L1 b)).
  { subst L1. unfold put_level. destruct (delete i q); by book_norm. }
  rewrite Hb3. book_norm.
  destruct (L1 !! MboSingle.price m) as [q1|] eqn:Hq1; simpl; by book_norm.
Qed.

Lemma ProcSynthTrade_no_level px sz s b :
  s ≠ Sd.None → lvls s b !! px = None →
  Book.ProcSynthTrade px sz s b = Done b [WarnSynthNoLvl s px sz].
Proof.
  intros Hs Hq. unfold Book.ProcSynthTrade. by rewrite GetSdOrds_lvls, Hq.
Qed.

Lemma ProcSynthTrade_eq px sz s b q :
  lvls s b !! px = Some q →
  Book.ProcSynthTrade px sz s b =
    Done (Book.set_ordsById (Book.synth_loop q sz (Book.ordsById_ b)).2
            (Book.SetSdOrds s
               (put_level px (Book.synth_loop q sz (Book.ordsById_ b)).1 (lvls s b)) b))
         [].
Proof.
  intros Hq. pose proof (lvls_Some_side _ _ _ _ Hq) as Hs.
  unfold Book.ProcSynthTrade. rewrite GetSdOrds_lvls, Hq by done.
  destruct (Book.synth_loop _ _ _) as [q' ids']. simpl.
  unfold put_level. destruct q'; by book_norm.
Qed.
End mutations.

(** ** Queues and their ids *)

Lemma ids_of_cons o q : ids_of (o :: q) = MboSingle.orderId o :: ids_of q.
Proof. done. Qed.

Lemma ids_of_set_size q i sz o :
  q !! i = Some o → ids_of (<[i := MboSingle.set_size sz o]> q) = ids_of q.
Proof.
  intros Hi. unfold ids_of. rewrite list_fmap_insert. simpl.
  apply list_insert_id. by rewrite list_lookup_fmap, Hi.
Qed.

Lemma ids_of_delete q i : ids_of (delete i q) = delete i (ids_of q).
Proof.
  unfold ids_of. revert i. induction q as [|o q IH]; intros [|i]; simpl; try done.
  by rewrite IH.
Qed.

Lemma elem_of_delete_NoDup {A} (l : list A) i x y :
  NoDup l → l !! i = Some x → y ∈ delete i l ↔ y ∈ l ∧ y ≠ x.
Proof.
  intros Hnd Hi. rewrite delete_take_drop.
  rewrite <-(take_drop_middle l i x) in Hnd at 1 by done.
  rewrite <-(take_drop_middle l i x) at 3 by done.
  apply NoDup_app in Hnd as (_ & Hdisj & Hnd). apply list.NoDup_cons in Hnd as [Hx _].
  rewrite !elem_of_app, elem_of_cons. split.
  - intros [Hy|Hy]; (split; [tauto|]); intros ->; [|done].
    eapply Hdisj; [done|]. apply elem_of_cons. by left.
  - intros [[Hy|[->|Hy]] Hne]; tauto.
Qed.

Lemma NoDup_delete {A} (l : list A) i : NoDup l → NoDup (delete i l).
Proof. intros Hnd. eapply sublist_NoDup; [done|apply sublist_delete]. Qed.

Lemma GetLvlOrd_is_Some q ordId :
  ordId ∈ ids_of q → ∃ i o, Book.GetLvlOrd q ordId = Some (i, o).
Proof.
  intros Hin. destruct (Book.GetLvlOrd q ordId) as [[i o]|] eqn:H; [by eauto|].
  by apply GetLvlOrd_None in H.
Qed.

Lemma GetLvlOrd_ids q ordId i o :
  Book.GetLvlOrd q ordId = Some (i, o) → ids_of q !! i = Some ordId.
Proof.
  intros (Hi & Hid & _)%GetLvlOrd_Some. unfold ids_of.
  by rewrite list_lookup_fmap, Hi, <-Hid.
Qed.

(** ** Establishing a level change *)

Lemma put_level_lookup px q L px' :
  put_level px q L !! px' =
    if decide (px' = px) then (match q with [] => None | _ => Some q end) else L !! px'.
Proof.
  unfold put_level. case_decide as Hpx.
  - subst. destruct q; [apply lookup_delete_eq|apply lookup_insert_eq].
  - destruct q; [by apply lookup_delete_ne|by apply lookup_insert_ne].
Qed.

Lemma put_level_cons px q L : q ≠ [] → <[px := q]> L = put_level px q L.
Proof. by destruct q. Qed.

Lemma level_change_put b s px q' ids :
  s ≠ Sd.None →
  NoDup (ids_of q') →
  (∀ id, id ∈ ids_of q' →
     id ∈ ids_of (default [] (lvls s b !! px)) ∨ Book.ordsById_ b !! id = None) →
  (∀ id, ids !! id =
     if decide (id ∈ ids_of q') then Some (Book.mkPxAndSd px s)
     else if decide (id ∈ ids_of (default [] (lvls s b !! px))) then None
     else Book.ordsById_ b !! id) →
  level_change b
    (Book.set_ordsById ids (Book.SetSdOrds s (put_level px q' (lvls s b)) b)) s px q'.
Proof.
  intros Hs Hnd Hfresh Hidx. split; [done| | |done|done|done].
  - intros s' px' Hne. rewrite lvls_set_ordsById, lvls_SetSdOrds by done.
    case_decide; [|done]. subst s'. rewrite put_level_lookup.
    rewrite decide_False; [done|]. congruence.
  - rewrite lvls_set_ordsById, lvls_SetSdOrds, decide_True by done.
    by rewrite put_level_lookup, decide_True.
Qed.

Lemma set_ordsById_id b : Book.set_ordsById (Book.ordsById_ b) b = b.
Proof. by destruct b. Qed.

(** A change of sizes only, at one level: the ids stay as they are. *)
Lemma level_change_same_ids b s px q q' :
  Tracked b → lvls s b !! px = Some q → q' ≠ [] → ids_of q' = ids_of q →
  level_change b (Book.SetSdOrds s (<[px := q']> (lvls s b)) b) s px q'.
Proof.
  intros HT Hq Hne Hids. pose proof (lvls_Some_side _ _ _ _ Hq) as Hs.
  rewrite put_level_cons by done.
  rewrite <-(set_ordsById_id (Book.SetSdOrds _ _ _)), ordsById_SetSdOrds.
  apply level_change_put; [done| | |].
  - rewrite Hids. by eapply trk_nodup.
  - intros id. rewrite Hq, Hids. by left.
  - intros id. rewrite Hq, Hids. simpl. case_decide as Hin; [|done].
    by eapply trk_queued.
Qed.

(** ** Each mutation as a level change *)

Lemma Add_level_change m b :
  Tracked b → MboSingle.side m ≠ Sd.None →
  Book.ordsById_ b !! MboSingle.orderId m = None →
  ∃ b', Book.Add m b = Done b' [] ∧
    level_change b b' (MboSingle.side m) (MboSingle.price m)
      (default [] (lvls (MboSingle.side m) b !! MboSingle.price m) ++ [m]).
Proof.
  intros HI Hs Hfresh. eexists. split; [by apply Add_eq|].
  set (q := default [] (lvls (MboSingle.side m) b !! MboSingle.price m)).
  assert (Hq : ∀ id, id ∈ ids_of q →
            Book.ordsById_ b !! id =
              Some (Book.mkPxAndSd (MboSingle.price m) (MboSingle.side m))).
  { intros id Hin. subst q. destruct (lvls _ b !! _) as [q0|] eqn:Hq0; simpl in Hin.
    - by eapply trk_queued.
    - by apply elem_of_nil in Hin. }
  rewrite put_level_cons by (by destruct q).
  apply level_change_put; [done| | |].
  - rewrite ids_of_app. apply NoDup_app. split_and!.
    + subst q. destruct (lvls _ b !! _) as [q0|] eqn:Hq0; simpl.
      * by eapply trk_nodup.
      * constructor.
    + intros id Hin ->%list_elem_of_singleton. apply Hq in Hin. congruence.
    + apply NoDup_singleton.
  - intros id. rewrite ids_of_app, elem_of_app. intros [Hin|Hin]; [by left|].
    apply list_elem_of_singleton in Hin as ->. by right.
  - intros id. fold q. rewrite ids_of_app.
    destruct (decide (id = MboSingle.orderId m)) as [->|Hne].
    + rewrite lookup_insert_eq, decide_True; [done|].
      apply elem_of_app. right. by apply list_elem_of_singleton.
    + rewrite lookup_insert_ne by done. case_decide as Hin.
      * apply elem_of_app in Hin as [Hin|Hin]; [by apply Hq|].
        by apply list_elem_of_singleton in Hin.
      * rewrite decide_False; [done|]. intros Hin'. apply Hin, elem_of_app. by left.
Qed.

(** What [Cancel] finds for an indexed id in a consistent book. *)
Lemma Inv_find b id ps :
  Inv b → Book.ordsById_ b !! id = Some ps →
  ∃ q i ord, lvls (Book.side ps) b !! Book.price ps = Some q ∧
    Book.GetLvlOrd q id = Some (i, ord).
Proof.
  intros HI Hps. destruct (inv_indexed b HI _ _ Hps) as (q & Hq & Hin).
  destruct (GetLvlOrd_is_Some _ _ Hin) as (i & ord & Hord). eauto.
Qed.

(** Taking the entry at position [i] out of its queue and its id out of
    the index. *)
Lemma erase_level_change b id ps q i ord :
  Tracked b → Book.ordsById_ b !! id = Some ps →
  lvls (Book.side ps) b !! Book.price ps = Some q →
  Book.GetLvlOrd q id = Some (i, ord) →
  level_change b
    (Book.set_ordsById (delete id (Book.ordsById_ b))
       (Book.SetSdOrds (Book.side ps)
          (put_level (Book.price ps) (delete i q) (lvls (Book.side ps) b)) b))
    (Book.side ps) (Book.price ps) (delete i q).
Proof.
  intros HI Hps Hq Hord. pose proof (lvls_Some_side _ _ _ _ Hq) as Hs.
  pose proof (trk_nodup b HI _ _ _ Hq) as Hnd.
  pose proof (GetLvlOrd_ids _ _ _ _ Hord) as Hi.
  apply level_change_put; [done| | |].
  - rewrite ids_of_delete. by apply NoDup_delete.
  - intros id'. rewrite Hq, ids_of_delete. simpl.
    rewrite (elem_of_delete_NoDup _ _ id) by done. intros [? _]. by left.
  - intros id'. rewrite Hq, ids_of_delete. simpl.
    destruct (decide (id' = id)) as [->|Hne].
    + rewrite lookup_delete_eq, decide_False.
      * rewrite decide_True; [done|]. by eapply list_elem_of_lookup_2.
      * rewrite (elem_of_delete_NoDup _ _ id) by done. by intros [_ ?].
    + rewrite lookup_delete_ne by done. case_decide as Hin.
      * apply (elem_of_delete_NoDup _ _ id) in Hin as [Hin _]; [|done..].
        destruct ps. by eapply trk_queued.
      * rewrite decide_False; [done|]. intros Hin'. apply Hin.
        by apply (elem_of_delete_NoDup _ _ id).
Qed.

Lemma nonempty_lookup {A} (q : list A) i x : q !! i = Some x → q ≠ [].
Proof. by destruct q. Qed.

Lemma insert_nonempty {A} (q : list A) i x : q ≠ [] → <[i := x]> q ≠ [].
Proof. by destruct q, i. Qed.

(** [Cancel] as a level change, when the read through the erased
    iterator does not happen or yields the erased record. *)
Lemma Cancel_level_change stale m b ps q i ord :
  Tracked b → Book.ordsById_ b !! MboSingle.orderId m = Some ps →
  lvls (Book.side ps) b !! Book.price ps = Some q →
  Book.GetLvlOrd q (MboSingle.orderId m) = Some (i, ord) →
  ((MboSingle.size ord ≤ MboSingle.size m)%N → delete i q = [] → stale = ps) →
  ∃ b' log,
    Book.Cancel stale m b = Done b' log ∧
    level_change b b' (Book.side ps) (Book.price ps)
      (if bool_decide (MboSingle.size ord ≤ MboSingle.size m)%N then delete i q
       else <[i := MboSingle.set_size (MboSingle.size ord - MboSingle.size m) ord]> q).
Proof.
  intros HT Hps Hq Hord Hstale.
  rewrite (Cancel_put_level _ _ _ _ _ _ _ Hps Hq Hord Hstale).
  destruct (GetLvlOrd_Some _ _ _ _ Hord) as (Hi & _ & _).
  destruct (bool_decide_reflect (MboSingle.size ord ≤ MboSingle.size m)%N);
    do 2 eexists; (split; [done|]).
  - by eapply erase_level_change.
  - apply level_change_same_ids with q; [done..| |by apply ids_of_set_size].
    by eapply insert_nonempty, nonempty_lookup.
Qed.

(** The same ids in another order, at one level. *)
Lemma level_change_perm_ids b s px q q' :
  Tracked b → lvls s b !! px = Some q → q' ≠ [] → ids_of q' ≡ₚ ids_of q →
  level_change b (Book.SetSdOrds s (<[px := q']> (lvls s b)) b) s px q'.
Proof.
  intros HT Hq Hne Hids. pose proof (lvls_Some_side _ _ _ _ Hq) as Hs.
  rewrite put_level_cons by done.
  rewrite <-(set_ordsById_id (Book.SetSdOrds _ _ _)), ordsById_SetSdOrds.
  apply level_change_put; [done| | |].
  - rewrite Hids. by eapply trk_nodup.
  - intros id. rewrite Hq, Hids. by left.
  - intros id. rewrite Hq. simpl. case_decide as Hin.
    + rewrite Hids in Hin. by eapply trk_queued.
    + rewrite decide_False; [done|]. by rewrite <-Hids.
Qed.

Lemma Modify_same_price_level_change m b ps q i ord :
  Tracked b → Book.ordsById_ b !! MboSingle.orderId m = Some ps →
  Book.side ps = MboSingle.side m → Book.price ps = MboSingle.price m →
  lvls (Book.side ps) b !! Book.price ps = Some q →
  Book.GetLvlOrd q (MboSingle.orderId m) = Some (i, ord) →
  ∃ b', Book.Modify m b = Done b' [] ∧
    level_change b b' (Book.side ps) (Book.price ps)
      (if bool_decide (MboSingle.size ord < MboSingle.size m)%N then delete i q ++ [m]
       else <[i := MboSingle.set_size (MboSingle.size m) ord]> q).
Proof.
  intros HI Hps Hside Hpx Hq Hord.
  rewrite (Modify_eq _ _ _ _ _ _ Hps Hside Hq Hord). cbv zeta.
  rewrite bool_decide_eq_false_2 by naive_solver.
  destruct (GetLvlOrd_Some _ _ _ _ Hord) as (Hi & _ & _).
  pose proof (GetLvlOrd_ids _ _ _ _ Hord) as Hid.
  destruct (bool_decide_reflect (MboSingle.size ord < MboSingle.size m)%N);
    (eexists; split; [done|]).
  - apply level_change_perm_ids with q; [done..|by destruct (delete i q)|].
    rewrite ids_of_app, ids_of_delete. simpl.
    rewrite (delete_Permutation (ids_of q) i (MboSingle.orderId m)) at 2 by done.
    by rewrite Permutation_app_comm.
  - apply level_change_same_ids with q; [done..| |by apply ids_of_set_size].
    by eapply insert_nonempty, nonempty_lookup.
Qed.

(** A [Modify] to another price is the erasure of the entry followed by
    the [Add] of the event. *)
Lemma Modify_move_eq m b ps q i ord :
  Book.ordsById_ b !! MboSingle.orderId m = Some ps →
  Book.side ps = MboSingle.side m → Book.price ps ≠ MboSingle.price m →
  lvls (Book.side ps) b !! Book.price ps = Some q →
  Book.GetLvlOrd q (MboSingle.orderId m) = Some (i, ord) →
  Book.Modify m b =
    Book.Add m
      (Book.set_ordsById (delete (MboSingle.orderId m) (Book.ordsById_ b))
         (Book.SetSdOrds (Book.side ps)
            (put_level (Book.price ps) (delete i q) (lvls (Book.side ps) b)) b)).
Proof.
  intros Hps Hside Hpx Hq Hord. pose proof (lvls_Some_side _ _ _ _ Hq) as Hs.
  rewrite (Modify_eq _ _ _ _ _ _ Hps Hside Hq Hord). cbv zeta.
  rewrite bool_decide_eq_true_2 by done.
  rewrite Add_eq; [|by rewrite <-Hside|by rewrite ordsById_set_ordsById, lookup_delete_eq].
  rewrite <-Hside. book_norm. by rewrite insert_delete_eq.
Qed.

(** The loop of the synthetic trade removes a prefix of the queue. *)
Lemma synth_loop_spec q sz ids :
  ∃ k, ids_of (Book.synth_loop q sz ids).1 = drop k (ids_of q) ∧
    ∀ id, (Book.synth_loop q sz ids).2 !! id =
      if decide (id ∈ take k (ids_of q)) then None else ids !! id.
Proof.
  revert sz ids. induction q as [|o q IH]; intros sz ids; simpl.
  { exists 0%nat. split; [done|]. intros id. rewrite decide_False; [done|].
    apply not_elem_of_nil. }
  case_bool_decide; [case_bool_decide|].
  - destruct (IH (sz - MboSingle.size o)%N (delete (MboSingle.orderId o) ids))
      as (k & Hk & Hids).
    exists (S k). split; [done|]. intros id. rewrite Hids, firstn_cons.
    destruct (decide (id = MboSingle.orderId o)) as [->|Hne].
    + rewrite lookup_delete_eq. rewrite (decide_True (P := _ ∈ _ :: _)).
      * by case_decide.
      * apply elem_of_cons. by left.
    + rewrite lookup_delete_ne by done.
      case_decide as Hin.
      * rewrite decide_True; [done|]. apply elem_of_cons. by right.
      * rewrite decide_False; [done|]. rewrite elem_of_cons. tauto.
  - exists 0%nat. split; [done|]. intros id. rewrite decide_False; [done|].
    apply not_elem_of_nil.
  - exists 0%nat. split; [done|]. intros id. rewrite decide_False; [done|].
    apply not_elem_of_nil.
Qed.


Lemma ProcSynthTrade_level_change px sz s b q :
  Tracked b → lvls s b !! px = Some q →
  ∃ b', Book.ProcSynthTrade px sz s b = Done b' [] ∧
    level_change b b' s px (Book.synth_loop q sz (Book.ordsById_ b)).1.
Proof.
  intros HI Hq. pose proof (lvls_Some_side _ _ _ _ Hq) as Hs.
  pose proof (trk_nodup b HI _ _ _ Hq) as Hnd.
  rewrite (ProcSynthTrade_eq _ _ _ _ _ Hq). eexists. split; [done|].
  destruct (synth_loop_spec q sz (Book.ordsById_ b)) as (k & Hk & Hids).
  rewrite <-(take_drop k (ids_of q)) in Hnd.
  apply NoDup_app in Hnd as (_ & Hdisj & Hnd).
  assert (Hsplit : ∀ id, id ∈ ids_of q ↔ id ∈ take k (ids_of q) ∨ id ∈ drop k (ids_of q)).
  { intros id. by rewrite <-elem_of_app, take_drop. }
  apply level_change_put; [done| | |].
  - by rewrite Hk.
  - intros id. rewrite Hk, Hq. simpl. rewrite Hsplit. tauto.
  - intros id. rewrite Hids, Hk, Hq. simpl.
    pose proof (Hsplit id) as Hid. pose proof (Hdisj id) as Hdis.
    repeat case_decide; try done; try tauto.
    eapply trk_queued; [done..|]. tauto.
Qed.

(** ** Sizes under each mutation, whatever is read *)












(** ** What stays consistent, whatever is read *)

Lemma Tracked_init : Tracked Book.init.
Proof.
  split.
  - intros [] px q id; simpl; by rewrite lookup_empty.
  - intros [] px q; simpl; by rewrite lookup_empty.
Qed.

(** Taking levels away, or leaving an empty queue where a level was
    taken away, keeps the queued entries indexed. *)
Lemma Tracked_sublevels b b' :
  Tracked b → Book.ordsById_ b' = Book.ordsById_ b →
  (∀ s px q, lvls s b' !! px = Some q → q = [] ∨ lvls s b !! px = Some q) →
  Tracked b'.
Proof.
  intros [I2 I3] Hids Hsub. split.
  - intros s px q id Hq Hin. rewrite Hids. destruct (Hsub _ _ _ Hq) as [->|Hq'].
    + by apply elem_of_nil in Hin.
    + by eapply I2.
  - intros s px q Hq. destruct (Hsub _ _ _ Hq) as [->|Hq']; [constructor|by eapply I3].
Qed.

Lemma Add_Tracked m b b' log : Tracked b → Book.Add m b = Done b' log → Tracked b'.
Proof.
  intros HT Hadd.
  destruct (decide (MboSingle.side m = Sd.None)) as [Hs|Hs].
  { by rewrite Add_side_None in Hadd. }
  destruct (Book.ordsById_ b !! MboSingle.orderId m) as [ps|] eqn:Hid.
  { destruct (Add_dupe_exn m b) as (e & b'' & Heq & _); [by eexists|]. congruence. }
  destruct (Add_level_change m b HT Hs Hid) as (b'' & Heq & Hlc).
  rewrite Heq in Hadd. injection Hadd as <- <-. by eapply level_change_Tracked.
Qed.

Lemma Cancel_Tracked stale m b b' log :
  Tracked b → Book.Cancel stale m b = Done b' log → Tracked b'.
Proof.
  intros HT. destruct (Book.ordsById_ b !! MboSingle.orderId m) as [ps|] eqn:Hps.
  2: { rewrite Cancel_unknown by done. by intros [= <- <-]. }
  destruct (decide (Book.side ps = Sd.None)) as [Hs|Hs].
  { unfold Book.Cancel. rewrite Hps. unfold Book.GetLvl. by rewrite Hs. }
  destruct (lvls (Book.side ps) b !! Book.price ps) as [q|] eqn:Hq.
  2: { unfold Book.Cancel. by rewrite Hps, GetLvl_eq, Hq. }
  destruct (Book.GetLvlOrd q (MboSingle.orderId m)) as [[i ord]|] eqn:Hord.
  2: { unfold Book.Cancel. rewrite Hps, GetLvl_eq, Hq, Hord by done.
       by intros [= <- <-]. }
  destruct (decide ((MboSingle.size ord ≤ MboSingle.size m)%N ∧ delete i q = []))
    as [[Hle Hdel]|Hkept].
  - (* the queue is emptied: [RemLvl] goes by what is read *)
    destruct (Cancel_level_change ps m b ps q i ord HT Hps Hq Hord)
      as (bc & logc & Hc & Hlc); [done|].
    pose proof (level_change_Tracked _ _ _ _ _ HT Hlc) as HTc.
    rewrite (Cancel_put_level _ _ _ _ _ _ _ Hps Hq Hord) in Hc by done.
    rewrite bool_decide_eq_true_2 in Hc by done. injection Hc as <- _.
    rewrite (Cancel_eq _ _ _ _ _ _ _ Hps Hq Hord), bool_decide_eq_true_2, Hdel by done.
    destruct (decide (Book.side stale = Sd.None)) as [Hst|Hst].
    { unfold Book.RemLvlIfEmpty, Book.RemLvl. by rewrite Hst. }
    rewrite RemLvlIfEmpty_eq by done. intros [= <- _].
    eapply Tracked_sublevels; [exact HTc|by book_norm|].
    intros s px q0. rewrite Hdel. unfold put_level. book_norm.
    intros Hq0.
    assert (Hq1 : (if decide (s = Book.side ps)
                   then <[Book.price ps := []]> (lvls (Book.side ps) b)
                   else lvls s b) !! px = Some q0).
    { destruct (decide (s = Book.side stale)) as [Hs1|Hs1]; [|done]. subst s.
      by apply lookup_delete_Some in Hq0 as [_ ?]. }
    clear Hq0. case_decide as Hs2; [|by right]. subst s.
    apply lookup_insert_Some in Hq1 as [[_ <-]|[Hne Hq1]]; [by left|right].
    by rewrite lookup_delete_ne.
  - destruct (Cancel_level_change stale m b ps q i ord HT Hps Hq Hord)
      as (bc & logc & Hc & Hlc); [tauto|].
    rewrite Hc. intros [= <- _]. by eapply level_change_Tracked.
Qed.

Lemma Modify_Tracked m b b' log : Tracked b → Book.Modify m b = Done b' log → Tracked b'.
Proof.
  intros HT. destruct (Book.ordsById_ b !! MboSingle.orderId m) as [ps|] eqn:Hps.
  2: { rewrite Modify_unknown by done. by apply Add_Tracked. }
  destruct (decide (Book.side ps = MboSingle.side m)) as [Hside|Hside].
  2: { by rewrite (Modify_changed_side _ _ ps). }
  destruct (decide (Book.side ps = Sd.None)) as [Hs|Hs].
  { unfold Book.Modify. rewrite Hps, bool_decide_eq_false_2 by naive_solver.
    unfold Book.GetLvl. by rewrite <-Hside, Hs. }
  destruct (lvls (Book.side ps) b !! Book.price ps) as [q|] eqn:Hq.
  2: { unfold Book.Modify. rewrite Hps, bool_decide_eq_false_2 by naive_solver.
       by rewrite <-Hside, GetLvl_eq, Hq. }
  destruct (Book.GetLvlOrd q (MboSingle.orderId m)) as [[i ord]|] eqn:Hord.
  2: { unfold Book.Modify. rewrite Hps, bool_decide_eq_false_2 by naive_solver.
       rewrite <-Hside, GetLvl_eq, Hq, Hord by done. by intros [= <- <-]. }
  destruct (decide (Book.price ps = MboSingle.price m)) as [Hpx|Hpx].
  - destruct (Modify_same_price_level_change _ _ _ _ _ _ HT Hps Hside Hpx Hq Hord)
      as (b'' & Heq & Hlc).
    rewrite Heq. intros [= <- _]. by eapply level_change_Tracked.
  - rewrite (Modify_move_eq _ _ _ _ _ _ Hps Hside Hpx Hq Hord).
    apply Add_Tracked. eapply level_change_Tracked; [done|].
    by eapply erase_level_change.
Qed.

Lemma ProcSynthTrade_Tracked px sz s b b' log :
  Tracked b → Book.ProcSynthTrade px sz s b = Done b' log → Tracked b'.
Proof.
  intros HT. destruct (decide (s = Sd.None)) as [->|Hs]; [done|].
  destruct (lvls s b !! px) as [q|] eqn:Hq.
  - destruct (ProcSynthTrade_level_change px sz s b q HT Hq) as (b'' & Heq & Hlc).
    rewrite Heq. intros [= <- _]. by eapply level_change_Tracked.
  - rewrite ProcSynthTrade_no_level by done. by intros [= <- _].
Qed.

Lemma mutate_Tracked mu b b' log : Tracked b → mutate mu b = Done b' log → Tracked b'.
Proof.
  intros HT. destruct mu as [stale m|px sz s]; simpl.
  - unfold Book.Apply. destruct (MboSingle.action m) eqn:Hact.
    + by apply Add_Tracked.
    + by apply Cancel_Tracked.
    + by apply Modify_Tracked.
    + intros [= <- _]. apply Tracked_init.
    + by intros [= <- _].
    + by intros [= <- _].
    + by intros [= <- _].
  - by apply ProcSynthTrade_Tracked.
Qed.

(** ** The full consistency, when the erased record is read back *)

Lemma Inv_init : Inv Book.init.
Proof.
  split.
  - intros id ps. simpl. by rewrite lookup_empty.
  - intros [] px q id; simpl; by rewrite lookup_empty.
  - intros [] px q; simpl; by rewrite lookup_empty.
  - intros [] px; simpl; by rewrite lookup_empty.
Qed.

Lemma Add_preserves m b b' log : Inv b → Book.Add m b = Done b' log → Inv b'.
Proof.
  intros HI Hadd.
  destruct (decide (MboSingle.side m = Sd.None)) as [Hs|Hs].
  { by rewrite Add_side_None in Hadd. }
  destruct (Book.ordsById_ b !! MboSingle.orderId m) as [ps|] eqn:Hid.
  { destruct (Add_dupe_exn m b) as (e & b'' & Heq & _); [by eexists|]. congruence. }
  destruct (Add_level_change m b (Inv_Tracked _ HI) Hs Hid) as (b'' & Heq & Hlc).
  rewrite Heq in Hadd. injection Hadd as <- <-. by eapply level_change_Inv.
Qed.

Lemma Cancel_preserves stale m b :
  Inv b →
  (∀ ps, Book.ordsById_ b !! MboSingle.orderId m = Some ps → stale = ps) →
  ∃ b' log, Book.Cancel stale m b = Done b' log ∧ Inv b'.
Proof.
  intros HI Hstale. destruct (Book.ordsById_ b !! MboSingle.orderId m) as [ps|] eqn:Hid.
  - destruct (Inv_find _ _ _ HI Hid) as (q & i & ord & Hq & Hord).
    destruct (Cancel_level_change stale m b ps q i ord (Inv_Tracked _ HI) Hid Hq Hord)
      as (b' & log & Heq & Hlc); [by intros _ _; apply Hstale|].
    exists b', log. split; [done|]. by eapply level_change_Inv.
  - rewrite Cancel_unknown by done. eauto.
Qed.

Lemma Modify_preserves m b b' log : Inv b → Book.Modify m b = Done b' log → Inv b'.
Proof.
  intros HI Hmod. pose proof (Inv_Tracked _ HI) as HT.
  destruct (Book.ordsById_ b !! MboSingle.orderId m) as [ps|] eqn:Hid.
  2: { rewrite Modify_unknown in Hmod by done. by eapply Add_preserves. }
  destruct (decide (Book.side ps = MboSingle.side m)) as [Hside|Hside].
  2: { by rewrite (Modify_changed_side _ _ ps) in Hmod. }
  destruct (Inv_find _ _ _ HI Hid) as (q & i & ord & Hq & Hord).
  destruct (decide (Book.price ps = MboSingle.price m)) as [Hpx|Hpx].
  - destruct (Modify_same_price_level_change _ _ _ _ _ _ HT Hid Hside Hpx Hq Hord)
      as (b'' & Heq & Hlc).
    rewrite Heq in Hmod. injection Hmod as <- <-. by eapply level_change_Inv.
  - rewrite (Modify_move_eq _ _ _ _ _ _ Hid Hside Hpx Hq Hord) in Hmod.
    pose proof (erase_level_change _ _ _ _ _ _ HT Hid Hq Hord) as Hlc.
    apply Add_preserves in Hmod; [done|]. by eapply level_change_Inv.
Qed.

Lemma ProcSynthTrade_preserves px sz s b b' log :
  Inv b → Book.ProcSynthTrade px sz s b = Done b' log → Inv b'.
Proof.
  intros HI Hsyn. destruct (decide (s = Sd.None)) as [->|Hs]; [done|].
  destruct (lvls s b !! px) as [q|] eqn:Hq.
  - destruct (ProcSynthTrade_level_change px sz s b q (Inv_Tracked _ HI) Hq)
      as (b'' & Heq & Hlc).
    rewrite Heq in Hsyn. injection Hsyn as <- <-. by eapply level_change_Inv.
  - rewrite ProcSynthTrade_no_level in Hsyn by done. by injection Hsyn as <- <-.
Qed.

(** Every mutation keeps a consistent book consistent, as long as a
    [Cancel] reads back the record it has erased. *)
Lemma mutate_preserves mu b b' log :
  Inv b → reads_back mu b → mutate mu b = Done b' log → Inv b'.
Proof.
  intros HI Hread. destruct mu as [stale m|px sz s]; simpl in *.
  - unfold Book.Apply. destruct (MboSingle.action m) eqn:Hact.
    + by apply Add_preserves.
    + intros Hc. destruct (Cancel_preserves stale m b HI) as (b'' & log'' & Heq & ?).
      { by apply Hread. }
      rewrite Heq in Hc. by injection Hc as <- <-.
    + by apply Modify_preserves.
    + intros [= <- <-]. apply Inv_init.
    + by intros [= <- <-].
    + by intros [= <- <-].
    + by intros [= <- <-].
  - by apply ProcSynthTrade_preserves.
Qed.

Lemma Inv_book_two : Inv book_two.
Proof.
  apply (Add_preserves (ev Act.Add Sd.Ask 101 3 2)
           (state_of (Book.Add (ev Act.Add Sd.Bid 100 5 1) Book.init)) _ []);
    [|by vm_compute].
  apply (Add_preserves (ev Act.Add Sd.Bid 100 5 1) Book.init _ []);
    [apply Inv_init|by vm_compute].
Qed.


(** ** C3: the id index and the level queues *)

(** C3.  A [Cancel] that empties a level erases the id from the index
    and then reads through the erased iterator which level to remove.
    On the book with bid 1 at 100 and bid 2 at 99, the [Cancel] of the
    whole of order 1 keeps index and queues in agreement when that read
    yields the erased record.  When it yields the record of the other
    level, the level at 99 is removed while order 2 stays indexed and
    the emptied level at 100 stays; when it yields a side that is
    neither Bid nor Ask, the call throws with the emptied level in
    place. *)
Theorem cancel_emptying_level_breaks_index :
  Book.Apply (Book.mkPxAndSd 100 Sd.Bid) (ev Act.Cancel Sd.Bid 100 5 1) book_two_bids =
    Done (Book.mk {[2%N := Book.mkPxAndSd 99 Sd.Bid]} ∅
                  {[99 := [ev Act.Add Sd.Bid 99 3 2]]}) [] ∧
  Book.Apply (Book.mkPxAndSd 99 Sd.Bid) (ev Act.Cancel Sd.Bid 100 5 1) book_two_bids =
    Done (Book.mk {[2%N := Book.mkPxAndSd 99 Sd.Bid]} ∅ {[100 := []]}) [] ∧
  Book.Apply other_data (ev Act.Cancel Sd.Bid 100 5 1) book_two_bids =
    Threw InvalidSide
      (Book.mk {[2%N := Book.mkPxAndSd 99 Sd.Bid]} ∅
               {[100 := []; 99 := [ev Act.Add Sd.Bid 99 3 2]]}) [] ∧
  (∀ b', Book.Apply (Book.mkPxAndSd 99 Sd.Bid) (ev Act.Cancel Sd.Bid 100 5 1) book_two_bids = Done b' [] →
     is_Some (Book.ordsById_ b' !! 2%N) ∧
     ∀ s px q, lvls s b' !! px = Some q → 2%N ∉ ids_of q).
Proof.
  split_and!; [vm_compute; reflexivity..|].
  intros b'. assert (Heq : Book.Apply (Book.mkPxAndSd 99 Sd.Bid)
                     (ev Act.Cancel Sd.Bid 100 5 1) book_two_bids =
                   Done (Book.mk {[2%N := Book.mkPxAndSd 99 Sd.Bid]} ∅ {[100 := []]}) [])
    by (by vm_compute).
  rewrite Heq. intros [= <-]. split; [eexists; vm_compute; reflexivity|].
  intros [] px q; simpl.
  - by rewrite lookup_empty.
  - intros [_ <-]%lookup_singleton_Some. apply not_elem_of_nil.
  - by rewrite lookup_empty.
Qed.

(** ** C1: sizes of resting entries *)




(** ** C6, C9, C10: what single calls do to a queue *)

Lemma GetLvlOrd_middle l1 ord l2 ordId :
  MboSingle.orderId ord = ordId → ordId ∉ ids_of l1 →
  Book.GetLvlOrd (l1 ++ ord :: l2) ordId = Some (length l1, ord).
Proof.
  intros Hid. induction l1 as [|o l1 IH].
  - intros _. simpl. by rewrite bool_decide_eq_true_2.
  - rewrite ids_of_cons, not_elem_of_cons. intros [Hne Hnotin]. simpl.
    rewrite bool_decide_eq_false_2 by done. by rewrite IH.
Qed.

Lemma list_insert_middle {A} (l1 l2 : list A) x y :
  <[length l1 := y]> (l1 ++ x :: l2) = l1 ++ y :: l2.
Proof.
  replace (length l1) with (length l1 + 0)%nat at 1 by lia. by rewrite insert_app_r.
Qed.

(** C6. A [Modify] event for an indexed id that reports the recorded
    side and the recorded price returns without a diagnostic and changes
    nothing but the queue of that level: when the new size is strictly
    greater than the size of the entry, the entry leaves its place and
    the event is appended at the tail; otherwise the entry stays where
    it is, its size becomes the new size and its other fields stay as
    they are. *)
Theorem modify_same_price_position (stale : Book.PxAndSd) (b : Book.t) (m : MboSingle.t)
    (ps : Book.PxAndSd) (l1 l2 : list MboSingle.t) (ord : MboSingle.t) :
  MboSingle.action m = Act.Modify →
  Book.ordsById_ b !! MboSingle.orderId m = Some ps →
  MboSingle.side m = Book.side ps →
  MboSingle.price m = Book.price ps →
  lvls (Book.side ps) b !! Book.price ps = Some (l1 ++ ord :: l2) →
  MboSingle.orderId ord = MboSingle.orderId m →
  MboSingle.orderId m ∉ ids_of l1 →
  ∃ b', Book.Apply stale m b = Done b' [] ∧
    Book.ordsById_ b' = Book.ordsById_ b ∧
    (∀ s px, (s, px) ≠ (Book.side ps, Book.price ps) →
       lvls s b' !! px = lvls s b !! px) ∧
    lvls (Book.side ps) b' !! Book.price ps =
      Some (if bool_decide (MboSingle.size ord < MboSingle.size m)%N
            then l1 ++ l2 ++ [m]
            else l1 ++
                 MboSingle.mk (MboSingle.tsRecv ord) (MboSingle.tsEvent ord)
                   (MboSingle.rtype ord) (MboSingle.pubId ord) (MboSingle.instrId ord)
                   (MboSingle.action ord) (MboSingle.side ord) (MboSingle.price ord)
                   (MboSingle.size m) (MboSingle.chanId ord) (MboSingle.orderId ord)
                   (MboSingle.flags ord) (MboSingle.tsInDelta ord)
                   (MboSingle.sequence ord) (MboSingle.symbol ord) :: l2).
Proof.
  intros Hact Hps Hside Hpx Hq Hord Hl1.
  pose proof (lvls_Some_side _ _ _ _ Hq) as Hs.
  pose proof (GetLvlOrd_middle l1 ord l2 _ Hord Hl1) as Hfind.
  unfold Book.Apply. rewrite Hact.
  rewrite (Modify_eq _ _ _ _ _ _ Hps (eq_sym Hside) Hq Hfind). cbv zeta.
  rewrite bool_decide_eq_false_2 by naive_solver.
  assert (Hframe : ∀ L s px, (s, px) ≠ (Book.side ps, Book.price ps) →
            lvls s (Book.SetSdOrds (Book.side ps)
                      (<[Book.price ps := L]> (lvls (Book.side ps) b)) b) !! px
            = lvls s b !! px).
  { intros L s px Hne. rewrite lvls_SetSdOrds by done. case_decide; [|done].
    subst s. apply lookup_insert_ne. congruence. }
  destruct (bool_decide_reflect (MboSingle.size ord < MboSingle.size m)%N);
    (eexists; split_and!; [done|apply ordsById_SetSdOrds|apply Hframe|]).
  - rewrite lvls_SetSdOrds, decide_True, lookup_insert_eq by done.
    by rewrite delete_middle, <-(assoc_L (++)).
  - rewrite lvls_SetSdOrds, decide_True, lookup_insert_eq by done.
    by rewrite list_insert_middle.
Qed.

Lemma modify_same_price_position_witness :
  (∃ b', Book.Apply other_data (ev Act.Modify Sd.Bid 100 9 2) book_queue3 = Done b' [] ∧
     lvls Sd.Bid b' !! 100 =
       Some [ev Act.Add Sd.Bid 100 5 1; ev Act.Add Sd.Bid 100 7 3;
             ev Act.Modify Sd.Bid 100 9 2]) ∧
  (∃ b', Book.Apply other_data (ev Act.Modify Sd.Bid 100 4 2) book_queue3 = Done b' [] ∧
     lvls Sd.Bid b' !! 100 =
       Some [ev Act.Add Sd.Bid 100 5 1; ev Act.Add Sd.Bid 100 4 2;
             ev Act.Add Sd.Bid 100 7 3]).
Proof.
  split.
  - destruct (modify_same_price_position other_data book_queue3
                (ev Act.Modify Sd.Bid 100 9 2) (Book.mkPxAndSd 100 Sd.Bid)
                [ev Act.Add Sd.Bid 100 5 1] [ev Act.Add Sd.Bid 100 7 3]
                (ev Act.Add Sd.Bid 100 6 2))
      as (b' & Heq & _ & _ & Hlvl);
      [reflexivity|vm_compute; reflexivity|reflexivity|reflexivity|
       vm_compute; reflexivity|reflexivity|by vm_compute; intros ?%list_elem_of_singleton|].
    exists b'. split; [exact Heq|exact Hlvl].
  - destruct (modify_same_price_position other_data book_queue3
                (ev Act.Modify Sd.Bid 100 4 2) (Book.mkPxAndSd 100 Sd.Bid)
                [ev Act.Add Sd.Bid 100 5 1] [ev Act.Add Sd.Bid 100 7 3]
                (ev Act.Add Sd.Bid 100 6 2))
      as (b' & Heq & _ & _ & Hlvl);
      [reflexivity|vm_compute; reflexivity|reflexivity|reflexivity|
       vm_compute; reflexivity|reflexivity|by vm_compute; intros ?%list_elem_of_singleton|].
    exists b'. split; [exact Heq|exact Hlvl].
Defined.

(** In a consistent book that does not index the id, an [Add] on a
    proper side followed by a [Cancel] of the same id and the same size
    returns the book it started from, as long as the level held orders
    before the [Add] or the [Cancel] reads back the record it erased. *)
Lemma add_then_cancel_restores (stale0 stale : Book.PxAndSd) (b : Book.t)
    (m c : MboSingle.t) :
  Inv b →
  Book.ordsById_ b !! MboSingle.orderId m = None →
  MboSingle.side m ≠ Sd.None →
  MboSingle.action m = Act.Add →
  MboSingle.action c = Act.Cancel →
  MboSingle.orderId c = MboSingle.orderId m →
  MboSingle.size c = MboSingle.size m →
  (lvls (MboSingle.side m) b !! MboSingle.price m = None →
   stale = Book.mkPxAndSd (MboSingle.price m) (MboSingle.side m)) →
  mutate_all [MEvent stale0 m; MEvent stale c] b = Done b [].
Proof.
  intros HI Hfresh Hs Hadd Hcancel Hid Hsz Hstale.
  simpl. unfold Book.Apply. rewrite Hadd, Hcancel, Add_eq by done.
  set (s := MboSingle.side m) in *. set (px := MboSingle.price m) in *.
  set (L := lvls s b) in *. set (q := default [] (L !! px)).
  assert (Hq : MboSingle.orderId m ∉ ids_of q).
  { subst q L. destruct (lvls s b !! px) as [q0|] eqn:Hq0; simpl.
    - intros Hin. pose proof (inv_queued b HI _ _ _ _ Hq0 Hin). congruence.
    - apply not_elem_of_nil. }
  rewrite (Cancel_put_level stale c _ (Book.mkPxAndSd px s) (q ++ [m]) (length q) m).
  - rewrite Hsz, bool_decide_eq_true_2 by lia.
    rewrite bool_decide_eq_false_2 by lia. simpl. f_equal.
    rewrite Hid. book_norm. rewrite delete_id by done.
    rewrite delete_middle, app_nil_r.
    assert (put_level px q (<[px := q ++ [m]]> L) = L) as ->.
    { subst q. unfold put_level. destruct (L !! px) as [[|o q0]|] eqn:HL; simpl.
      - by destruct (inv_nonempty b HI s px).
      - by rewrite insert_insert_eq, insert_id.
      - by rewrite delete_insert_id. }
    subst L s. by destruct b, (MboSingle.side m).
  - rewrite Hid. simpl. apply lookup_insert_eq.
  - simpl. book_norm. apply lookup_insert_eq.
  - rewrite Hid. by apply GetLvlOrd_middle.
  - intros _. rewrite delete_middle, app_nil_r. intros Hnil. apply Hstale.
    subst q. destruct (L !! px) as [[|o q0]|] eqn:HL; simpl in Hnil; [|done..].
    by destruct (inv_nonempty b HI s px).
Qed.

(** C9.  On the empty book, the [Add] of order 7 at bid 100 followed by
    the [Cancel] of the same id and size: the [Cancel] empties the level
    the [Add] created, erases the id from the index and then reads
    through the erased iterator which level to remove.  The pair returns
    the empty book when that read yields the erased record.  When it
    yields another record the emptied level stays in the book, and when
    it yields a side that is neither Bid nor Ask the [Cancel] throws
    with the emptied level in place. *)
Theorem add_then_cancel_leaves_level :
  mutate_all [MEvent other_data (ev Act.Add Sd.Bid 100 4 7);
              MEvent (Book.mkPxAndSd 100 Sd.Bid) (ev Act.Cancel Sd.Bid 100 4 7)]
    Book.init = Done Book.init [] ∧
  mutate_all [MEvent other_data (ev Act.Add Sd.Bid 100 4 7);
              MEvent (Book.mkPxAndSd 99 Sd.Bid) (ev Act.Cancel Sd.Bid 100 4 7)]
    Book.init = Done (Book.mk ∅ ∅ {[100 := []]}) [] ∧
  mutate_all [MEvent other_data (ev Act.Add Sd.Bid 100 4 7);
              MEvent other_data (ev Act.Cancel Sd.Bid 100 4 7)]
    Book.init = Threw InvalidSide (Book.mk ∅ ∅ {[100 := []]}) [] ∧
  Book.mk ∅ ∅ {[100 := []]} ≠ Book.init.
Proof.
  split_and!; [vm_compute; reflexivity..|].
  intros Heq. apply (f_equal (λ b, Book.bids_ b !! 100)) in Heq. by vm_compute in Heq.
Qed.

Lemma synth_loop_exhaust q sz ids :
  (total_size q < sz)%N →
  (Book.synth_loop q sz ids).1 = [] ∧
  ∀ id, (Book.synth_loop q sz ids).2 !! id =
    if decide (id ∈ ids_of q) then None else ids !! id.
Proof.
  revert sz ids. induction q as [|o q IH]; intros sz ids Hsz.
  { split; [done|]. intros id. case_decide as Hin; [|done].
    by apply elem_of_nil in Hin. }
  cbn [total_size foldr] in Hsz. fold (total_size q) in Hsz. cbn [Book.synth_loop].
  rewrite bool_decide_eq_true_2 by lia. rewrite bool_decide_eq_true_2 by lia.
  destruct (IH (sz - MboSingle.size o)%N (delete (MboSingle.orderId o) ids))
    as [Hq Hids]; [lia|].
  split; [done|]. intros id. rewrite Hids, ids_of_cons.
  destruct (decide (id = MboSingle.orderId o)) as [->|Hne].
  - rewrite lookup_delete_eq, (decide_True (P := _ ∈ _ :: _)).
    + by case_decide.
    + apply elem_of_cons. by left.
  - rewrite lookup_delete_ne by done. case_decide as Hin.
    + rewrite decide_True; [done|]. apply elem_of_cons. by right.
    + rewrite decide_False; [done|]. rewrite elem_of_cons. tauto.
Qed.

(** C10. A synthetic trade at an existing level whose size exceeds the
    sum of the sizes queued there returns without writing a diagnostic;
    afterwards the level is gone, every other level on both sides is as
    before, the ids that were queued at the level are no longer
    indexed, and every other id is indexed as before.  The excess size
    leaves no trace. *)
Theorem synth_trade_larger_than_level (b : Book.t) (s : Sd.type) (px : Z)
    (q : list MboSingle.t) (sz : N) :
  lvls s b !! px = Some q →
  (total_size q < sz)%N →
  ∃ b', Book.ProcSynthTrade px sz s b = Done b' [] ∧
    lvls s b' !! px = None ∧
    (∀ s' px', (s', px') ≠ (s, px) → lvls s' b' !! px' = lvls s' b !! px') ∧
    (∀ id, Book.ordsById_ b' !! id =
       if decide (id ∈ ids_of q) then None else Book.ordsById_ b !! id).
Proof.
  intros Hq Hsz. pose proof (lvls_Some_side _ _ _ _ Hq) as Hs.
  rewrite (ProcSynthTrade_eq _ _ _ _ _ Hq).
  destruct (synth_loop_exhaust q sz (Book.ordsById_ b) Hsz) as [-> Hids].
  eexists. split_and!; [done| | |].
  - rewrite lvls_set_ordsById, lvls_SetSdOrds, decide_True by done.
    apply lookup_delete_eq.
  - intros s' px' Hne. rewrite lvls_set_ordsById, lvls_SetSdOrds by done.
    case_decide; [|done]. subst s'. apply lookup_delete_ne. congruence.
  - intros id. apply Hids.
Qed.

Lemma synth_trade_larger_than_level_witness :
  ∃ b', Book.ProcSynthTrade 100 6 Sd.Bid book_two = Done b' [] ∧
    lvls Sd.Bid b' !! 100 = None ∧
    lvls Sd.Ask b' !! 101 = lvls Sd.Ask book_two !! 101 ∧
    Book.ordsById_ b' !! 1%N = None ∧
    Book.ordsById_ b' !! 2%N = Book.ordsById_ book_two !! 2%N.
Proof.
  destruct (synth_trade_larger_than_level book_two Sd.Bid 100
              [ev Act.Add Sd.Bid 100 5 1] 6)
    as (b' & Heq & Hgone & Hframe & Hidx);
    [vm_compute; reflexivity|vm_compute; reflexivity|].
  exists b'. split_and!; [exact Heq|exact Hgone| | |].
  - apply Hframe. discriminate.
  - exact (Hidx 1%N).
  - exact (Hidx 2%N).
Defined.

(** ** The driver loop: C2, C7, C8 *)

Lemma Book_ProcSynthTrade_returns px sz s b :
  s ≠ Sd.None → ∃ b' log, Book.ProcSynthTrade px sz s b = Done b' log.
Proof.
  intros Hs. destruct (lvls s b !! px) as [q|] eqn:Hq.
  - rewrite (ProcSynthTrade_eq _ _ _ _ _ Hq). eauto.
  - rewrite ProcSynthTrade_no_level by done. eauto.
Qed.

Lemma Market_ProcSynthTrade_returns instrId pubId px sz s mk :
  s ≠ Sd.None → ∃ mk' log, Market.ProcSynthTrade instrId pubId px sz s mk = Done mk' log.
Proof.
  intros Hs. unfold Market.ProcSynthTrade.
  destruct (Market.books_ mk !! instrId) as [pubs|]; [|by eauto].
  destruct (pubs !! pubId) as [book|]; [|by eauto].
  destruct (Book_ProcSynthTrade_returns px sz s book Hs) as (b' & log & ->). eauto.
Qed.

(** C2. A [Cancel] event whose order id has a pending Trade/Fill on
    side Bid or Ask makes one call of [Market::ProcSynthTrade], for the
    instrument and publisher of the [Cancel] event, at the price and
    with the size of the pending event, on the side opposite to the
    pending event's; the call returns, the iteration ends with the
    market that call produced and with the pending entry removed, and
    the one row it writes carries the level depth of the pending price
    on the affected side in that market.  When the market has a book
    for that instrument and publisher, the market produced is the old
    one with that book replaced by the result of [Book::ProcSynthTrade]
    on it. *)
Theorem cancel_after_pending_trade (stale : Book.PxAndSd) (st : Main.state)
    (m prior : MboSingle.t) :
  MboSingle.action m = Act.Cancel →
  Main.pendingTFs st !! MboSingle.orderId m = Some prior →
  MboSingle.side prior = Sd.Bid ∨ MboSingle.side prior = Sd.Ask →
  ∃ mk' log st' r,
    Market.ProcSynthTrade (MboSingle.instrId m) (MboSingle.pubId m)
      (MboSingle.price prior) (MboSingle.size prior)
      (opposite (MboSingle.side prior)) (Main.market st) = Done mk' log ∧
    Main.loop_body stale m st = Done st' log ∧
    Main.market st' = mk' ∧
    Main.pendingTFs st' = delete (MboSingle.orderId m) (Main.pendingTFs st) ∧
    Main.mbpOs st' = Main.mbpOs st ++ [r] ∧
    Main.mi r = m ∧
    Main.depth_val r =
      Market.GetLevelDepth (MboSingle.instrId m) (MboSingle.pubId m)
        (MboSingle.price prior) (opposite (MboSingle.side prior)) mk' ∧
    (∀ pubs book,
       Market.books_ (Main.market st) !! MboSingle.instrId m = Some pubs →
       pubs !! MboSingle.pubId m = Some book →
       ∃ book',
         Book.ProcSynthTrade (MboSingle.price prior) (MboSingle.size prior)
           (opposite (MboSingle.side prior)) book = Done book' log ∧
         mk' = Market.set_book (MboSingle.instrId m) (MboSingle.pubId m) book'
                 (Main.market st)).
Proof.
  intros Hact Hpend Hside. unfold Main.loop_body. rewrite Hact, Hpend.
  rewrite bool_decide_eq_false_2 by (by intros [? _]).
  rewrite bool_decide_eq_false_2 by (by intros [?|?]).
  rewrite bool_decide_eq_true_2 by done.
  destruct (Market_ProcSynthTrade_returns (MboSingle.instrId m) (MboSingle.pubId m)
              (MboSingle.price prior) (MboSingle.size prior)
              (opposite (MboSingle.side prior)) (Main.market st))
    as (mk' & log & Hsyn); [by destruct Hside as [-> | ->]|].
  assert (Hbook : ∀ pubs book,
            Market.books_ (Main.market st) !! MboSingle.instrId m = Some pubs →
            pubs !! MboSingle.pubId m = Some book →
            ∃ book',
              Book.ProcSynthTrade (MboSingle.price prior) (MboSingle.size prior)
                (opposite (MboSingle.side prior)) book = Done book' log ∧
              mk' = Market.set_book (MboSingle.instrId m) (MboSingle.pubId m) book'
                      (Main.market st)).
  { intros pubs book Hpubs Hpub. unfold Market.ProcSynthTrade in Hsyn.
    rewrite Hpubs, Hpub in Hsyn.
    destruct (Book.ProcSynthTrade _ _ _ book) as [book' log'|]; [|done].
    injection Hsyn as <- <-. by exists book'. }
  exists mk', log. destruct Hside as [Hs|Hs]; rewrite Hs in Hsyn, Hbook |- *;
    simpl in Hsyn; rewrite Hsyn; eexists _, _; by split_and!.
Qed.

Lemma cancel_after_pending_trade_witness :
  ∃ mk' st' r,
    Market.ProcSynthTrade 42 1 995 4 Sd.Bid (Main.market state_pending) = Done mk' [] ∧
    Main.loop_body other_data (ev Act.Cancel Sd.Ask 995 4 77) state_pending = Done st' [] ∧
    Main.market st' = mk' ∧
    Main.pendingTFs st' = delete 77%N (Main.pendingTFs state_pending) ∧
    Main.mbpOs st' = Main.mbpOs state_pending ++ [r] ∧
    Main.depth_val r = Market.GetLevelDepth 42 1 995 Sd.Bid mk'.
Proof.
  destruct (cancel_after_pending_trade other_data state_pending
              (ev Act.Cancel Sd.Ask 995 4 77)
              (ev Act.Trade Sd.Ask 995 4 77))
    as (mk' & log & st' & r & Hsyn & Hbody & Hmk & Hpend & Hrows & _ & Hdepth & _);
    [reflexivity|vm_compute; reflexivity|by right|].
  assert (log = []) as ->.
  { assert (Hlog : log_of (Market.ProcSynthTrade 42 1 995 4 Sd.Bid
                             (Main.market state_pending)) = []) by (by vm_compute).
    change (Market.ProcSynthTrade 42 1 995 4 Sd.Bid (Main.market state_pending)
            = Done mk' log) in Hsyn.
    by rewrite Hsyn in Hlog. }
  exists mk', st', r. split_and!; [exact Hsyn|exact Hbody|exact Hmk|exact Hpend|
                                   exact Hrows|exact Hdepth].
Defined.

(** C8. An event with action [Trade] and side [None] writes one row
    with depth 0 and leaves the market and the pending Trade/Fill map
    exactly as they were; it writes no diagnostic. *)
Theorem trade_side_none_frame (stale : Book.PxAndSd) (st : Main.state)
    (m : MboSingle.t) :
  MboSingle.action m = Act.Trade →
  MboSingle.side m = Sd.None →
  ∃ st' r,
    Main.loop_body stale m st = Done st' [] ∧
    Main.market st' = Main.market st ∧
    Main.pendingTFs st' = Main.pendingTFs st ∧
    Main.mbpOs st' = Main.mbpOs st ++ [r] ∧
    Main.mi r = m ∧
    Main.depth_val r = 0%N.
Proof.
  intros Hact Hside. unfold Main.loop_body.
  rewrite bool_decide_eq_true_2 by done. eexists _, _. by split_and!.
Qed.

Lemma trade_side_none_frame_witness :
  ∃ st' r,
    Main.loop_body other_data (ev Act.Trade Sd.None 1000 1 77) state_pending = Done st' [] ∧
    Main.market st' = Main.market state_pending ∧
    Main.pendingTFs st' = Main.pendingTFs state_pending ∧
    Main.mbpOs st' = Main.mbpOs state_pending ++ [r] ∧
    Main.depth_val r = 0%N.
Proof.
  destruct (trade_side_none_frame other_data state_pending
              (ev Act.Trade Sd.None 1000 1 77))
    as (st' & r & Hbody & Hmk & Hpend & Hrows & _ & Hdepth); [reflexivity..|].
  exists st', r. split_and!; [exact Hbody|exact Hmk|exact Hpend|exact Hrows|exact Hdepth].
Defined.


Lemma Market_Apply_Threw stale m mk e b' log :
  Book.Apply stale m (target_book m mk) = Threw e b' log →
  Market.Apply stale m mk =
    Threw e (Market.set_book (MboSingle.instrId m) (MboSingle.pubId m) b' mk) log.
Proof. intros H. unfold Market.Apply. fold (target_book m mk). by rewrite H. Qed.

(** The loop on a prefix that completes, then on the rest with the
    reads that follow those of the prefix. *)
Lemma loop_app stale pre rest st0 st log0 :
  Main.loop stale pre st0 = Done st log0 →
  Main.loop stale (pre ++ rest) st0 =
    match Main.loop (λ k, stale (length pre + k)%nat) rest st with
    | Done s l => Done s (log0 ++ l)
    | Threw e s l => Threw e s (log0 ++ l)
    end.
Proof.
  revert stale st0 log0. induction pre as [|m pre IH]; intros stale st0 log0; simpl.
  { intros [= <- <-]. by destruct (Main.loop _ rest st0). }
  destruct (Main.loop_body (stale 0%nat) m st0) as [st1 log1|]; [|done].
  destruct (Main.loop _ pre st1) as [st2 log2|] eqn:Hpre; [|done].
  intros [= <- <-]. rewrite (IH _ _ _ Hpre).
  destruct (Main.loop _ rest st2); by rewrite (assoc_L (++)).
Qed.

(** C7. When the input has been processed up to some event without an
    exception, and that event is an [Add] whose order id is indexed in
    the book it is routed to, or a [Modify] whose side differs from the
    side indexed for its order id, then [Book::Add] or [Book::Modify]
    throws, nothing catches the exception, and the loop ends there: no
    row is written for the event or for any later one, and the fault
    writes no diagnostic of its own. *)
Theorem fatal_faults_abort (stale : nat → Book.PxAndSd) (st0 st : Main.state)
    (log0 : list warn) (pre rest : list MboSingle.t) (m : MboSingle.t) :
  Main.loop stale pre st0 = Done st log0 →
  (MboSingle.action m = Act.Add ∧
   is_Some (Book.ordsById_ (target_book m (Main.market st)) !! MboSingle.orderId m)) ∨
  (MboSingle.action m = Act.Modify ∧
   ∃ ps, Book.ordsById_ (target_book m (Main.market st)) !! MboSingle.orderId m = Some ps ∧
         Book.side ps ≠ MboSingle.side m) →
  ∃ e st',
    Main.loop stale (pre ++ m :: rest) st0 = Threw e st' log0 ∧
    Main.mbpOs st' = Main.mbpOs st ∧
    (e = DupeID (MboSingle.orderId m) ∨ e = InvalidSide ∨
     e = ChangedSide (MboSingle.orderId m)).
Proof.
  intros Hpre Hfault. rewrite (loop_app _ _ _ _ _ _ Hpre). simpl.
  set (stale0 := stale (length pre + 0)%nat).
  assert (Hthrow : ∃ e b',
            Book.Apply stale0 m (target_book m (Main.market st)) = Threw e b' [] ∧
            (e = DupeID (MboSingle.orderId m) ∨ e = InvalidSide ∨
             e = ChangedSide (MboSingle.orderId m))).
  { unfold Book.Apply. destruct Hfault as [[Hact Hlive]|[Hact (ps & Hps & Hside)]];
      rewrite Hact.
    - destruct (Add_dupe_exn _ _ Hlive) as (e & b' & -> & He).
      exists e, b'. split; [done|]. tauto.
    - rewrite (Modify_changed_side _ _ _ Hps Hside). eexists _, _. split; [done|]. tauto. }
  destruct Hthrow as (e & b' & Hthrow & He).
  assert (Hact : MboSingle.action m = Act.Add ∨ MboSingle.action m = Act.Modify) by tauto.
  unfold Main.loop_body.
  rewrite bool_decide_eq_false_2 by (intros [? _]; destruct Hact; congruence).
  rewrite bool_decide_eq_false_2 by (intros [?|?]; destruct Hact; congruence).
  rewrite bool_decide_eq_false_2 by (intros ?; destruct Hact; congruence).
  rewrite (Market_Apply_Threw _ _ _ _ _ _ Hthrow).
  simpl. eexists _, _. split_and!; [by rewrite app_nil_r|done|done].
Qed.

Lemma fatal_faults_abort_witness :
  ∃ e st',
    Main.loop (λ _, other_data)
      ([ev Act.Add Sd.Bid 995 4 10] ++
       ev Act.Add Sd.Bid 990 1 10 :: [ev Act.Add Sd.Bid 991 1 11]) Main.init
      = Threw e st' [] ∧
    length (Main.mbpOs st') = 1%nat.
Proof.
  destruct (fatal_faults_abort (λ _, other_data) Main.init
              (state_of (Main.loop (λ _, other_data) [ev Act.Add Sd.Bid 995 4 10]
                           Main.init)) []
              [ev Act.Add Sd.Bid 995 4 10] [ev Act.Add Sd.Bid 991 1 11]
              (ev Act.Add Sd.Bid 990 1 10))
    as (e & st' & Hloop & Hrows & _).
  - vm_compute. reflexivity.
  - left. split; [reflexivity|]. vm_compute. eexists. reflexivity.
  - exists e, st'. split; [exact Hloop|]. rewrite Hrows. reflexivity.
Defined.

(** ** C4: aggregation across publishers *)

Lemma sum_at_app f p l1 l2 :
  sum_at f p (l1 ++ l2) = (sum_at f p l1 + sum_at f p l2)%N.
Proof.
  unfold sum_at. induction l1 as [|l l1 IH]; [done|].
  rewrite <-app_comm_cons. cbn [foldr]. rewrite IH. case_decide; lia.
Qed.

Lemma sum_at_absent f p ls : p ∉ PriceLvl.price <$> ls → sum_at f p ls = 0%N.
Proof.
  unfold sum_at. induction ls as [|l ls IH]; [done|].
  rewrite fmap_cons, not_elem_of_cons. intros [Hne Hnotin]. cbn [foldr].
  rewrite decide_False by done. by apply IH.
Qed.

Lemma sum_at_singleton f p l :
  sum_at f p [l] = if decide (PriceLvl.price l = p) then f l else 0%N.
Proof. unfold sum_at. cbn [foldr]. case_decide; lia. Qed.

Lemma agg_lvl_insert agg lvl :
  PriceLvl.price lvl ≠ UNDEFINED_PRICE →
  Market.agg_lvl agg lvl =
    <[PriceLvl.price lvl :=
        PriceLvl.mk (PriceLvl.price lvl)
          (wrap32 (PriceLvl.size (default PriceLvl.empty (agg !! PriceLvl.price lvl))
                   + PriceLvl.size lvl))
          (wrap32 (PriceLvl.count (default PriceLvl.empty (agg !! PriceLvl.price lvl))
                   + PriceLvl.count lvl))]> agg.
Proof.
  intros Hdef. unfold Market.agg_lvl, PriceLvl.IsEmpty.
  rewrite bool_decide_eq_false_2 by done. cbv zeta. unfold Market.upd_at.
  rewrite !lookup_insert_eq. simpl. by rewrite !insert_insert_eq.
Qed.

Lemma agg_lvl_step ls0 agg lvl :
  (∀ p, agg !! p = agg_of ls0 p) →
  ∀ p, Market.agg_lvl agg lvl !! p = agg_of (ls0 ++ [lvl]) p.
Proof.
  intros Hagg p. unfold agg_of. rewrite filter_app.
  destruct (decide (PriceLvl.price lvl = UNDEFINED_PRICE)) as [Hund|Hdef].
  { rewrite filter_cons_False, filter_nil, app_nil_r by naive_solver.
    unfold Market.agg_lvl, PriceLvl.IsEmpty. rewrite bool_decide_eq_true_2 by done.
    apply Hagg. }
  rewrite filter_cons_True, filter_nil by done.
  rewrite agg_lvl_insert by done.
  set (cs := filter _ ls0). rewrite fmap_app, !sum_at_app, !sum_at_singleton.
  pose proof (Hagg (PriceLvl.price lvl)) as Hpx. unfold agg_of in Hpx. fold cs in Hpx.
  destruct (decide (p = PriceLvl.price lvl)) as [->|Hne].
  - rewrite lookup_insert_eq, decide_True by (apply elem_of_app; right; by left).
    rewrite !decide_True by done. f_equal. rewrite Hpx.
    case_decide as Hin; simpl.
    + by rewrite !wrap32_add_l.
    + by rewrite !(sum_at_absent _ _ cs) by done.
  - rewrite lookup_insert_ne by done. rewrite Hagg. unfold agg_of. fold cs.
    rewrite !(decide_False (P := PriceLvl.price lvl = p)) by done. rewrite !N.add_0_r.
    destruct (decide (p ∈ PriceLvl.price <$> cs)) as [Hin|Hnotin].
    + rewrite decide_True; [done|]. apply elem_of_app. by left.
    + rewrite decide_False; [done|]. intros [?|Hin]%elem_of_app; [done|].
      by apply list_elem_of_singleton in Hin.
Qed.

Lemma agg_lvl_foldl ls ls0 agg :
  (∀ p, agg !! p = agg_of ls0 p) →
  ∀ p, foldl Market.agg_lvl agg ls !! p = agg_of (ls0 ++ ls) p.
Proof.
  revert ls0 agg. induction ls as [|l ls IH]; intros ls0 agg Hagg p.
  - by rewrite app_nil_r.
  - simpl. rewrite (IH (ls0 ++ [l])); [by rewrite <-(assoc_L (++))|].
    by apply agg_lvl_step.
Qed.

Lemma agg_books_foldl lvls_of pubs agg :
  foldl (λ agg (pair : N * Book.t), foldl Market.agg_lvl agg (lvls_of pair.2)) agg pubs =
  foldl Market.agg_lvl agg (concat ((λ pair : N * Book.t, lvls_of pair.2) <$> pubs)).
Proof.
  revert agg. induction pubs as [|pair pubs IH]; intros agg; [done|].
  simpl. by rewrite foldl_app, IH.
Qed.

(** The aggregate map of an instrument. *)
Lemma agg_books_lookup lvls_of instrId mk p :
  match Market.books_ mk !! instrId with
  | Some pubs => Market.agg_books lvls_of (map_to_list pubs)
  | None => ∅
  end !! p = agg_of (levels_of_instrument lvls_of instrId mk) p.
Proof.
  unfold levels_of_instrument. destruct (Market.books_ mk !! instrId) as [pubs|]; simpl.
  - unfold Market.agg_books. rewrite agg_books_foldl.
    by rewrite (agg_lvl_foldl _ []).
  - by rewrite map_to_list_empty.
Qed.

Lemma CalcPriceLvl_eq px q :
  Book.CalcPriceLvl px q =
    PriceLvl.mk px (wrap32 (total_size q)) (wrap32 (N.of_nat (length q))).
Proof.
  unfold Book.CalcPriceLvl.
  assert (H : ∀ sz cnt,
            foldl (λ res ord,
               PriceLvl.mk (PriceLvl.price res)
                 (wrap32 (PriceLvl.size res + MboSingle.size ord))
                 (wrap32 (PriceLvl.count res + 1)))
              (PriceLvl.mk px (wrap32 sz) (wrap32 cnt)) q =
            PriceLvl.mk px (wrap32 (sz + total_size q))
                           (wrap32 (cnt + N.of_nat (length q)))).
  { induction q as [|o q IH]; intros sz cnt.
    - simpl. by rewrite !N.add_0_r.
    - cbn [foldl PriceLvl.price PriceLvl.size PriceLvl.count].
      rewrite !wrap32_add_l, IH. cbn [total_size foldr length]. fold (total_size q).
      f_equal; f_equal; lia. }
  apply (H 0%N 0%N).
Qed.

Lemma levels_eq_level_view (L : gmap Z (list MboSingle.t)) n
    (its : list (Z * list MboSingle.t)) :
  (∀ k q, (k, q) ∈ its → L !! k = Some q) →
  (λ it, Book.CalcPriceLvl it.1 it.2) <$> take n its = level_view L <$> take n its.*1.
Proof.
  intros Hits. rewrite <-fmap_take, <-list_fmap_compose.
  apply list_fmap_ext. intros i [k q] Hi. simpl.
  apply lookup_take_Some in Hi as [Hi _]. apply list_elem_of_lookup_2 in Hi.
  unfold level_view. rewrite (Hits _ _ Hi). apply CalcPriceLvl_eq.
Qed.

Lemma GetBidLvls_eq n b :
  Book.GetBidLvls n b = level_view (Book.bids_ b) <$> take n (bid_prices b).
Proof.
  apply levels_eq_level_view. intros k q. by rewrite elem_of_rbegin_to_rend.
Qed.

Lemma GetAskLvls_eq n b :
  Book.GetAskLvls n b = level_view (Book.offers_ b) <$> take n (ask_prices b).
Proof.
  apply levels_eq_level_view. intros k q. by rewrite elem_of_begin_to_end.
Qed.

Lemma agg_of_Some ls p l :
  agg_of ls p = Some l →
  PriceLvl.price l = p ∧
  PriceLvl.size l =
    wrap32 (sum_at PriceLvl.size p (filter (λ l, PriceLvl.price l ≠ UNDEFINED_PRICE) ls)) ∧
  PriceLvl.count l =
    wrap32 (sum_at PriceLvl.count p (filter (λ l, PriceLvl.price l ≠ UNDEFINED_PRICE) ls)).
Proof. unfold agg_of. case_decide; [|done]. by intros [= <-]. Qed.

Lemma agg_of_is_Some ls p :
  is_Some (agg_of ls p) ↔
  p ∈ PriceLvl.price <$> filter (λ l, PriceLvl.price l ≠ UNDEFINED_PRICE) ls.
Proof.
  unfold agg_of. case_decide; split; try done; by intros [??].
Qed.

(** The values of an aggregate map, listed along a traversal [its] of
    it, aggregate the contributions that went into the map. *)
Lemma agg_traversal (agg : gmap Z PriceLvl.t) ls (its : list (Z * PriceLvl.t)) :
  (∀ p, agg !! p = agg_of ls p) →
  (∀ k v, (k, v) ∈ its ↔ agg !! k = Some v) →
  PriceLvl.price <$> its.*2 = its.*1 ∧
  aggregates its.*2 (filter (λ l, PriceLvl.price l ≠ UNDEFINED_PRICE) ls).
Proof.
  intros Hagg Hits.
  assert (Hprices : PriceLvl.price <$> its.*2 = its.*1).
  { rewrite <-list_fmap_compose. apply list_fmap_ext. intros i [k v] Hi. simpl.
    apply list_elem_of_lookup_2, Hits in Hi. rewrite Hagg in Hi.
    by apply agg_of_Some in Hi as [? _]. }
  split; [done|]. split.
  - intros p. rewrite Hprices, <-agg_of_is_Some, <-Hagg. rewrite list_elem_of_fmap.
    split.
    + intros ([k v] & -> & Hin). apply Hits in Hin. by eexists.
    + intros [v Hv]. exists (p, v). split; [done|]. by apply Hits.
  - intros l ([k v] & -> & Hin)%list_elem_of_fmap. simpl.
    apply Hits in Hin. rewrite Hagg in Hin.
    by apply agg_of_Some in Hin as (-> & ? & ?).
Qed.

(** C4, the claim as stated fails.  A level at the undefined price is
    among the best levels of its book, yet the aggregation leaves it
    out; and two publishers with 2^31 each at one price aggregate to
    size 0, not to the sum 2^32. *)
Lemma aggregation_differs_from_description :
  (Market.GetAggAskLvls 42 1 market_undefined_ask
     ≠ described_agg_ask_levels 42 1 market_undefined_ask ∧
   Book.GetAskLvls 1 (target_book (ev Act.Add Sd.Ask UNDEFINED_PRICE 1 1)
                        market_undefined_ask)
     = [PriceLvl.mk UNDEFINED_PRICE 1 1] ∧
   described_agg_ask_levels 42 1 market_undefined_ask = [PriceLvl.mk UNDEFINED_PRICE 1 1] ∧
   Market.GetAggAskLvls 42 1 market_undefined_ask = []) ∧
  (Market.GetAggBidLvls 42 2 market_two_large_bids
     ≠ described_agg_bid_levels 42 2 market_two_large_bids ∧
   described_agg_bid_levels 42 2 market_two_large_bids = [PriceLvl.mk 100 (2 ^ 32) 2] ∧
   Market.GetAggBidLvls 42 2 market_two_large_bids = [PriceLvl.mk 100 0 2]).
Proof. split_and!; by vm_compute. Qed.

(** C4, amended.  For every market, instrument and [n]: a book hands
    over the views of its [n] best bid levels, fewer when it has fewer.
    The aggregated bid levels are the first [n] of a list of levels
    whose prices are strictly descending and which aggregates the
    contributions of the instrument's publishers -- what their books
    hand over, except a level at the undefined price: the list has one
    level for each price that is contributed, with the sum of the
    contributed sizes and the sum of the contributed order counts, each
    modulo 2^32.  The aggregated ask levels are the same with strictly
    ascending prices and the best ask levels.  A market without the
    instrument has no contributions. *)
Theorem aggregated_levels (mk : Market.t) (instrId : N) (n : nat) :
  (∀ b, Book.GetBidLvls n b = level_view (Book.bids_ b) <$> take n (bid_prices b)) ∧
  (∀ b, Book.GetAskLvls n b = level_view (Book.offers_ b) <$> take n (ask_prices b)) ∧
  (∃ agg,
     Market.GetAggBidLvls instrId n mk = take n agg ∧
     StronglySorted Z.gt (PriceLvl.price <$> agg) ∧
     aggregates agg (contributions (Book.GetBidLvls n) instrId mk)) ∧
  (∃ agg,
     Market.GetAggAskLvls instrId n mk = take n agg ∧
     StronglySorted Z.lt (PriceLvl.price <$> agg) ∧
     aggregates agg (contributions (Book.GetAskLvls n) instrId mk)) ∧
  (Market.books_ mk !! instrId = None →
     ∀ lvls_of, contributions lvls_of instrId mk = []).
Proof.
  split_and!.
  - intros b. apply GetBidLvls_eq.
  - intros b. apply GetAskLvls_eq.
  - unfold Market.GetAggBidLvls.
    set (agg := match Market.books_ mk !! instrId with
                | Some pubs => Market.agg_books (Book.GetBidLvls n) (map_to_list pubs)
                | None => ∅
                end).
    exists (rbegin_to_rend agg).*2.
    destruct (agg_traversal agg (levels_of_instrument (Book.GetBidLvls n) instrId mk)
                (rbegin_to_rend agg)) as [Hprices Haggr].
    { apply agg_books_lookup. }
    { apply elem_of_rbegin_to_rend. }
    split_and!; [by rewrite fmap_take| |done].
    rewrite Hprices. apply rbegin_to_rend_sorted.
  - unfold Market.GetAggAskLvls.
    set (agg := match Market.books_ mk !! instrId with
                | Some pubs => Market.agg_books (Book.GetAskLvls n) (map_to_list pubs)
                | None => ∅
                end).
    exists (begin_to_end agg).*2.
    destruct (agg_traversal agg (levels_of_instrument (Book.GetAskLvls n) instrId mk)
                (begin_to_end agg)) as [Hprices Haggr].
    { apply agg_books_lookup. }
    { apply elem_of_begin_to_end. }
    split_and!; [by rewrite fmap_take| |done].
    rewrite Hprices. apply begin_to_end_sorted.
  - intros Hnone lvls_of. unfold contributions, levels_of_instrument.
    rewrite Hnone. simpl. by rewrite map_to_list_empty.
Qed.

(** ** The model on the end-to-end scenarios *)

(** Add / Cancel round trip, the [Cancel] reading back the record it
    erased: after the first row the best bid is 5 @ 100.0 in one order;
    after the second the bid side is empty and the depth is 0. *)
Example scenario_add_cancel :
  let out := Main.loop (λ _, Book.mkPxAndSd 100000000000 Sd.Bid)
               [ev Act.Add Sd.Bid 100000000000 5 1;
                ev Act.Cancel Sd.Bid 100000000000 5 1] Main.init in
  out = Done (state_of out) [] ∧
  (λ r, (Main.depth_val r, Main.bl r)) <$> Main.mbpOs (state_of out) =
    [(0%N, [PriceLvl.mk 100000000000 5 1]); (0%N, [])].
Proof. split; vm_compute; reflexivity. Qed.

(** Modify to another price: one ask level at 102.0 with size 5 in two
    orders, order 2 ahead of order 1. *)
Example scenario_modify_move :
  let out := mutate_all [MEvent other_data (ev Act.Add Sd.Ask 101000000000 2 1);
                         MEvent other_data (ev Act.Add Sd.Ask 102000000000 3 2);
                         MEvent other_data (ev Act.Modify Sd.Ask 102000000000 2 1)]
               Book.init in
  out = Done (state_of out) [] ∧
  Book.GetAskLvls 10 (state_of out) = [PriceLvl.mk 102000000000 5 2] ∧
  ids_of <$> Book.offers_ (state_of out) !! 102000000000 = Some [2%N; 1%N].
Proof. split_and!; vm_compute; reflexivity. Qed.

(** Trade, Fill, Cancel on one order id: the first two rows leave the
    book alone with depth 0; the Cancel row consumes the bid at 99.5,
    the level disappears and the depth query answers 0. *)
Example scenario_trade_fill_cancel :
  let out := Main.loop (λ _, other_data)
               [ev Act.Add Sd.Bid 99500000000 4 10;
                ev Act.Trade Sd.Ask 99500000000 4 77;
                ev Act.Fill Sd.Ask 99500000000 4 77;
                ev Act.Cancel Sd.Ask 99500000000 4 77] Main.init in
  out = Done (state_of out) [] ∧
  (λ r, (Main.depth_val r, Main.bl r)) <$> Main.mbpOs (state_of out) =
    [(0%N, [PriceLvl.mk 99500000000 4 1]); (0%N, [PriceLvl.mk 99500000000 4 1]);
     (0%N, [PriceLvl.mk 99500000000 4 1]); (0%N, [])] ∧
  Main.pendingTFs (state_of out) = ∅.
Proof. split_and!; vm_compute; reflexivity. Qed.

(** A Cancel for an unknown id on an empty book: a warning, depth 0,
    both sides empty. *)
Example scenario_unknown_cancel :
  let out := Main.loop (λ _, other_data)
               [ev Act.Cancel Sd.Bid 100000000000 1 999] Main.init in
  out = Done (state_of out) [WarnCancelUnkID 999] ∧
  (λ r, (Main.depth_val r, Main.bl r, Main.al r)) <$> Main.mbpOs (state_of out) =
    [(0%N, [], [])].
Proof. split; vm_compute; reflexivity. Qed.

(** Two publishers: 3 @ 100.0 and 2 @ 100.0, 1 @ 99.5 aggregate to
    5 @ 100.0 in two orders and 1 @ 99.5 in one. *)
Example scenario_two_publishers :
  let out := Main.loop (λ _, other_data)
               [ev_from 1 Act.Add Sd.Bid 100000000000 3 1;
                ev_from 2 Act.Add Sd.Bid 100000000000 2 2;
                ev_from 2 Act.Add Sd.Bid 99500000000 1 3] Main.init in
  out = Done (state_of out) [] ∧
  Market.GetAggBidLvls 42 2 (Main.market (state_of out)) =
    [PriceLvl.mk 100000000000 5 2; PriceLvl.mk 99500000000 1 1].
Proof. split; vm_compute; reflexivity. Qed.

(** * Further properties of the code *)

(** ** [Book::Add] *)

(** X1. [Add] returns exactly when the event's side is Bid or Ask and
    its order id is not indexed.  When it returns it has written no
    diagnostic, the id is indexed under the event's price and side, the
    event is the last entry of the queue at that price (a queue created
    for it when the level was absent), and every other level is as
    before. *)
Theorem add_returns_iff (m : MboSingle.t) (b : Book.t) :
  ((∃ b' log, Book.Add m b = Done b' log) ↔
   MboSingle.side m ≠ Sd.None ∧ Book.ordsById_ b !! MboSingle.orderId m = None) ∧
  (∀ b' log, Book.Add m b = Done b' log →
     log = [] ∧
     Book.ordsById_ b' =
       <[MboSingle.orderId m := Book.mkPxAndSd (MboSingle.price m) (MboSingle.side m)]>
         (Book.ordsById_ b) ∧
     lvls (MboSingle.side m) b' !! MboSingle.price m =
       Some (default [] (lvls (MboSingle.side m) b !! MboSingle.price m) ++ [m]) ∧
     (∀ s px, (s, px) ≠ (MboSingle.side m, MboSingle.price m) →
        lvls s b' !! px = lvls s b !! px)).
Proof.
  assert (Hcases :
    (MboSingle.side m ≠ Sd.None ∧ Book.ordsById_ b !! MboSingle.orderId m = None) ∨
    (∃ e b', Book.Add m b = Threw e b' [])).
  { destruct (decide (MboSingle.side m = Sd.None)) as [Hs|Hs].
    { right. rewrite Add_side_None by done. eauto. }
    destruct (Book.ordsById_ b !! MboSingle.orderId m) as [ps|] eqn:Hid.
    - right. destruct (Add_dupe_exn m b) as (e & b' & Heq & _); [by eexists|]. eauto.
    - by left. }
  split.
  - split.
    + intros (b' & log & Heq). destruct Hcases as [?|(e & b'' & Hthrow)]; [done|].
      congruence.
    + intros [Hs Hid]. rewrite Add_eq by done. eauto.
  - intros b' log Heq. destruct Hcases as [[Hs Hid]|(e & b'' & Hthrow)]; [|congruence].
    rewrite Add_eq in Heq by done. injection Heq as <- <-.
    split_and!; [done|done| |].
    + rewrite lvls_set_ordsById, lvls_SetSdOrds, decide_True by done.
      apply lookup_insert_eq.
    + intros s px Hne. rewrite lvls_set_ordsById, lvls_SetSdOrds by done.
      case_decide; [|done]. subst s. apply lookup_insert_ne. congruence.
Qed.

(** X2. [Add] appends before it checks the id: when it throws for a
    duplicate id on a proper side, the book it leaves behind has the
    event appended to the queue at its price while the index still
    holds the earlier record. *)
Theorem add_duplicate_leaves_entry (m : MboSingle.t) (b : Book.t) (ps : Book.PxAndSd) :
  MboSingle.side m ≠ Sd.None →
  Book.ordsById_ b !! MboSingle.orderId m = Some ps →
  ∃ b', Book.Add m b = Threw (DupeID (MboSingle.orderId m)) b' [] ∧
    Book.ordsById_ b' = Book.ordsById_ b ∧
    lvls (MboSingle.side m) b' !! MboSingle.price m =
      Some (default [] (lvls (MboSingle.side m) b !! MboSingle.price m) ++ [m]) ∧
    (∀ s px, (s, px) ≠ (MboSingle.side m, MboSingle.price m) →
       lvls s b' !! px = lvls s b !! px).
Proof.
  intros Hs Hps. unfold Book.Add, Book.GetOrInsLvl. rewrite GetSdOrds_lvls by done.
  assert (Hframe : ∀ L s px, (s, px) ≠ (MboSingle.side m, MboSingle.price m) →
            lvls s (Book.SetSdOrds (MboSingle.side m)
                      (<[MboSingle.price m := L]> (lvls (MboSingle.side m) b)) b) !! px
            = lvls s b !! px).
  { intros L s px Hne. rewrite lvls_SetSdOrds by done. case_decide; [|done].
    subst s. apply lookup_insert_ne. congruence. }
  destruct (lvls _ b !! _) as [q|] eqn:Hq; simpl.
  - book_norm. rewrite Hps. eexists. split_and!; [done|by book_norm| |apply Hframe].
    book_norm. apply lookup_insert_eq.
  - book_norm. rewrite Hps. eexists. split_and!; [done|by book_norm| |apply Hframe].
    book_norm. apply lookup_insert_eq.
Qed.

Lemma add_duplicate_leaves_entry_witness :
  ∃ b', Book.Add (ev Act.Add Sd.Bid 100 7 1) book_two = Threw (DupeID 1) b' [] ∧
    Book.ordsById_ b' = Book.ordsById_ book_two ∧
    lvls Sd.Bid b' !! 100 = Some [ev Act.Add Sd.Bid 100 5 1; ev Act.Add Sd.Bid 100 7 1].
Proof.
  destruct (add_duplicate_leaves_entry (ev Act.Add Sd.Bid 100 7 1) book_two
              (Book.mkPxAndSd 100 Sd.Bid))
    as (b' & Heq & Hidx & Hlvl & _); [discriminate|vm_compute; reflexivity|].
  exists b'. split_and!; [exact Heq|exact Hidx|exact Hlvl].
Defined.

(** ** [Book::Cancel] *)

(** X3. A [Cancel] for less than the remaining size of the entry leaves
    the entry at its place in the queue with its size reduced by the
    requested size; the index and every other level stay as they are
    and nothing is written to the diagnostics. *)
Theorem cancel_partial_keeps_place (stale : Book.PxAndSd) (b : Book.t) (m : MboSingle.t)
    (ps : Book.PxAndSd) (l1 l2 : list MboSingle.t) (ord : MboSingle.t) :
  Book.ordsById_ b !! MboSingle.orderId m = Some ps →
  lvls (Book.side ps) b !! Book.price ps = Some (l1 ++ ord :: l2) →
  MboSingle.orderId ord = MboSingle.orderId m →
  MboSingle.orderId m ∉ ids_of l1 →
  (MboSingle.size m < MboSingle.size ord)%N →
  ∃ b', Book.Cancel stale m b = Done b' [] ∧
    Book.ordsById_ b' = Book.ordsById_ b ∧
    lvls (Book.side ps) b' !! Book.price ps =
      Some (l1 ++ MboSingle.set_size (MboSingle.size ord - MboSingle.size m) ord :: l2) ∧
    (∀ s px, (s, px) ≠ (Book.side ps, Book.price ps) →
       lvls s b' !! px = lvls s b !! px).
Proof.
  intros Hps Hq Hord Hl1 Hlt. pose proof (lvls_Some_side _ _ _ _ Hq) as Hs.
  pose proof (GetLvlOrd_middle l1 ord l2 _ Hord Hl1) as Hfind.
  rewrite (Cancel_eq _ _ _ _ _ _ _ Hps Hq Hfind), bool_decide_eq_false_2 by lia.
  eexists. split_and!; [done|apply ordsById_SetSdOrds| |].
  - rewrite lvls_SetSdOrds, decide_True, lookup_insert_eq by done.
    by rewrite list_insert_middle.
  - intros s px Hne. rewrite lvls_SetSdOrds by done. case_decide; [|done].
    subst s. apply lookup_insert_ne. congruence.
Qed.

Lemma cancel_partial_keeps_place_witness :
  ∃ b', Book.Cancel other_data (ev Act.Cancel Sd.Bid 100 2 1) book_two = Done b' [] ∧
    lvls Sd.Bid b' !! 100 = Some [ev Act.Add Sd.Bid 100 3 1].
Proof.
  destruct (cancel_partial_keeps_place other_data book_two (ev Act.Cancel Sd.Bid 100 2 1)
              (Book.mkPxAndSd 100 Sd.Bid) [] [] (ev Act.Add Sd.Bid 100 5 1))
    as (b' & Heq & _ & Hlvl & _);
    [vm_compute; reflexivity|vm_compute; reflexivity|reflexivity|apply not_elem_of_nil|
     simpl; lia|].
  exists b'. split; [exact Heq|exact Hlvl].
Defined.

(** X4. On a consistent book [Cancel] never reports the internal error
    and never throws for an unknown level.  For an id that is not
    indexed it changes nothing and writes the unknown-id warning.  For
    an indexed id it writes the cap warning exactly when the requested
    size exceeds the remaining size of the entry, and it returns --
    unless the request empties the level and the read through the
    erased iterator yields a side that is neither Bid nor Ask: then it
    throws the invalid-side error, with the id out of the index and the
    emptied level still in the book. *)
Theorem cancel_outcomes (stale : Book.PxAndSd) (b : Book.t) (m : MboSingle.t) :
  Inv b →
  (Book.ordsById_ b !! MboSingle.orderId m = None →
     Book.Cancel stale m b = Done b [WarnCancelUnkID (MboSingle.orderId m)]) ∧
  (∀ ps, Book.ordsById_ b !! MboSingle.orderId m = Some ps →
     ∃ q i ord,
       lvls (Book.side ps) b !! Book.price ps = Some q ∧
       Book.GetLvlOrd q (MboSingle.orderId m) = Some (i, ord) ∧
       log_of (Book.Cancel stale m b) =
         (if bool_decide (MboSingle.size ord < MboSingle.size m)%N
          then [WarnCancelCap (MboSingle.orderId m)] else []) ∧
       ((MboSingle.size ord ≤ MboSingle.size m)%N → delete i q = [] →
        Book.side stale = Sd.None →
        ∃ b', Book.Cancel stale m b = Threw InvalidSide b' (log_of (Book.Cancel stale m b)) ∧
          Book.ordsById_ b' = delete (MboSingle.orderId m) (Book.ordsById_ b) ∧
          lvls (Book.side ps) b' !! Book.price ps = Some []) ∧
       ((MboSingle.size m < MboSingle.size ord)%N ∨ delete i q ≠ [] ∨
        Book.side stale ≠ Sd.None →
        ∃ b', Book.Cancel stale m b = Done b' (log_of (Book.Cancel stale m b)))).
Proof.
  intros HI. split; [by apply Cancel_unknown|].
  intros ps Hid. destruct (Inv_find _ _ _ HI Hid) as (q & i & ord & Hq & Hord).
  pose proof (lvls_Some_side _ _ _ _ Hq) as Hs.
  exists q, i, ord. split; [done|]. split; [done|].
  rewrite (Cancel_eq _ _ _ _ _ _ _ Hid Hq Hord).
  destruct (bool_decide_reflect (MboSingle.size ord ≤ MboSingle.size m)%N) as [Hle|Hgt].
  - destruct (delete i q) as [|o q'] eqn:Hdel.
    + destruct (decide (Book.side stale = Sd.None)) as [Hst|Hst].
      * unfold Book.RemLvlIfEmpty, Book.RemLvl. rewrite Hst. simpl.
        split_and!; [done| |intros [?|[?|?]]; [lia|done..]].
        intros _ _ _. eexists. split_and!; [done|done|].
        book_norm. apply lookup_insert_eq.
      * rewrite RemLvlIfEmpty_eq by done. simpl.
        split_and!; [done|done|]. intros _. by eexists.
    + unfold Book.RemLvlIfEmpty. simpl. split_and!; [done|done|]. intros _. by eexists.
  - simpl. rewrite bool_decide_eq_false_2 by lia.
    split_and!; [done|intros; lia|]. intros _. by eexists.
Qed.

Lemma cancel_outcomes_witness :
  (∃ b', Book.Cancel (Book.mkPxAndSd 100 Sd.Bid) (ev Act.Cancel Sd.Bid 100 9 1) book_two
           = Done b' [WarnCancelCap 1]) ∧
  (∃ b', Book.Cancel other_data (ev Act.Cancel Sd.Bid 100 9 1) book_two
           = Threw InvalidSide b' [WarnCancelCap 1] ∧
         lvls Sd.Bid b' !! 100 = Some []) ∧
  Book.Cancel other_data (ev Act.Cancel Sd.Bid 100 9 8) book_two
    = Done book_two [WarnCancelUnkID 8].
Proof.
  assert (Hfind : ∀ q i ord,
            lvls Sd.Bid book_two !! 100 = Some q →
            Book.GetLvlOrd q 1%N = Some (i, ord) →
            q = [ev Act.Add Sd.Bid 100 5 1] ∧ i = 0%nat ∧ ord = ev Act.Add Sd.Bid 100 5 1).
  { intros q i ord Hq Hord.
    assert (Hl : lvls Sd.Bid book_two !! 100 = Some [ev Act.Add Sd.Bid 100 5 1])
      by (vm_compute; reflexivity).
    rewrite Hl in Hq. injection Hq as <-. by injection Hord as <- <-. }
  split_and!.
  - destruct (cancel_outcomes (Book.mkPxAndSd 100 Sd.Bid) book_two
                (ev Act.Cancel Sd.Bid 100 9 1) Inv_book_two) as [_ Hknown].
    destruct (Hknown (Book.mkPxAndSd 100 Sd.Bid)) as (q & i & ord & Hq & Hord & Hlog & _ & Hret);
      [vm_compute; reflexivity|].
    destruct (Hfind _ _ _ Hq Hord) as (-> & -> & ->).
    destruct Hret as [b' Heq]; [right; right; discriminate|].
    exists b'. rewrite Heq. by f_equal.
  - destruct (cancel_outcomes other_data book_two
                (ev Act.Cancel Sd.Bid 100 9 1) Inv_book_two) as [_ Hknown].
    destruct (Hknown (Book.mkPxAndSd 100 Sd.Bid)) as (q & i & ord & Hq & Hord & Hlog & Hthrow & _);
      [vm_compute; reflexivity|].
    destruct (Hfind _ _ _ Hq Hord) as (-> & -> & ->).
    destruct Hthrow as (b' & Heq & _ & Hlvl); [simpl; lia|reflexivity|reflexivity|].
    exists b'. split; [|exact Hlvl]. rewrite Heq. by f_equal.
  - destruct (cancel_outcomes other_data book_two
                (ev Act.Cancel Sd.Bid 100 9 8) Inv_book_two) as [Hunk _].
    apply Hunk. vm_compute. reflexivity.
Defined.

(** ** [Book::Modify] *)

(** X5. A [Modify] for an indexed id that reports the recorded side and
    another price takes the entry out of the queue at the recorded
    price (the level goes when nothing is left there), appends the
    event itself -- with the size the event carries -- to the queue at
    the new price (created when absent), and re-indexes the id under
    the new price; no other level changes and nothing is logged. *)
Theorem modify_moves_to_new_price (b : Book.t) (m : MboSingle.t)
    (ps : Book.PxAndSd) (l1 l2 : list MboSingle.t) (ord : MboSingle.t) :
  Book.ordsById_ b !! MboSingle.orderId m = Some ps →
  MboSingle.side m = Book.side ps →
  MboSingle.price m ≠ Book.price ps →
  lvls (Book.side ps) b !! Book.price ps = Some (l1 ++ ord :: l2) →
  MboSingle.orderId ord = MboSingle.orderId m →
  MboSingle.orderId m ∉ ids_of l1 →
  ∃ b', Book.Modify m b = Done b' [] ∧
    Book.ordsById_ b' =
      <[MboSingle.orderId m := Book.mkPxAndSd (MboSingle.price m) (Book.side ps)]>
        (Book.ordsById_ b) ∧
    lvls (Book.side ps) b' !! Book.price ps =
      (match l1 ++ l2 with [] => None | _ :: _ => Some (l1 ++ l2) end) ∧
    lvls (Book.side ps) b' !! MboSingle.price m =
      Some (default [] (lvls (Book.side ps) b !! MboSingle.price m) ++ [m]) ∧
    (∀ s px, (s, px) ≠ (Book.side ps, Book.price ps) →
       (s, px) ≠ (Book.side ps, MboSingle.price m) →
       lvls s b' !! px = lvls s b !! px).
Proof.
  intros Hps Hside Hpx Hq Hord Hl1. pose proof (lvls_Some_side _ _ _ _ Hq) as Hs.
  pose proof (GetLvlOrd_middle l1 ord l2 _ Hord Hl1) as Hfind.
  rewrite (Modify_eq _ _ _ _ _ _ Hps (eq_sym Hside) Hq Hfind). cbv zeta.
  rewrite bool_decide_eq_true_2 by done. rewrite delete_middle.
  eexists. split_and!; [done|done| | |].
  - rewrite lvls_set_ordsById, lvls_SetSdOrds, decide_True by done.
    rewrite lookup_insert_ne by done. by rewrite put_level_lookup, decide_True.
  - rewrite lvls_set_ordsById, lvls_SetSdOrds, decide_True by done.
    rewrite lookup_insert_eq. by rewrite put_level_lookup, decide_False.
  - intros s px Hold Hnew. rewrite lvls_set_ordsById, lvls_SetSdOrds by done.
    case_decide; [|done]. subst s.
    rewrite lookup_insert_ne by congruence.
    rewrite put_level_lookup, decide_False; [done|]. congruence.
Qed.

Lemma modify_moves_to_new_price_witness :
  ∃ b', Book.Modify (ev Act.Modify Sd.Bid 99 4 1) book_two = Done b' [] ∧
    lvls Sd.Bid b' !! 100 = None ∧
    lvls Sd.Bid b' !! 99 = Some [ev Act.Modify Sd.Bid 99 4 1] ∧
    Book.ordsById_ b' !! 1%N = Some (Book.mkPxAndSd 99 Sd.Bid).
Proof.
  destruct (modify_moves_to_new_price book_two (ev Act.Modify Sd.Bid 99 4 1)
              (Book.mkPxAndSd 100 Sd.Bid) [] [] (ev Act.Add Sd.Bid 100 5 1))
    as (b' & Heq & Hidx & Hold & Hnew & _);
    [vm_compute; reflexivity|reflexivity|discriminate|vm_compute; reflexivity|
     reflexivity|apply not_elem_of_nil|].
  exists b'. split_and!; [exact Heq|exact Hold|exact Hnew|].
  rewrite Hidx. apply lookup_insert_eq.
Defined.

(** X6. On a consistent book [Modify] has three outcomes and no other:
    it returns without a diagnostic; or the id is indexed under another
    side and it throws the changed-side error; or the id is not indexed
    and the event has no proper side, and it throws the invalid-side
    error of the [Add] it falls back to.  In both faults the book is
    left unchanged, and the internal-error line and the unknown-level
    exception never occur. *)
Theorem modify_outcomes (b : Book.t) (m : MboSingle.t) :
  Inv b →
  (∃ b', Book.Modify m b = Done b' [] ∧
     (∀ ps, Book.ordsById_ b !! MboSingle.orderId m = Some ps →
            Book.side ps = MboSingle.side m) ∧
     (Book.ordsById_ b !! MboSingle.orderId m = None → MboSingle.side m ≠ Sd.None)) ∨
  (Book.Modify m b = Threw (ChangedSide (MboSingle.orderId m)) b [] ∧
     ∃ ps, Book.ordsById_ b !! MboSingle.orderId m = Some ps ∧
           Book.side ps ≠ MboSingle.side m) ∨
  (Book.Modify m b = Threw InvalidSide b [] ∧
     Book.ordsById_ b !! MboSingle.orderId m = None ∧ MboSingle.side m = Sd.None).
Proof.
  intros HI. destruct (Book.ordsById_ b !! MboSingle.orderId m) as [ps|] eqn:Hid.
  - destruct (decide (Book.side ps = MboSingle.side m)) as [Hside|Hside].
    + left. destruct (Inv_find _ _ _ HI Hid) as (q & i & ord & Hq & Hord).
      rewrite (Modify_eq _ _ _ _ _ _ Hid Hside Hq Hord). cbv zeta.
      repeat case_bool_decide; eexists; (split_and!; [done| |done]);
        by intros ps' [= <-].
    + right. left. split; [by apply (Modify_changed_side _ _ ps)|eauto].
  - rewrite Modify_unknown by done.
    destruct (decide (MboSingle.side m = Sd.None)) as [Hs|Hs].
    + right. right. by rewrite Add_side_None.
    + left. rewrite Add_eq by done. eexists. by split_and!.
Qed.

Lemma modify_outcomes_witness :
  Book.Modify (ev Act.Modify Sd.Ask 100 5 1) book_two = Threw (ChangedSide 1) book_two [] ∧
  Book.Modify (ev Act.Modify Sd.None 100 5 9) book_two = Threw InvalidSide book_two [].
Proof.
  pose proof Inv_book_two as HI.
  split.
  - destruct (modify_outcomes book_two (ev Act.Modify Sd.Ask 100 5 1) HI)
      as [(b' & _ & Hsame & _)|[[Heq _]|[_ [Hnone _]]]].
    + exfalso. specialize (Hsame (Book.mkPxAndSd 100 Sd.Bid)).
      assert (Sd.Bid = Sd.Ask) by (apply Hsame; vm_compute; reflexivity). discriminate.
    + exact Heq.
    + exfalso. vm_compute in Hnone. discriminate.
  - destruct (modify_outcomes book_two (ev Act.Modify Sd.None 100 5 9) HI)
      as [(b' & _ & _ & Hside)|[[_ (ps & Hps & _)]|[Heq _]]].
    + exfalso. apply Hside; [vm_compute; reflexivity|reflexivity].
    + exfalso. vm_compute in Hps. discriminate.
    + exact Heq.
Defined.

(** ** [Book::ProcSynthTrade] *)





(** ** Level queries: [GetBidLvl], [GetAskLvl], [Bbo] *)

Lemma level_at_traversal (L : gmap Z (list MboSingle.t)) (its : list (Z * list MboSingle.t))
    (idx : nat) :
  (∀ k q, (k, q) ∈ its → L !! k = Some q) →
  length its = size L →
  (if bool_decide (idx < size L)%nat then
     from_option (λ it, Book.CalcPriceLvl it.1 it.2) PriceLvl.empty (its !! idx)
   else PriceLvl.empty) =
  from_option (level_view L) PriceLvl.empty (its.*1 !! idx).
Proof.
  intros Hits Hlen. rewrite list_lookup_fmap. case_bool_decide as Hidx.
  - destruct (its !! idx) as [[k q]|] eqn:Hi; [|done]. simpl.
    apply list_elem_of_lookup_2, Hits in Hi. unfold level_view. rewrite Hi.
    apply CalcPriceLvl_eq.
  - rewrite lookup_ge_None_2 by lia. done.
Qed.

Lemma GetBidLvl_eq idx b :
  Book.GetBidLvl idx b =
    from_option (level_view (Book.bids_ b)) PriceLvl.empty (bid_prices b !! idx).
Proof.
  apply level_at_traversal.
  - intros k q. by rewrite elem_of_rbegin_to_rend.
  - unfold rbegin_to_rend. by rewrite length_reverse, begin_to_end_length.
Qed.

Lemma GetAskLvl_eq idx b :
  Book.GetAskLvl idx b =
    from_option (level_view (Book.offers_ b)) PriceLvl.empty (ask_prices b !! idx).
Proof.
  apply level_at_traversal.
  - intros k q. by rewrite elem_of_begin_to_end.
  - apply begin_to_end_length.
Qed.

(** X8. [GetBidLvl idx] is the view of the level at the [idx]-th best
    bid price -- the sum of the queued sizes and the number of queued
    orders, each modulo 2^32 -- and the default level with the
    undefined price when the side has no more than [idx] levels; it is
    the entry at [idx] of [GetBidLvls n] for every [n] above [idx].
    [GetAskLvl] is the same on the ask side. *)
Theorem level_at_index (b : Book.t) (idx : nat) :
  Book.GetBidLvl idx b =
    from_option (level_view (Book.bids_ b)) PriceLvl.empty (bid_prices b !! idx) ∧
  Book.GetAskLvl idx b =
    from_option (level_view (Book.offers_ b)) PriceLvl.empty (ask_prices b !! idx) ∧
  (∀ n, (idx < n)%nat →
     Book.GetBidLvl idx b = default PriceLvl.empty (Book.GetBidLvls n b !! idx) ∧
     Book.GetAskLvl idx b = default PriceLvl.empty (Book.GetAskLvls n b !! idx)) ∧
  ((size (Book.bids_ b) ≤ idx)%nat → Book.GetBidLvl idx b = PriceLvl.empty) ∧
  ((size (Book.offers_ b) ≤ idx)%nat → Book.GetAskLvl idx b = PriceLvl.empty).
Proof.
  split_and!.
  - apply GetBidLvl_eq.
  - apply GetAskLvl_eq.
  - intros n Hn. rewrite GetBidLvl_eq, GetAskLvl_eq, GetBidLvls_eq, GetAskLvls_eq.
    rewrite !list_lookup_fmap, !lookup_take_lt by done.
    split; by destruct (_ !! idx).
  - intros Hge. unfold Book.GetBidLvl. by rewrite bool_decide_eq_false_2 by lia.
  - intros Hge. unfold Book.GetAskLvl. by rewrite bool_decide_eq_false_2 by lia.
Qed.

Lemma sorted_head_bound (R : relation Z) (l : list Z) p k :
  StronglySorted R l → l !! 0%nat = Some p → k ∈ l → k = p ∨ R p k.
Proof.
  intros Hs Hp Hk. destruct l as [|x l]; [done|]. injection Hp as ->.
  apply StronglySorted_inv in Hs as [_ Hall]. apply elem_of_cons in Hk as [->|Hk].
  - by left.
  - right. rewrite Forall_forall in Hall. by apply Hall.
Qed.

(** X9. [Bbo] returns the views of the best level of each side: the
    bid level with the largest price and the ask level with the
    smallest price; a side without levels yields the default level with
    the undefined price. *)
Theorem bbo_is_best (b : Book.t) :
  (match bid_prices b !! 0%nat with
   | Some p => (Book.Bbo b).1 = level_view (Book.bids_ b) p ∧
               is_Some (Book.bids_ b !! p) ∧
               ∀ k, is_Some (Book.bids_ b !! k) → k ≤ p
   | None => (Book.Bbo b).1 = PriceLvl.empty ∧ Book.bids_ b = ∅
   end) ∧
  (match ask_prices b !! 0%nat with
   | Some p => (Book.Bbo b).2 = level_view (Book.offers_ b) p ∧
               is_Some (Book.offers_ b !! p) ∧
               ∀ k, is_Some (Book.offers_ b !! k) → p ≤ k
   | None => (Book.Bbo b).2 = PriceLvl.empty ∧ Book.offers_ b = ∅
   end).
Proof.
  unfold Book.Bbo. simpl. rewrite GetBidLvl_eq, GetAskLvl_eq. split.
  - destruct (bid_prices b !! 0%nat) as [p|] eqn:Hp.
    + split_and!; [done| |].
      * apply elem_of_rbegin_to_rend_keys. by eapply list_elem_of_lookup_2.
      * intros k Hk%elem_of_rbegin_to_rend_keys.
        destruct (sorted_head_bound Z.gt _ p k (rbegin_to_rend_sorted _) Hp Hk); lia.
    + split; [done|]. apply map_empty. intros k.
      destruct (Book.bids_ b !! k) as [q|] eqn:Hk; [|done].
      assert (Hin : k ∈ bid_prices b) by (apply elem_of_rbegin_to_rend_keys; eauto).
      destruct (bid_prices b); [by apply elem_of_nil in Hin|done].
  - destruct (ask_prices b !! 0%nat) as [p|] eqn:Hp.
    + split_and!; [done| |].
      * apply elem_of_begin_to_end_keys. by eapply list_elem_of_lookup_2.
      * intros k Hk%elem_of_begin_to_end_keys.
        destruct (sorted_head_bound Z.lt _ p k (begin_to_end_sorted _) Hp Hk); lia.
    + split; [done|]. apply map_empty. intros k.
      destruct (Book.offers_ b !! k) as [q|] eqn:Hk; [|done].
      assert (Hin : k ∈ ask_prices b) by (apply elem_of_begin_to_end_keys; eauto).
      destruct (ask_prices b); [by apply elem_of_nil in Hin|done].
Qed.

(** X10. Depth and level queries agree: on a side with at most 2^32
    levels, the level found at the depth reported for a price that has
    a level is the level of that price, and the depth reported for the
    price of the level at an index below the number of levels is that
    index. *)
Theorem depth_and_level_round_trip (b : Book.t) :
  (N.of_nat (size (Book.bids_ b)) ≤ 2 ^ 32)%N →
  (N.of_nat (size (Book.offers_ b)) ≤ 2 ^ 32)%N →
  (∀ px, is_Some (Book.bids_ b !! px) →
     Book.GetBidLvl (N.to_nat (Book.GetBidLevelDepth px b)) b
       = level_view (Book.bids_ b) px) ∧
  (∀ px, is_Some (Book.offers_ b !! px) →
     Book.GetAskLvl (N.to_nat (Book.GetAskLevelDepth px b)) b
       = level_view (Book.offers_ b) px) ∧
  (∀ idx, (idx < size (Book.bids_ b))%nat →
     Book.GetBidLevelDepth (PriceLvl.price (Book.GetBidLvl idx b)) b = N.of_nat idx) ∧
  (∀ idx, (idx < size (Book.offers_ b))%nat →
     Book.GetAskLevelDepth (PriceLvl.price (Book.GetAskLvl idx b)) b = N.of_nat idx).
Proof.
  intros Hbids Hasks.
  assert (Hblen : length (bid_prices b) = size (Book.bids_ b)).
  { unfold bid_prices, rbegin_to_rend.
    by rewrite length_fmap, length_reverse, begin_to_end_length. }
  assert (Halen : length (ask_prices b) = size (Book.offers_ b)).
  { unfold ask_prices. by rewrite length_fmap, begin_to_end_length. }
  split_and!.
  - intros px Hpx%elem_of_rbegin_to_rend_keys.
    apply list_elem_of_lookup in Hpx as [i Hi]. pose proof (lookup_lt_Some _ _ _ Hi).
    unfold bid_prices, ask_prices in *.
    rewrite (proj1 (depth_modulo b px i) Hi). rewrite wrap32_small by lia.
    rewrite Nat2N.id, GetBidLvl_eq. unfold bid_prices. by rewrite Hi.
  - intros px Hpx%elem_of_begin_to_end_keys.
    apply list_elem_of_lookup in Hpx as [i Hi]. pose proof (lookup_lt_Some _ _ _ Hi).
    unfold bid_prices, ask_prices in *.
    rewrite (proj2 (depth_modulo b px i) Hi). rewrite wrap32_small by lia.
    rewrite Nat2N.id, GetAskLvl_eq. unfold ask_prices. by rewrite Hi.
  - intros idx Hidx. rewrite GetBidLvl_eq.
    destruct (lookup_lt_is_Some_2 (bid_prices b) idx) as [p Hp]; [lia|].
    rewrite Hp. simpl.
    rewrite (proj1 (depth_modulo b p idx) Hp). apply wrap32_small. lia.
  - intros idx Hidx. rewrite GetAskLvl_eq.
    destruct (lookup_lt_is_Some_2 (ask_prices b) idx) as [p Hp]; [lia|].
    rewrite Hp. simpl.
    rewrite (proj2 (depth_modulo b p idx) Hp). apply wrap32_small. lia.
Qed.

Lemma depth_and_level_round_trip_witness :
  Book.GetBidLvl (N.to_nat (Book.GetBidLevelDepth 98 book_3x2)) book_3x2
    = PriceLvl.mk 98 2 1 ∧
  Book.GetAskLevelDepth (PriceLvl.price (Book.GetAskLvl 1 book_3x2)) book_3x2 = 1%N.
Proof.
  assert (H1 : (N.of_nat (size (Book.bids_ book_3x2)) ≤ 2 ^ 32)%N) by (by vm_compute).
  assert (H2 : (N.of_nat (size (Book.offers_ book_3x2)) ≤ 2 ^ 32)%N) by (by vm_compute).
  destruct (depth_and_level_round_trip book_3x2 H1 H2) as (Hb & _ & _ & Ha).
  split.
  - rewrite Hb; [vm_compute; reflexivity|]. vm_compute. eexists. reflexivity.
  - apply (Ha 1%nat). vm_compute. lia.
Defined.

(** ** [Market::Apply], [Market::ProcSynthTrade], [Market::GetLevelDepth] *)

Lemma book_at_set_book i p b mk i' p' :
  book_at i' p' (Market.set_book i p b mk) =
    if decide (i' = i ∧ p' = p) then Some b else book_at i' p' mk.
Proof.
  unfold book_at, Market.set_book. simpl.
  destruct (decide (i' = i)) as [->|Hi].
  - rewrite lookup_insert_eq. simpl. destruct (decide (p' = p)) as [->|Hp].
    + rewrite lookup_insert_eq. by rewrite decide_True.
    + rewrite lookup_insert_ne by done. rewrite decide_False by (by intros [_ ?]).
      by destruct (Market.books_ mk !! i).
  - rewrite lookup_insert_ne by done. by rewrite decide_False by (by intros [? _]).
Qed.

Lemma target_book_book_at m mk :
  target_book m mk =
    default Book.init (book_at (MboSingle.instrId m) (MboSingle.pubId m) mk).
Proof.
  unfold target_book, book_at. by destruct (Market.books_ mk !! MboSingle.instrId m).
Qed.

Lemma set_book_same i p b mk : book_at i p mk = Some b → Market.set_book i p b mk = mk.
Proof.
  unfold book_at, Market.set_book. destruct mk as [books]. simpl.
  destruct (books !! i) as [pubs|] eqn:Hi; [|done]. simpl. intros Hp.
  by rewrite (insert_id pubs), (insert_id books).
Qed.

Lemma Market_Apply_state stale m mk :
  state_of (Market.Apply stale m mk) =
    Market.set_book (MboSingle.instrId m) (MboSingle.pubId m)
      (state_of (Book.Apply stale m (target_book m mk))) mk.
Proof.
  unfold Market.Apply. fold (target_book m mk).
  by destruct (Book.Apply stale m (target_book m mk)).
Qed.

(** X11. [Market::Apply] hands the event to the book of the event's
    instrument and publisher -- a fresh book when the market has none
    there -- and stores what that book has become, also when
    [Book::Apply] throws or does nothing; it returns, throws and logs
    as the book does, and every other book of the market is left as it
    is. *)
Theorem market_apply_routes (stale : Book.PxAndSd) (m : MboSingle.t) (mk : Market.t) :
  book_at (MboSingle.instrId m) (MboSingle.pubId m) (state_of (Market.Apply stale m mk))
    = Some (state_of (Book.Apply stale m (target_book m mk))) ∧
  (∀ i p, (i, p) ≠ (MboSingle.instrId m, MboSingle.pubId m) →
     book_at i p (state_of (Market.Apply stale m mk)) = book_at i p mk) ∧
  (∀ b' log, Book.Apply stale m (target_book m mk) = Done b' log →
     Market.Apply stale m mk = Done (state_of (Market.Apply stale m mk)) log) ∧
  (∀ e b' log, Book.Apply stale m (target_book m mk) = Threw e b' log →
     Market.Apply stale m mk = Threw e (state_of (Market.Apply stale m mk)) log).
Proof.
  split_and!.
  - rewrite Market_Apply_state, book_at_set_book. by rewrite decide_True.
  - intros i p Hne. rewrite Market_Apply_state, book_at_set_book.
    rewrite decide_False; [done|]. intros [-> ->]. done.
  - intros b' log Hb. unfold Market.Apply. fold (target_book m mk). by rewrite Hb.
  - intros e b' log Hb. unfold Market.Apply. fold (target_book m mk). by rewrite Hb.
Qed.

Lemma Market_ProcSynthTrade_Some instrId pubId px sz s mk b :
  book_at instrId pubId mk = Some b →
  Market.ProcSynthTrade instrId pubId px sz s mk =
    match Book.ProcSynthTrade px sz s b with
    | Done b' log => Done (Market.set_book instrId pubId b' mk) log
    | Threw e b' log => Threw e (Market.set_book instrId pubId b' mk) log
    end.
Proof.
  unfold book_at, Market.ProcSynthTrade.
  destruct (Market.books_ mk !! instrId) as [pubs|]; simpl; [|done]. by intros ->.
Qed.

Lemma Market_ProcSynthTrade_None instrId pubId px sz s mk :
  book_at instrId pubId mk = None →
  ∃ w, Market.ProcSynthTrade instrId pubId px sz s mk = Done mk [w] ∧
       (w = ErrSynthNoInstr instrId ∨ w = ErrSynthNoBook instrId pubId).
Proof.
  unfold book_at, Market.ProcSynthTrade.
  destruct (Market.books_ mk !! instrId) as [pubs|]; simpl; [|by eauto].
  intros ->. eauto.
Qed.

(** X12. [Market::ProcSynthTrade] never creates a book.  When the
    market has no book for the instrument and publisher it returns the
    market unchanged with one error line; when the book has no level at
    the price on a proper side it returns the market unchanged with the
    book's warning; otherwise the book is replaced by what
    [Book::ProcSynthTrade] makes of it.  Every other book is left as it
    is. *)
Theorem market_synth_trade_routes (instrId pubId : N) (px : Z) (sz : N)
    (s : Sd.type) (mk : Market.t) :
  (book_at instrId pubId mk = None →
     ∃ w, Market.ProcSynthTrade instrId pubId px sz s mk = Done mk [w] ∧
          (w = ErrSynthNoInstr instrId ∨ w = ErrSynthNoBook instrId pubId)) ∧
  (∀ b, book_at instrId pubId mk = Some b → s ≠ Sd.None → lvls s b !! px = None →
     Market.ProcSynthTrade instrId pubId px sz s mk = Done mk [WarnSynthNoLvl s px sz]) ∧
  (∀ b, book_at instrId pubId mk = Some b →
     book_at instrId pubId (state_of (Market.ProcSynthTrade instrId pubId px sz s mk))
       = Some (state_of (Book.ProcSynthTrade px sz s b)) ∧
     log_of (Market.ProcSynthTrade instrId pubId px sz s mk)
       = log_of (Book.ProcSynthTrade px sz s b)) ∧
  (∀ i p, (i, p) ≠ (instrId, pubId) →
     book_at i p (state_of (Market.ProcSynthTrade instrId pubId px sz s mk))
       = book_at i p mk).
Proof.
  split_and!.
  - apply Market_ProcSynthTrade_None.
  - intros b Hb Hs Hlvl. rewrite (Market_ProcSynthTrade_Some _ _ _ _ _ _ _ Hb).
    rewrite ProcSynthTrade_no_level by done. by rewrite set_book_same.
  - intros b Hb. rewrite (Market_ProcSynthTrade_Some _ _ _ _ _ _ _ Hb).
    destruct (Book.ProcSynthTrade px sz s b); simpl;
      by rewrite book_at_set_book, decide_True.
  - intros i p Hne. destruct (book_at instrId pubId mk) as [b|] eqn:Hb.
    + rewrite (Market_ProcSynthTrade_Some _ _ _ _ _ _ _ Hb).
      destruct (Book.ProcSynthTrade px sz s b); simpl;
        (rewrite book_at_set_book, decide_False; [done|]); by intros [-> ->].
    + by destruct (Market_ProcSynthTrade_None instrId pubId px sz s mk Hb) as (w & -> & _).
Qed.

(** X13. [Market::GetLevelDepth] answers 0 when the market has no book
    for the instrument and publisher and when the side is [None], and
    otherwise the bid or ask depth of that book; so whenever it answers
    something other than 0, the book exists and has a level at the
    price on that side. *)
Theorem market_level_depth (instrId pubId : N) (px : Z) (s : Sd.type) (mk : Market.t) :
  Market.GetLevelDepth instrId pubId px s mk =
    match book_at instrId pubId mk, s with
    | Some b, Sd.Bid => Book.GetBidLevelDepth px b
    | Some b, Sd.Ask => Book.GetAskLevelDepth px b
    | _, _ => 0%N
    end ∧
  (Market.GetLevelDepth instrId pubId px s mk ≠ 0%N →
     ∃ b, book_at instrId pubId mk = Some b ∧ is_Some (lvls s b !! px)).
Proof.
  assert (Heq : Market.GetLevelDepth instrId pubId px s mk =
    match book_at instrId pubId mk, s with
    | Some b, Sd.Bid => Book.GetBidLevelDepth px b
    | Some b, Sd.Ask => Book.GetAskLevelDepth px b
    | _, _ => 0%N
    end).
  { unfold Market.GetLevelDepth, book_at.
    destruct (Market.books_ mk !! instrId) as [pubs|]; simpl; [|done].
    destruct (pubs !! pubId); by destruct s. }
  split; [done|]. rewrite Heq. intros Hne.
  destruct (book_at instrId pubId mk) as [b|]; [|done]. exists b. split; [done|].
  destruct s; simpl; [| |done].
  - destruct (Book.offers_ b !! px) eqn:Hpx; [by eexists|].
    by rewrite GetAskLevelDepth_absent in Hne.
  - destruct (Book.bids_ b !! px) eqn:Hpx; [by eexists|].
    exfalso. apply Hne. apply bid_depth_loop_absent.
    rewrite elem_of_rbegin_to_rend_keys, Hpx. by intros [??].
Qed.

(** ** The driver loop *)

Lemma loop_body_Done_row stale m st st' log :
  Main.loop_body stale m st = Done st' log →
  Main.mbpRowIdx st' = int_incr (Main.mbpRowIdx st) ∧
  ∃ r, Main.mbpOs st' = Main.mbpOs st ++ [r] ∧
    Main.mi r = m ∧ Main.rIdx r = Main.mbpRowIdx st ∧
    Main.bl r = Market.GetAggBidLvls (MboSingle.instrId m) 10 (Main.market st') ∧
    Main.al r = Market.GetAggAskLvls (MboSingle.instrId m) 10 (Main.market st').
Proof.
  unfold Main.loop_body, Main.write_row.
  repeat case_bool_decide;
    repeat match goal with
           | |- context [match ?x with _ => _ end] => destruct x eqn:?
           end;
    intros [= <- <-]; (split; [done|]); eexists; by split_and!.
Qed.

Lemma loop_body_Threw_rows stale m st e st' log :
  Main.loop_body stale m st = Threw e st' log →
  Main.mbpOs st' = Main.mbpOs st ∧ Main.mbpRowIdx st' = Main.mbpRowIdx st ∧
  Main.pendingTFs st' = Main.pendingTFs st.
Proof.
  unfold Main.loop_body, Main.write_row.
  repeat case_bool_decide;
    repeat match goal with
           | |- context [match ?x with _ => _ end] => destruct x eqn:?
           end;
    by intros [= <- <- <-].
Qed.

(** X14. The loop writes one row per event, in input order: when it
    completes, the rows added are as many as the events and carry the
    events in order; when an exception ends it, rows were added for a
    proper prefix of the events only.  As long as the row index stays
    within the range of [int], the rows are numbered consecutively from
    the current row index. *)
Theorem loop_writes_one_row_per_event (stale : nat → Book.PxAndSd)
    (ms : list MboSingle.t) (st : Main.state) :
  (∀ st' log, Main.loop stale ms st = Done st' log →
     ∃ rows, Main.mbpOs st' = Main.mbpOs st ++ rows ∧
       Main.mi <$> rows = ms ∧
       (Main.mbpRowIdx st + Z.of_nat (length ms) ≤ INT_MAX →
        Main.mbpRowIdx st' = Main.mbpRowIdx st + Z.of_nat (length ms) ∧
        Main.rIdx <$> rows = seqZ (Main.mbpRowIdx st) (Z.of_nat (length ms)))) ∧
  (∀ e st' log, Main.loop stale ms st = Threw e st' log →
     ∃ k rows, (k < length ms)%nat ∧
       Main.mbpOs st' = Main.mbpOs st ++ rows ∧
       Main.mi <$> rows = take k ms ∧
       (Main.mbpRowIdx st + Z.of_nat k ≤ INT_MAX →
        Main.rIdx <$> rows = seqZ (Main.mbpRowIdx st) (Z.of_nat k))).
Proof.
  revert stale st. induction ms as [|m ms IH]; intros stale st.
  { split.
    - intros st' log [= <- <-]. exists []. split_and!; [by rewrite app_nil_r|done|].
      intros _. split; [simpl; lia|done].
    - done. }
  cbn [Main.loop].
  destruct (Main.loop_body (stale 0%nat) m st) as [st1 log1|e1 st1 log1] eqn:Hbody.
  - destruct (loop_body_Done_row _ _ _ _ _ Hbody) as (Hidx & r & Hrows & Hmi & Hr & _).
    assert (Hnext : Main.mbpRowIdx st < INT_MAX →
              Main.mbpRowIdx st1 = Main.mbpRowIdx st + 1).
    { intros Hlt. rewrite Hidx. unfold int_incr. by rewrite bool_decide_eq_true_2. }
    destruct (IH (λ k, stale (S k)) st1) as [IHd IHt].
    destruct (Main.loop _ ms st1) as [st2 log2|e2 st2 log2] eqn:Hrest; split; try done.
    + intros st' log [= <- <-]. destruct (IHd _ _ eq_refl) as (rows & Hrows2 & Hmis & Hnum).
      exists (r :: rows). split_and!.
      * by rewrite Hrows2, Hrows, <-(assoc_L (++)).
      * by rewrite fmap_cons, Hmi, Hmis.
      * cbn [length]. intros Hbound.
        destruct Hnum as [Hidx2 Hrs]; [rewrite Hnext; lia|].
        split; [rewrite Hidx2, Hnext; lia|].
        rewrite fmap_cons, Hr, Hrs, Hnext by lia.
        rewrite (seqZ_cons (Main.mbpRowIdx st)) by lia. do 2 f_equal; lia.
    + intros e st' log [= <- <- <-].
      destruct (IHt _ _ _ eq_refl) as (k & rows & Hk & Hrows2 & Hmis & Hnum).
      exists (S k), (r :: rows). split_and!.
      * cbn [length]. lia.
      * by rewrite Hrows2, Hrows, <-(assoc_L (++)).
      * by rewrite fmap_cons, Hmi, Hmis.
      * intros Hbound. rewrite fmap_cons, Hr, Hnum, Hnext by (rewrite ?Hnext; lia).
        rewrite (seqZ_cons (Main.mbpRowIdx st)) by lia. do 2 f_equal; lia.
  - destruct (loop_body_Threw_rows _ _ _ _ _ _ Hbody) as (Hrows & _ & _). split; [done|].
    intros e st' log [= <- <- <-]. exists 0%nat, []. split_and!.
    + cbn [length]. lia.
    + by rewrite app_nil_r.
    + done.
    + done.
Qed.

(** X15. The levels a row carries are the aggregated bid and ask levels
    of the event's instrument in the market as the event has left it:
    at most ten on each side, bids with strictly descending and asks
    with strictly ascending prices. *)
Theorem row_carries_top_ten (stale : Book.PxAndSd) (m : MboSingle.t)
    (st st' : Main.state) (log : list warn) :
  Main.loop_body stale m st = Done st' log →
  ∃ r, Main.mbpOs st' = Main.mbpOs st ++ [r] ∧
    Main.bl r = Market.GetAggBidLvls (MboSingle.instrId m) 10 (Main.market st') ∧
    Main.al r = Market.GetAggAskLvls (MboSingle.instrId m) 10 (Main.market st') ∧
    (length (Main.bl r) ≤ 10)%nat ∧ (length (Main.al r) ≤ 10)%nat ∧
    StronglySorted Z.gt (PriceLvl.price <$> Main.bl r) ∧
    StronglySorted Z.lt (PriceLvl.price <$> Main.al r).
Proof.
  intros Hbody.
  destruct (loop_body_Done_row _ _ _ _ _ Hbody) as (_ & r & Hrows & _ & _ & Hbl & Hal).
  exists r. split_and!; [done..| | | |].
  - rewrite Hbl. unfold Market.GetAggBidLvls. rewrite length_fmap, length_take. lia.
  - rewrite Hal. unfold Market.GetAggAskLvls. rewrite length_fmap, length_take. lia.
  - rewrite Hbl. unfold Market.GetAggBidLvls.
    set (agg := match Market.books_ (Main.market st') !! MboSingle.instrId m with
                | Some pubs => Market.agg_books (Book.GetBidLvls 10) (map_to_list pubs)
                | None => ∅
                end).
    destruct (agg_traversal agg
                (levels_of_instrument (Book.GetBidLvls 10) (MboSingle.instrId m)
                   (Main.market st'))
                (rbegin_to_rend agg)) as [Hprices _].
    { apply agg_books_lookup. }
    { apply elem_of_rbegin_to_rend. }
    rewrite !fmap_take, Hprices.
    eapply StronglySorted_app_1_l. rewrite take_drop. apply rbegin_to_rend_sorted.
  - rewrite Hal. unfold Market.GetAggAskLvls.
    set (agg := match Market.books_ (Main.market st') !! MboSingle.instrId m with
                | Some pubs => Market.agg_books (Book.GetAskLvls 10) (map_to_list pubs)
                | None => ∅
                end).
    destruct (agg_traversal agg
                (levels_of_instrument (Book.GetAskLvls 10) (MboSingle.instrId m)
                   (Main.market st'))
                (begin_to_end agg)) as [Hprices _].
    { apply agg_books_lookup. }
    { apply elem_of_begin_to_end. }
    rewrite !fmap_take, Hprices.
    eapply StronglySorted_app_1_l. rewrite take_drop. apply begin_to_end_sorted.
Qed.

Lemma row_carries_top_ten_witness :
  ∃ r, Main.mbpOs (state_of (Main.loop_body other_data (ev Act.Add Sd.Bid 990 1 11) state_pending))
         = Main.mbpOs state_pending ++ [r] ∧
       Main.bl r = [PriceLvl.mk 995 4 1; PriceLvl.mk 990 1 1].
Proof.
  destruct (row_carries_top_ten other_data (ev Act.Add Sd.Bid 990 1 11) state_pending
              (state_of (Main.loop_body other_data (ev Act.Add Sd.Bid 990 1 11) state_pending)) [])
    as (r & Hrows & Hbl & _); [vm_compute; reflexivity|].
  exists r. split; [exact Hrows|]. rewrite Hbl. vm_compute. reflexivity.
Defined.

(** The market after one iteration is the market before it, or what
    [Market::Apply] of the event made of it, or what a synthetic trade
    for the event's instrument and publisher on a proper side made of
    it. *)
Lemma loop_body_market stale m st :
  let mk' := Main.market (state_of (Main.loop_body stale m st)) in
  mk' = Main.market st ∨
  mk' = state_of (Market.Apply stale m (Main.market st)) ∨
  ∃ px sz s, s ≠ Sd.None ∧
    mk' = state_of (Market.ProcSynthTrade (MboSingle.instrId m) (MboSingle.pubId m)
                      px sz s (Main.market st)).
Proof.
  unfold Main.loop_body, Main.write_row. cbv zeta.
  case_bool_decide; [by left|]. case_bool_decide; [by left|].
  case_bool_decide.
  - destruct (Main.pendingTFs st !! MboSingle.orderId m) as [prior|].
    + destruct (MboSingle.side prior).
      * right. right. exists (MboSingle.price prior), (MboSingle.size prior), Sd.Bid.
        split; [done|]. by destruct (Market.ProcSynthTrade _ _ _ _ _ _).
      * right. right. exists (MboSingle.price prior), (MboSingle.size prior), Sd.Ask.
        split; [done|]. by destruct (Market.ProcSynthTrade _ _ _ _ _ _).
      * by left.
    + right. left. by destruct (Market.Apply stale m (Main.market st)).
  - right. left. by destruct (Market.Apply stale m (Main.market st)).
Qed.

Lemma books_set_book_ne i p b mk i' :
  i' ≠ i → Market.books_ (Market.set_book i p b mk) !! i' = Market.books_ mk !! i'.
Proof. intros Hne. unfold Market.set_book. simpl. by rewrite lookup_insert_ne. Qed.

Lemma Market_ProcSynthTrade_state instrId pubId px sz s mk :
  state_of (Market.ProcSynthTrade instrId pubId px sz s mk) = mk ∨
  ∃ b', state_of (Market.ProcSynthTrade instrId pubId px sz s mk)
          = Market.set_book instrId pubId b' mk.
Proof.
  destruct (book_at instrId pubId mk) as [b|] eqn:Hb.
  - right. rewrite (Market_ProcSynthTrade_Some _ _ _ _ _ _ _ Hb).
    destruct (Book.ProcSynthTrade px sz s b); simpl; eauto.
  - left. by destruct (Market_ProcSynthTrade_None instrId pubId px sz s mk Hb) as (w & -> & _).
Qed.

Lemma loop_body_other_instrument stale m st i :
  i ≠ MboSingle.instrId m →
  Market.books_ (Main.market (state_of (Main.loop_body stale m st))) !! i =
  Market.books_ (Main.market st) !! i.
Proof.
  intros Hne. destruct (loop_body_market stale m st) as [->|[->|(px & sz & s & _ & ->)]].
  - done.
  - rewrite Market_Apply_state. by apply books_set_book_ne.
  - destruct (Market_ProcSynthTrade_state (MboSingle.instrId m) (MboSingle.pubId m)
                px sz s (Main.market st)) as [->|[b' ->]]; [done|].
    by apply books_set_book_ne.
Qed.

Lemma state_of_loop_cons stale m ms st :
  state_of (Main.loop stale (m :: ms) st) =
    match Main.loop_body (stale 0%nat) m st with
    | Done st1 _ => state_of (Main.loop (λ k, stale (S k)) ms st1)
    | Threw _ st1 _ => st1
    end.
Proof.
  cbn [Main.loop]. destruct (Main.loop_body _ m st) as [st1 log1|]; [|done].
  by destruct (Main.loop _ ms st1).
Qed.

(** X16. Events act on their own instrument only: after any run of the
    loop, completed or ended by an exception, the books of an
    instrument that none of the events names are the books it had, and
    so are its aggregated bid and ask levels. *)
Theorem other_instruments_untouched (stale : nat → Book.PxAndSd)
    (ms : list MboSingle.t) (st : Main.state) (i : N) :
  Forall (λ m, MboSingle.instrId m ≠ i) ms →
  Market.books_ (Main.market (state_of (Main.loop stale ms st))) !! i =
    Market.books_ (Main.market st) !! i ∧
  (∀ n, Market.GetAggBidLvls i n (Main.market (state_of (Main.loop stale ms st))) =
        Market.GetAggBidLvls i n (Main.market st) ∧
        Market.GetAggAskLvls i n (Main.market (state_of (Main.loop stale ms st))) =
        Market.GetAggAskLvls i n (Main.market st)).
Proof.
  intros Hall.
  assert (Hbooks : Market.books_ (Main.market (state_of (Main.loop stale ms st))) !! i =
                   Market.books_ (Main.market st) !! i).
  { revert stale st. induction Hall as [|m ms Hm _ IH]; intros stale st; [done|].
    rewrite state_of_loop_cons.
    pose proof (loop_body_other_instrument (stale 0%nat) m st i (not_eq_sym Hm)) as Hstep.
    destruct (Main.loop_body _ m st) as [st1 log1|e st1 log1]; simpl in Hstep.
    - by rewrite IH.
    - done. }
  split; [done|]. intros n. unfold Market.GetAggBidLvls, Market.GetAggAskLvls.
  by rewrite Hbooks.
Qed.

Lemma other_instruments_untouched_witness :
  Market.GetAggBidLvls 42 10
    (Main.market (state_of (Main.loop (λ _, other_data)
       [MboSingle.mk "" "" 160 1 7 Act.Add Sd.Bid 500 1 0 90 0 0 0 ""]
       state_pending)))
  = [PriceLvl.mk 995 4 1].
Proof.
  destruct (other_instruments_untouched (λ _, other_data)
              [MboSingle.mk "" "" 160 1 7 Act.Add Sd.Bid 500 1 0 90 0 0 0 ""]
              state_pending 42) as [_ Hagg].
  - repeat constructor. simpl. discriminate.
  - rewrite (proj1 (Hagg 10%nat)). vm_compute. reflexivity.
Defined.

(** X17. Whatever the [Cancel]s of a run read through their erased
    iterators, this much of the books' consistency survives a completed
    run: if in every book of the market each queued entry is indexed
    under the side and price of its queue and no queue holds an id
    twice, the same is true of every book afterwards. *)
Theorem loop_keeps_books_tracked (stale : nat → Book.PxAndSd) (ms : list MboSingle.t)
    (st st' : Main.state) (log : list warn) :
  books_tracked (Main.market st) →
  Main.loop stale ms st = Done st' log →
  books_tracked (Main.market st').
Proof.
  assert (Hset : ∀ i p b mk, books_tracked mk → Tracked b →
            books_tracked (Market.set_book i p b mk)).
  { intros i p b mk Hok Hb i' p' b'. rewrite book_at_set_book.
    case_decide; [by intros [= <-]|apply Hok]. }
  assert (Hstep : ∀ rd m st1 st2 log1,
            books_tracked (Main.market st1) → Main.loop_body rd m st1 = Done st2 log1 →
            books_tracked (Main.market st2)).
  { intros rd m st1 st2 log1 Hok.
    assert (Htarget : Tracked (target_book m (Main.market st1))).
    { rewrite target_book_book_at.
      destruct (book_at _ _ _) as [b|] eqn:Hb; simpl; [by eapply Hok|apply Tracked_init]. }
    assert (Happly : ∀ mk' log', Market.Apply rd m (Main.market st1) = Done mk' log' →
              books_tracked mk').
    { intros mk' log'. unfold Market.Apply. fold (target_book m (Main.market st1)).
      destruct (Book.Apply rd m (target_book m (Main.market st1))) as [b' lg|] eqn:Hb;
        [|done].
      intros [= <- <-]. apply Hset; [done|].
      exact (mutate_Tracked (MEvent rd m) _ _ _ Htarget Hb). }
    assert (Hsynth : ∀ px sz s, s ≠ Sd.None →
              books_tracked (state_of (Market.ProcSynthTrade (MboSingle.instrId m)
                                         (MboSingle.pubId m) px sz s (Main.market st1)))).
    { intros px sz s Hs.
      destruct (book_at (MboSingle.instrId m) (MboSingle.pubId m) (Main.market st1))
        as [b|] eqn:Hb.
      - rewrite (Market_ProcSynthTrade_Some _ _ _ _ _ _ _ Hb).
        destruct (Book_ProcSynthTrade_returns px sz s b Hs) as (b' & lg & Heq).
        rewrite Heq. simpl. apply Hset; [done|].
        exact (ProcSynthTrade_Tracked _ _ _ _ _ _ (Hok _ _ _ Hb) Heq).
      - by destruct (Market_ProcSynthTrade_None _ _ px sz s _ Hb) as (w & -> & _). }
    unfold Main.loop_body, Main.write_row. cbv zeta.
    case_bool_decide; [by intros [= <- _]|]. case_bool_decide; [by intros [= <- _]|].
    case_bool_decide.
    - destruct (Main.pendingTFs st1 !! MboSingle.orderId m) as [prior|].
      + destruct (MboSingle.side prior).
        * pose proof (Hsynth (MboSingle.price prior) (MboSingle.size prior) Sd.Bid) as H'.
          destruct (Market.ProcSynthTrade _ _ _ _ _ _); intros [= <- _]; by apply H'.
        * pose proof (Hsynth (MboSingle.price prior) (MboSingle.size prior) Sd.Ask) as H'.
          destruct (Market.ProcSynthTrade _ _ _ _ _ _); intros [= <- _]; by apply H'.
        * by intros [= <- _].
      + destruct (Market.Apply rd m (Main.market st1)) as [mk' lg|] eqn:Hm; [|done].
        intros [= <- _]. by eapply Happly.
    - destruct (Market.Apply rd m (Main.market st1)) as [mk' lg|] eqn:Hm; [|done].
      intros [= <- _]. by eapply Happly. }
  revert stale st log. induction ms as [|m ms IH]; intros stale st log Hok; simpl.
  { by intros [= <- _]. }
  destruct (Main.loop_body (stale 0%nat) m st) as [st1 log1|] eqn:Hbody; [|done].
  destruct (Main.loop _ ms st1) as [st2 log2|] eqn:Hrest; [|done].
  intros [= <- _]. eapply IH; [|done]. by eapply Hstep.
Qed.

Lemma loop_keeps_books_tracked_witness :
  books_tracked
    (Main.market (state_of (Main.loop (λ _, Book.mkPxAndSd 990 Sd.Bid)
                              [ev Act.Add Sd.Bid 990 1 11; ev Act.Cancel Sd.Bid 995 4 10]
                              state_pending))).
Proof.
  apply (loop_keeps_books_tracked (λ _, Book.mkPxAndSd 990 Sd.Bid)
           ([ev Act.Add Sd.Bid 995 4 10; ev Act.Trade Sd.Ask 995 4 77] ++
            [ev Act.Add Sd.Bid 990 1 11; ev Act.Cancel Sd.Bid 995 4 10])
           Main.init _ []).
  - intros i p b. vm_compute. discriminate.
  - vm_compute. reflexivity.
Defined.

Lemma loop_body_pending stale m st :
  let pend' := Main.pendingTFs (state_of (Main.loop_body stale m st)) in
  pend' = Main.pendingTFs st ∨
  pend' = delete (MboSingle.orderId m) (Main.pendingTFs st) ∨
  (pend' = <[MboSingle.orderId m := m]> (Main.pendingTFs st) ∧
   (MboSingle.action m = Act.Trade ∨ MboSingle.action m = Act.Fill) ∧
   ¬ (MboSingle.action m = Act.Trade ∧ MboSingle.side m = Sd.None)).
Proof.
  unfold Main.loop_body, Main.write_row. cbv zeta.
  case_bool_decide; [by left|]. case_bool_decide; [by right; right|].
  case_bool_decide.
  - destruct (Main.pendingTFs st !! MboSingle.orderId m) as [prior|].
    + right. left. destruct (MboSingle.side prior); [| |done];
        by destruct (Market.ProcSynthTrade _ _ _ _ _ _).
    + left. by destruct (Market.Apply stale m (Main.market st)).
  - left. by destruct (Market.Apply stale m (Main.market st)).
Qed.

(** X18. The pending map holds nothing but what the loop put there:
    after any run, completed or ended by an exception, every pending
    event is a Trade or a Fill stored under its own order id, and no
    pending event is a Trade without a side. *)
Theorem pending_holds_trades_and_fills (stale : nat → Book.PxAndSd)
    (ms : list MboSingle.t) (st : Main.state) :
  pend_ok (Main.pendingTFs st) →
  pend_ok (Main.pendingTFs (state_of (Main.loop stale ms st))).
Proof.
  assert (Hstep : ∀ rd m st1, pend_ok (Main.pendingTFs st1) →
            pend_ok (Main.pendingTFs (state_of (Main.loop_body rd m st1)))).
  { intros rd m st1 Hok.
    destruct (loop_body_pending rd m st1) as [->|[->|(-> & Hact & Hnot)]].
    - done.
    - intros id e Hid. apply lookup_delete_Some in Hid as [_ Hid]. by apply Hok.
    - intros id e Hid. apply lookup_insert_Some in Hid as [[<- <-]|[_ Hid]].
      + done.
      + by apply Hok. }
  revert stale st. induction ms as [|m ms IH]; intros stale st Hok; [done|].
  rewrite state_of_loop_cons. pose proof (Hstep (stale 0%nat) m st Hok) as Hok1.
  destruct (Main.loop_body _ m st) as [st1 log1|e st1 log1]; simpl in Hok1; [|done].
  by apply IH.
Qed.

Lemma pending_holds_trades_and_fills_witness :
  pend_ok (Main.pendingTFs state_pending).
Proof.
  apply (pending_holds_trades_and_fills (λ _, other_data)
           [ev Act.Add Sd.Bid 995 4 10; ev Act.Trade Sd.Ask 995 4 77] Main.init).
  intros id e. vm_compute. discriminate.
Defined.

(** X19. Trade and Fill events never reach a book: a run over events
    that are all Trades or Fills completes without a diagnostic and
    leaves the market exactly as it was, whatever their sides, prices
    and sizes. *)
Theorem trades_and_fills_leave_market (stale : nat → Book.PxAndSd)
    (ms : list MboSingle.t) (st : Main.state) :
  Forall (λ m, MboSingle.action m = Act.Trade ∨ MboSingle.action m = Act.Fill) ms →
  ∃ st', Main.loop stale ms st = Done st' [] ∧ Main.market st' = Main.market st.
Proof.
  intros Hall. revert stale st. induction Hall as [|m ms Hm _ IH]; intros stale st.
  { by exists st. }
  cbn [Main.loop].
  assert (Hbody : ∃ st1, Main.loop_body (stale 0%nat) m st = Done st1 [] ∧
                         Main.market st1 = Main.market st).
  { unfold Main.loop_body. case_bool_decide; [by eexists|].
    rewrite bool_decide_eq_true_2 by done. by eexists. }
  destruct Hbody as (st1 & -> & Hmk1).
  destruct (IH (λ k, stale (S k)) st1) as (st' & -> & Hmk).
  exists st'. split; [done|]. by rewrite Hmk.
Qed.

Lemma trades_and_fills_leave_market_witness :
  ∃ st', Main.loop (λ _, other_data) [ev Act.Trade Sd.Bid 995 4 10; ev Act.Fill Sd.None 995 9 10]
           state_pending = Done st' [] ∧
         Main.market st' = Main.market state_pending.
Proof.
  apply (trades_and_fills_leave_market (λ _, other_data)
           [ev Act.Trade Sd.Bid 995 4 10; ev Act.Fill Sd.None 995 9 10] state_pending).
  repeat constructor; simpl; tauto.
Defined.

(** X20. A [Cancel] whose order id has a pending event without a side
    (a Fill reported with side [None]) is swallowed: the pending entry
    is removed, the warning is written, the row gets depth 0, and the
    [Cancel] itself is not applied to any book. *)
Theorem cancel_after_pending_without_side (stale : Book.PxAndSd) (st : Main.state)
    (m prior : MboSingle.t) :
  MboSingle.action m = Act.Cancel →
  Main.pendingTFs st !! MboSingle.orderId m = Some prior →
  MboSingle.side prior = Sd.None →
  ∃ st' r,
    Main.loop_body stale m st = Done st' [WarnTFSideNone (MboSingle.orderId m)] ∧
    Main.market st' = Main.market st ∧
    Main.pendingTFs st' = delete (MboSingle.orderId m) (Main.pendingTFs st) ∧
    Main.mbpOs st' = Main.mbpOs st ++ [r] ∧
    Main.mi r = m ∧
    Main.depth_val r = 0%N.
Proof.
  intros Hact Hpend Hside. unfold Main.loop_body. rewrite Hact, Hpend, Hside.
  rewrite bool_decide_eq_false_2 by (by intros [? _]).
  rewrite bool_decide_eq_false_2 by (by intros [?|?]).
  rewrite bool_decide_eq_true_2 by done. eexists _, _. by split_and!.
Qed.

Lemma cancel_after_pending_without_side_witness :
  ∃ st' r,
    Main.loop_body other_data (ev Act.Cancel Sd.Bid 995 4 77) state_pending_none
      = Done st' [WarnTFSideNone 77] ∧
    Main.market st' = Main.market state_pending_none ∧
    Main.pendingTFs st' = delete 77%N (Main.pendingTFs state_pending_none) ∧
    Main.mbpOs st' = Main.mbpOs state_pending_none ++ [r] ∧
    Main.depth_val r = 0%N.
Proof.
  destruct (cancel_after_pending_without_side other_data state_pending_none
              (ev Act.Cancel Sd.Bid 995 4 77) (ev Act.Fill Sd.None 995 4 77))
    as (st' & r & Hbody & Hmk & Hpend & Hrows & _ & Hdepth);
    [reflexivity|vm_compute; reflexivity|reflexivity|].
  exists st', r. split_and!; [exact Hbody|exact Hmk|exact Hpend|exact Hrows|exact Hdepth].
Defined.

(** X21. The depth of an [Add] row points at the order's level: when
    an [Add] event completes and the side it was added to has at most
    2^32 levels, the price at the reported depth, counted best first on
    that side of the event's book, is the event's price. *)
Theorem add_row_depth_is_position (stale : Book.PxAndSd) (m : MboSingle.t)
    (st st' : Main.state) (log : list warn) (b' : Book.t) :
  MboSingle.action m = Act.Add →
  Main.loop_body stale m st = Done st' log →
  book_at (MboSingle.instrId m) (MboSingle.pubId m) (Main.market st') = Some b' →
  (N.of_nat (size (lvls (MboSingle.side m) b')) ≤ 2 ^ 32)%N →
  ∃ r, Main.mbpOs st' = Main.mbpOs st ++ [r] ∧
    match MboSingle.side m with
    | Sd.Bid => bid_prices b' !! N.to_nat (Main.depth_val r) = Some (MboSingle.price m)
    | Sd.Ask => ask_prices b' !! N.to_nat (Main.depth_val r) = Some (MboSingle.price m)
    | Sd.None => False
    end.
Proof.
  intros Hact Hbody Hb' Hsize. unfold Main.loop_body, Main.write_row in Hbody.
  rewrite Hact in Hbody.
  rewrite bool_decide_eq_false_2 in Hbody by (by intros [? _]).
  rewrite bool_decide_eq_false_2 in Hbody by (by intros [?|?]).
  rewrite bool_decide_eq_false_2 in Hbody by done.
  rewrite bool_decide_eq_true_2 in Hbody by (by left).
  destruct (Market.Apply stale m (Main.market st)) as [mk' lg|] eqn:Hm; [|done].
  injection Hbody as <- <-. simpl in Hb'. eexists. split; [done|]. simpl.
  unfold Market.Apply in Hm. fold (target_book m (Main.market st)) in Hm.
  destruct (Book.Apply stale m (target_book m (Main.market st))) as [b1 lg1|] eqn:Hb1; [|done].
  injection Hm as <- <-. rewrite book_at_set_book, decide_True in Hb' by done.
  injection Hb' as <-.
  unfold Book.Apply in Hb1. rewrite Hact in Hb1.
  set (b := target_book m (Main.market st)) in *.
  destruct (decide (MboSingle.side m = Sd.None)) as [Hs|Hs].
  { by rewrite Add_side_None in Hb1. }
  destruct (Book.ordsById_ b !! MboSingle.orderId m) as [ps|] eqn:Hid.
  { destruct (Add_dupe_exn m b) as (e & b'' & Heq & _); [by eexists|]. congruence. }
  rewrite Add_eq in Hb1 by done. injection Hb1 as <- _.
  set (b1 := Book.set_ordsById _ _) in *.
  assert (Hlvl : is_Some (lvls (MboSingle.side m) b1 !! MboSingle.price m)).
  { subst b1. rewrite lvls_set_ordsById, lvls_SetSdOrds, decide_True by done.
    rewrite lookup_insert_eq. by eexists. }
  unfold Market.GetLevelDepth. simpl. rewrite lookup_insert_eq. simpl.
  rewrite lookup_insert_eq.
  destruct (MboSingle.side m) eqn:Hside; [| |done]; simpl in Hlvl, Hsize.
  - apply elem_of_begin_to_end_keys, list_elem_of_lookup in Hlvl as [i Hi].
    pose proof (lookup_lt_Some _ _ _ Hi) as Hlt.
    rewrite length_fmap, begin_to_end_length in Hlt.
    rewrite (proj2 (depth_modulo b1 _ i) Hi), wrap32_small, Nat2N.id by lia. done.
  - apply elem_of_rbegin_to_rend_keys, list_elem_of_lookup in Hlvl as [i Hi].
    pose proof (lookup_lt_Some _ _ _ Hi) as Hlt. unfold rbegin_to_rend in Hlt.
    rewrite length_fmap, length_reverse, begin_to_end_length in Hlt.
    rewrite (proj1 (depth_modulo b1 _ i) Hi), wrap32_small, Nat2N.id by lia. done.
Qed.

Lemma add_row_depth_is_position_witness :
  ∃ r, Main.mbpOs (state_of (Main.loop_body other_data (ev Act.Add Sd.Bid 990 1 11) state_pending))
         = Main.mbpOs state_pending ++ [r] ∧
       bid_prices (target_book (ev Act.Add Sd.Bid 990 1 11)
                     (Main.market (state_of (Main.loop_body other_data (ev Act.Add Sd.Bid 990 1 11)
                                               state_pending))))
         !! N.to_nat (Main.depth_val r) = Some 990.
Proof.
  destruct (add_row_depth_is_position other_data (ev Act.Add Sd.Bid 990 1 11) state_pending
              (state_of (Main.loop_body other_data (ev Act.Add Sd.Bid 990 1 11) state_pending)) []
              (target_book (ev Act.Add Sd.Bid 990 1 11)
                 (Main.market (state_of (Main.loop_body other_data (ev Act.Add Sd.Bid 990 1 11)
                                           state_pending)))))
    as (r & Hrows & Hdepth);
    [reflexivity|vm_compute; reflexivity|vm_compute; reflexivity|by vm_compute|].
  exists r. split; [exact Hrows|exact Hdepth].
Defined.
